(** * chatBubble: the delegated encoding pipeline, embedded and verified

    A shallow embedding of [shared.ts] (time codec, export formats, normalised
    point lists), of [native.ts] (temporary-file manager, socket bridge,
    encoder job, I/O strategy selector) and of the crop-rectangle derivation
    of the editor, followed by the theorems settling the specification's
    claims.

    Conventions.
    - A JS [bigint] is a [Z]; [/] and [%] on bigints truncate toward zero and
      are [Z.quot] and [Z.rem].
    - A JS [number] is an IEEE binary64 value, [PrimFloat.float]; the
      geometry is written over the operations it uses.
    - A JS [throw] is the [Throw] constructor of [Completion].
    - A [Set<string>] is a [gset string]. *)

From Stdlib Require Import ZArith NArith QArith Qminmax String Ascii List Lia Lqa.
From Stdlib Require Import DecimalString DecimalN DecimalZ DecimalPos Floats Sorted.
From Stdlib Require Import DecimalFacts.
From stdpp Require Import gmap strings list.

Set Warnings "-inexact-float,-clear-no-such-hyp".
Local Open Scope string_scope.
Local Open Scope Z_scope.
#[local] Arguments String.append !_ _ / : simpl nomatch.

(* ===================================================================== *)
(** ** JavaScript runtime pieces the sources rely on                      *)
(* ===================================================================== *)

(** The outcome of evaluating a JS expression that may [throw]. *)
Inductive Completion (A : Type) : Type :=
| Return (a : A)
| Throw (message : string).
Arguments Return {A} a.
Arguments Throw {A} message.

#[global] Instance Completion_ret : MRet Completion := fun A a => Return a.

#[global] Instance Completion_bind : MBind Completion := fun A B k c =>
  match c with
  | Return a => k a
  | Throw m => Throw m
  end.

Module Js.

(** [\d] of a regular expression. *)
Definition is_digit (c : ascii) : bool :=
  ((48 <=? N_of_ascii c) && (N_of_ascii c <=? 57))%N.

(** [input.match(/\d+/g)]: the maximal runs of decimal digits, left to right
    ([[]] stands for the [null] the method returns when there is none). *)
Fixpoint digit_spans (s : string) : list string :=
  match s with
  | EmptyString => []
  | String c s' =>
      if is_digit c then
        match s' with
        | EmptyString => [String c EmptyString]
        | String c' _ =>
            if is_digit c' then
              match digit_spans s' with
              | run :: runs => String c run :: runs
              | [] => [String c EmptyString]
              end
            else String c EmptyString :: digit_spans s'
        end
      else digit_spans s'
  end.

Fixpoint all_digits (s : string) : bool :=
  match s with
  | EmptyString => true
  | String c s' => is_digit c && all_digits s'
  end.

(** The longest prefix of decimal digits and what follows it. *)
Fixpoint take_digits (s : string) : string * string :=
  match s with
  | EmptyString => (EmptyString, EmptyString)
  | String c s' =>
      if is_digit c then
        let '(run, rest) := take_digits s' in (String c run, rest)
      else (EmptyString, s)
  end.

(** [String(n)] for a bigint or an integral number [n]. *)
Definition String_of_Z (n : Z) : string := NilEmpty.string_of_int (Z.to_int n).

(** [BigInt(s)] for a string of decimal digits (leading zeros allowed, the
    empty string is [0n]); [None] is the [SyntaxError] on any other text. *)
Definition BigInt (s : string) : option Z :=
  option_map Z.of_uint (NilEmpty.uint_of_string s).

Fixpoint repeat_char (c : ascii) (n : nat) : string :=
  match n with
  | O => EmptyString
  | S n' => String c (repeat_char c n')
  end.

(** [s.padStart(n, c)] for a one-character pad. *)
Definition padStart (n : nat) (c : ascii) (s : string) : string :=
  repeat_char c (n - String.length s) ++ s.

(** [s.startsWith(p)]. *)
Definition startsWith (s p : string) : bool := String.prefix p s.

(** [s.includes(p)]. *)
Fixpoint includes (s p : string) : bool :=
  String.prefix p s ||
  match s with
  | EmptyString => false
  | String _ s' => includes s' p
  end.

(** [s.slice(-n)]: the last [n] characters. *)
Definition slice_last (n : nat) (s : string) : string :=
  String.substring (String.length s - n) n s.

End Js.

(* ===================================================================== *)
(** ** shared.ts: [ChatbubbleFFmpegTime]                                  *)
(* ===================================================================== *)

Module ChatbubbleFFmpegTime.

Record t : Type := new { microseconds : Z }.

(** us => s, s => m, m => h, h => d. *)
Definition MAGNITUDES : list Z := [1000000; 60; 60; 24].

(** The [for] loop of [toString]: with [i] counting up and [j] counting down,
    [parts[j] = time % MAGNITUDES[i]] fills the array from its last slot to
    its first, which is consing onto the front. *)
Definition split_parts (time : Z) : Z * list Z :=
  fold_left
    (fun '(time, parts) magnitude =>
       (Z.quot time magnitude, Z.rem time magnitude :: parts))
    MAGNITUDES (time, []).

Definition pad2 (part : Z) : string := Js.padStart 2 "0" (Js.String_of_Z part).

Definition toString (self : t) : Completion string :=
  let '(time, parts) := split_parts (microseconds self) in
  if negb (time =? 0) then Throw "Too long!"
  else
    let ms := List.last parts 0 in
    let parts := List.removelast parts in
    Return (String.concat ":" (map pad2 parts) ++ "." ++ pad2 ms).

(** [MAGNITUDES[k] ?? 1n]: an index outside the array reads [undefined]. *)
Definition magnitude_at (k : Z) : Z :=
  if k <? 0 then 1 else nth (Z.to_nat k) MAGNITUDES 1.

(** The [for] loop of [parse], [j] starting at [MAGNITUDES.length - 1]. *)
Fixpoint parse_spans (spans : list string) (j : Z) (microseconds : Z)
  : Completion Z :=
  match spans with
  | [] => Return microseconds
  | span :: spans' =>
      match Js.BigInt span with
      | None => Throw "SyntaxError"
      | Some v => parse_spans spans' (j - 1) ((microseconds + v) * magnitude_at (j - 1))
      end
  end.

Definition parse (input : string) : Completion t :=
  match Js.digit_spans input with
  | [] => Throw "Bad time!"
  | spans =>
      us ← parse_spans spans (Z.of_nat (List.length MAGNITUDES) - 1) 0;
      Return (new us)
  end.

End ChatbubbleFFmpegTime.

(* ===================================================================== *)
(** ** shared.ts: export formats and geometry                             *)
(* ===================================================================== *)

(** The string-valued [const enum ChatbubbleExportFormat]. *)
Inductive ChatbubbleExportFormat : Type := PNG | GIF | MP4 | WEBM.

Definition format_mime (format : ChatbubbleExportFormat) : string :=
  match format with
  | PNG => "image/png"
  | GIF => "image/gif"
  | MP4 => "video/mp4"
  | WEBM => "video/webm"
  end.

(** [a === b] on formats: the comparison of their strings. *)
Definition format_eqb (a b : ChatbubbleExportFormat) : bool :=
  String.eqb (format_mime a) (format_mime b).

(** [SUPPORTED_CANVAS_EXPORT_FORMATS.has(format)]. *)
Definition isChatbubbleExportFormatSupportedWithoutFFmpeg
  (format : ChatbubbleExportFormat) : bool :=
  existsb (format_eqb format) [GIF; PNG].

(** The arithmetic of JS [number]s the geometry uses; [binary64] is what the
    engine computes. *)
Class JsNumber (num : Type) : Type := {
  num_one : num;
  num_add : num -> num -> num;
  num_sub : num -> num -> num;
  num_mul : num -> num -> num;
  num_ltb : num -> num -> bool;
}.

#[global] Instance binary64 : JsNumber float := {|
  num_one := 1%float;
  num_add := PrimFloat.add;
  num_sub := PrimFloat.sub;
  num_mul := PrimFloat.mul;
  num_ltb := PrimFloat.ltb;
|}.

(** [Number.isFinite(x)]: neither an infinity nor [NaN]. *)
Definition isFinite (x : float) : bool :=
  match Prim2SF x with
  | S754_zero _ | S754_finite _ _ _ => true
  | S754_infinity _ | S754_nan => false
  end.

Section Geometry.
Context {num : Type} `{JsNumber num}.

Record Dimensions : Type := { width : num; height : num }.

(** [interface Rectangle extends Dimensions]. *)
Record Rectangle : Type := { rx : num; ry : num; rwidth : num; rheight : num }.

End Geometry.
Arguments Dimensions num : clear implicits.
Arguments Rectangle num : clear implicits.

Module ChatbubblePoints.
Section Points.
Context {num : Type} `{JsNumber num}.

Definition CoordinateTuple : Type := num * num.

Record NormalizedPointList : Type := new { normalized : list CoordinateTuple }.

(** The argument object [{ x?: boolean, y?: boolean }] of [inverted]. *)
Record Axes : Type := { x : option bool; y : option bool }.

(** [inverted({ x = false, y = false } = { x: true, y: true })]: called
    without an argument it reflects both axes; a field left out of a given
    object reads [false]. *)
Definition inverted (self : NormalizedPointList) (axes : option Axes)
  : NormalizedPointList :=
  let '(x, y) :=
    match axes with
    | None => (true, true)
    | Some a => (default false (x a), default false (y a))
    end in
  new (map (fun '(vx, vy) =>
              (if x then num_sub num_one vx else vx,
               if y then num_sub num_one vy else vy))
           (normalized self)).

Definition mul (self : NormalizedPointList) (dimensions : Dimensions num)
  : list CoordinateTuple :=
  map (fun '(x, y) => (num_mul x (width dimensions), num_mul y (height dimensions)))
      (normalized self).

Definition toSpace (self : NormalizedPointList) (space : Rectangle num)
  : list CoordinateTuple :=
  map (fun '(x, y) =>
         (num_add (num_mul x (rwidth space)) (rx space),
          num_add (num_mul y (rheight space)) (ry space)))
      (normalized self).

(** The call [inverted({ x: true })]. *)
Definition axis_x : option Axes := Some {| x := Some true; y := None |}.

(** *** Objects and references

    A [NormalizedPointList] instance is an object: callers hold references
    to it and to its [normalized] array.  The store maps a reference to the
    array it currently holds; [new] allocates. *)
Definition alloc (σ : gmap positive (list CoordinateTuple))
  (points : list CoordinateTuple)
  : positive * gmap positive (list CoordinateTuple) :=
  let r := fresh (dom σ) in (r, <[r := points]> σ).

(** [receiver.inverted(axes)] on the store: reads the receiver's array, maps
    it into a new array and wraps that in a new object. *)
Definition inverted_at (σ : gmap positive (list CoordinateTuple))
  (receiver : positive) (axes : option Axes)
  : option (positive * gmap positive (list CoordinateTuple)) :=
  points ← σ !! receiver;
  Some (alloc σ (normalized (inverted (new points) axes))).

End Points.
Arguments NormalizedPointList num : clear implicits.
Arguments CoordinateTuple num : clear implicits.
Abbreviation store num := (gmap positive (list (CoordinateTuple num))).
End ChatbubblePoints.

(* ===================================================================== *)
(** ** The editor: crop rectangle                                         *)
(* ===================================================================== *)

Module ChatbubbleConfiguration.
Section Crop.
Context {num : Type} `{JsNumber num}.

(** [getCroppedRectangle(space: Rectangle | Dimensions)], [corners] being
    [this.crop.getState().corners].  The first two scaled points are [a] and
    [b]; fewer than two make the destructuring read [undefined[0]]. *)
Definition getCroppedRectangle
  (corners : ChatbubblePoints.NormalizedPointList num)
  (space : Rectangle num + Dimensions num) : Completion (Rectangle num) :=
  let scaled :=
    match space with
    | inl space => ChatbubblePoints.toSpace corners space
    | inr scale => ChatbubblePoints.mul corners scale
    end in
  match scaled with
  | a :: b :: _ =>
      let '(xlo, xhi) := if num_ltb a.1 b.1 then (a.1, b.1) else (b.1, a.1) in
      let w := num_sub xhi xlo in
      let '(ylo, yhi) := if num_ltb a.2 b.2 then (a.2, b.2) else (b.2, a.2) in
      let h := num_sub yhi ylo in
      Return {| rx := xlo; ry := ylo; rwidth := w; rheight := h |}
  | _ => Throw "TypeError"
  end.

End Crop.
End ChatbubbleConfiguration.

(* ===================================================================== *)
(** ** Node's [path.resolve] (POSIX)                                      *)
(* ===================================================================== *)

Module Path.

Definition is_sep (c : ascii) : bool := Ascii.eqb c "/".

Definition isAbsolute (path : string) : bool :=
  match path with
  | String c _ => is_sep c
  | EmptyString => false
  end.

(** The segments between the separators. *)
Fixpoint split (path : string) : list string :=
  match path with
  | EmptyString => [EmptyString]
  | String c path' =>
      if is_sep c then EmptyString :: split path'
      else
        match split path' with
        | seg :: segs => String c seg :: segs
        | [] => [String c EmptyString]
        end
  end.

(** One step of [normalizeString] for an absolute path, on the stack of
    segments kept so far (latest first): empty and [.] segments are skipped,
    [..] drops the latest segment and is itself dropped at the root. *)
Definition push_segment (stack : list string) (seg : string) : list string :=
  if String.eqb seg "" || String.eqb seg "." then stack
  else if String.eqb seg ".." then tail stack
  else seg :: stack.

Definition normalize (path : string) : string :=
  String.concat "/" (rev (fold_left push_segment (split path) [])).

(** The loop of [resolve], from the last argument to the first and then the
    working directory, until an absolute path has been prepended. *)
Fixpoint resolve_loop (cwd : string) (right_to_left : list string)
  (resolvedPath : string) : string :=
  match right_to_left with
  | [] => cwd ++ "/" ++ resolvedPath
  | path :: rest =>
      if String.eqb path "" then resolve_loop cwd rest resolvedPath
      else
        let resolvedPath := path ++ "/" ++ resolvedPath in
        if isAbsolute path then resolvedPath
        else resolve_loop cwd rest resolvedPath
  end.

(** [path.resolve(...args)] in a process whose working directory is the
    absolute path [cwd]. *)
Definition resolve (cwd : string) (args : list string) : string :=
  "/" ++ normalize (resolve_loop cwd (rev args) "").

(** A plain file name: one non-empty segment other than [.] and [..]. *)
Definition is_segment (name : string) : bool :=
  negb (String.eqb name "") && negb (String.eqb name ".")
  && negb (String.eqb name "..")
  && forallb (fun c => negb (is_sep c)) (list_ascii_of_string name).

End Path.

(* ===================================================================== *)
(** ** native.ts: [Temporary.FileManager]                                 *)
(* ===================================================================== *)

(** What the manager and the bridges ask of the file system. *)
Inductive FsAction : Type :=
| Mkdir (path : string)
| Open (path : string)
| Rm (path : string)
| Listen (path : string).

Module Temporary.

Inductive Occasion : Type := ON_EXIT_OR_EXPLICIT | ONLY_EXIT | ONLY_EXPLICIT | NEVER.
Inductive Ascension : Type := NONE | SELF.
Inductive Inlcude : Type := ALL_FILES | ALL | MANAGED_FILES.

Record Cleanup : Type := {
  ascension : Ascension;
  when : Occasion;
  include : Inlcude;
}.

Definition Cleanup_DEFAULT : Cleanup :=
  {| ascension := SELF; include := MANAGED_FILES; when := ON_EXIT_OR_EXPLICIT |}.

Inductive Status : Type := PENDING | READY.

(** [fs.Dirent], as far as the manager looks at it. *)
Record Dirent : Type := {
  parentPath : string;
  name : string;
  isDirectory : bool;
}.

(** The [filter] argument: the class's own [FILTER_INCLUDE_ALL] function
    object, or a caller's function. *)
Inductive Filter : Type :=
| FILTER_INCLUDE_ALL
| Custom (f : string -> Dirent -> bool).

Definition call_filter (filter : Filter) (path : string) (entry : Dirent) : bool :=
  match filter with
  | FILTER_INCLUDE_ALL => true
  | Custom f => f path entry
  end.

(** The fields of an instance.  [counter] is a JS number holding an integer;
    it is exact up to 2^53, far more calls than a process makes, and is read
    here as an unbounded integer. *)
Record FileManager : Type := {
  config_cleanup : Cleanup;
  path : string;
  registered : gset string;
  status : Status;
  counter : Z;
}.

(** [where[2]]: left out, a boolean, or an options object. *)
Inductive MakeOption : Type := MakeUndefined | MakeBoolean (b : bool) | MakeOptions.

(** The constructor, [path] being [config.path] already resolved.  Unless
    [where[2]] is [false] the directory is made (recursively, so an existing
    one is kept) and the manager becomes ready when that succeeds. *)
Definition constructor (path : string) (cleanup : Cleanup) (make : MakeOption)
  (mkdir_succeeds : bool) : FileManager * list FsAction :=
  let make :=
    match make with
    | MakeBoolean false => false
    | _ => true
    end in
  if make then
    ({| config_cleanup := cleanup; path := path; registered := ∅;
        status := if mkdir_succeeds then READY else PENDING; counter := 0 |},
     [Mkdir path])
  else
    ({| config_cleanup := cleanup; path := path; registered := ∅;
        status := READY; counter := 0 |}, []).

Section WithCwd.
Variable cwd : string.

Definition entry_path (entry : Dirent) : string :=
  Path.resolve cwd [parentPath entry; name entry].

(** [getPathsToDelete(entries, filter = FILTER_INCLUDE_ALL)]. *)
Definition getPathsToDelete (self : FileManager) (entries : list Dirent)
  (filter : option Filter) : list string :=
  let filter := call_filter (default FILTER_INCLUDE_ALL filter) in
  match include (config_cleanup self) with
  | ALL =>
      omap (fun entry =>
              let p := entry_path entry in
              if filter p entry then Some p else None) entries
  | ALL_FILES =>
      omap (fun entry =>
              let p := entry_path entry in
              if isDirectory entry then None
              else if filter p entry then Some p else None) entries
  | MANAGED_FILES =>
      omap (fun entry =>
              let p := entry_path entry in
              if isDirectory entry || negb (bool_decide (p ∈ registered self)) then None
              else if filter p entry then Some p else None) entries
  end.

(** [cleanup(filter?)]: the removals it starts (each [fsp.rm] is recursive).
    [exiting] is the static flag, [readdir] what listing the directory gives;
    a failure anywhere is caught and logged. *)
Definition cleanup (exiting : bool) (self : FileManager)
  (readdir : Completion (list Dirent)) (filter : option Filter) : list FsAction :=
  match status self with
  | PENDING => []
  | READY =>
      let c := config_cleanup self in
      match when c, exiting with
      | NEVER, _ => []
      | ONLY_EXIT, false => []
      | _, _ =>
          match ascension c, include c, filter with
          | SELF, ALL, Some FILTER_INCLUDE_ALL => [Rm (path self)]
          | _, _, _ =>
              match readdir with
              | Throw _ => []
              | Return entries =>
                  let paths := getPathsToDelete self entries filter in
                  match ascension c with
                  | SELF =>
                      if (length entries =? length paths)%nat then [Rm (path self)]
                      else map Rm paths
                  | NONE => map Rm paths
                  end
              end
          end
      end
  end.

(** The argument object of [unique]. *)
Record UniqueOptions : Type := { prefix : option string; suffix : option string }.

(** [if (s)] on an optional string: [undefined] and the empty string are
    falsy. *)
Definition truthy (s : option string) : bool :=
  match s with
  | Some s => negb (String.eqb s "")
  | None => false
  end.

Definition unique (self : FileManager) (options : option UniqueOptions)
  : string * FileManager :=
  let out := EmptyString in
  let out := if truthy (options ≫= prefix) then default out (options ≫= prefix) else out in
  let out := out ++ Js.String_of_Z (counter self) in
  let self :=
    {| config_cleanup := config_cleanup self; path := path self;
       registered := registered self; status := status self;
       counter := counter self + 1 |} in
  let out := if truthy (options ≫= suffix) then out ++ default "" (options ≫= suffix) else out in
  (Path.resolve cwd [path self; out], self).

Definition register (self : FileManager) (path' : string) : FileManager :=
  {| config_cleanup := config_cleanup self; path := path self;
     registered := {[ path' ]} ∪ registered self; status := status self;
     counter := counter self |}.

Definition unregister (self : FileManager) (path' : string) : FileManager :=
  {| config_cleanup := config_cleanup self; path := path self;
     registered := registered self ∖ {[ path' ]}; status := status self;
     counter := counter self |}.

(** [create(prefix?, suffix?)]: the path is generated first, then the
    directory is awaited ([initialized] rejects when it could not be made)
    and the file opened for writing; only an opened file is registered. *)
Definition create (self : FileManager) (prefix suffix : option string)
  (open_succeeds : bool) : Completion string * FileManager * list FsAction :=
  let '(path', self) := unique self (Some {| prefix := prefix; suffix := suffix |}) in
  match status self with
  | PENDING => (Throw "mkdir", self, [])
  | READY =>
      if open_succeeds then (Return path', register self path', [Open path'])
      else (Throw "open", self, [Open path'])
  end.

(** File-name parts that cannot run into the counter's digits or leave the
    directory: a prefix without a decimal digit or separator, a suffix
    without a separator that does not begin with a decimal digit. *)
Definition plain_prefix (prefix : option string) : bool :=
  forallb (fun c => negb (Js.is_digit c) && negb (Path.is_sep c))
    (list_ascii_of_string (default "" prefix)).

Definition plain_suffix (suffix : option string) : bool :=
  match default "" suffix with
  | EmptyString => true
  | String c _ as s =>
      negb (Js.is_digit c)
      && forallb (fun c => negb (Path.is_sep c)) (list_ascii_of_string s)
  end.

(** [create] called once per entry of [calls], every file being opened. *)
Fixpoint create_all (self : FileManager)
  (calls : list (option string * option string)) : list string * FileManager :=
  match calls with
  | [] => ([], self)
  | (prefix, suffix) :: calls' =>
      let '(result, self, _) := create self prefix suffix true in
      let '(paths, self) := create_all self calls' in
      (match result with Return p => p :: paths | Throw _ => paths end, self)
  end.

End WithCwd.
End Temporary.

(* ===================================================================== *)
(** ** native.ts: the socket bridge                                       *)
(* ===================================================================== *)

Module SocketPipe.

Inductive SocketStatus : Type := PENDING | OPEN | CLOSED.

(** A bridge and the server it owns: [listening] from [server.listen] until
    [server.close]. *)
Record t : Type := {
  path : string;
  status : SocketStatus;
  listening : bool;
}.

Section WithProvider.
Variable cwd : string.

(** [new SocketPipe(stream, then)] on the manager [provider]. *)
Definition constructor (provider : Temporary.FileManager)
  : t * Temporary.FileManager * list FsAction :=
  let '(path, provider) :=
    Temporary.unique cwd provider
      (Some {| Temporary.prefix := Some "socket."; Temporary.suffix := None |}) in
  ({| path := path; status := PENDING; listening := true |}, provider, [Listen path]).

(** What happens to a bridge: a peer connects to the server, or the stream
    emits ["finish"]. *)
Inductive Event : Type := connection | finish.

Definition on (event : Event) (self : t) (provider : Temporary.FileManager)
  : t * Temporary.FileManager :=
  match event with
  | connection =>
      if listening self then
        let provider := Temporary.register provider (path self) in
        ({| path := path self; status := OPEN; listening := listening self |}, provider)
      else (self, provider)
  | finish =>
      ({| path := path self; status := CLOSED; listening := false |}, provider)
  end.

Definition run (events : list Event) (self : t) (provider : Temporary.FileManager)
  : t * Temporary.FileManager :=
  fold_left (fun '(self, provider) event => on event self provider) events
    (self, provider).

End WithProvider.
End SocketPipe.

(* ===================================================================== *)
(** ** native.ts: I/O strategy selector and channels                      *)
(* ===================================================================== *)

Definition Bytes : Type := list Byte.byte.

(** [ChatbubbleFFmpegOptions].  The caller rounds the rectangles with
    [Math.trunc], so their fields are integers. *)
Record FileInput : Type := { mime : string; data : Bytes }.

Record Target : Type := {
  target_type : ChatbubbleExportFormat;
  crop : option (Rectangle Z);
  quality : option Z;
}.

Record Overlay : Type := {
  transparent : bool;
  bounds : Rectangle Z;
  pixels : Bytes;
}.

Record ChatbubbleFFmpegOptions : Type := {
  file : FileInput;
  target : Target;
  overlay : Overlay;
}.

Module IO.

Inductive Method : Type := Streaming | TemporaryFiles.

Record Paths : Type := { main : string; bubble : string; out : string }.

Record t : Type := {
  method : Method;
  paths : Paths;
  chunks : option (list Bytes);
}.

Definition choose (inputMime : string) (inputBytes : Z)
  (exportType : ChatbubbleExportFormat) : Method :=
  if String.eqb inputMime (format_mime GIF)
     || (Js.startsWith inputMime "video" && format_eqb exportType GIF)
     || format_eqb exportType MP4
     || format_eqb exportType WEBM
  then TemporaryFiles
  else Streaming.

Section Channels.
Variable cwd : string.

(** [FFmpegSocket]'s [url]. *)
Definition url (socket : SocketPipe.t) : string := "unix:" ++ SocketPipe.path socket.

(** [streaming(file, overlay)]: three bridges on [fftemp]. *)
Definition streaming (fftemp : Temporary.FileManager)
  : t * Temporary.FileManager * list FsAction :=
  let '(main, fftemp, a1) := SocketPipe.constructor cwd fftemp in
  let '(bubble, fftemp, a2) := SocketPipe.constructor cwd fftemp in
  let '(out, fftemp, a3) := SocketPipe.constructor cwd fftemp in
  ({| method := Streaming;
      paths := {| main := url main; bubble := url bubble; out := url out |};
      chunks := Some [] |},
   fftemp, (a1 ++ a2 ++ a3)%list).

(** How one spool file fares in [mk]: it is opened, written and closed; it
    is opened but the write or the close fails; or it cannot be opened. *)
Inductive Spool : Type := Stored | FailsOnceOpen | NotOpened.

(** [mk(prefix, content)] inside [files]: [fftemp.create(prefix)], then the
    write and the close on the handle. *)
Definition mk (fftemp : Temporary.FileManager) (prefix : string) (fares : Spool)
  : Completion string * Temporary.FileManager * list FsAction :=
  let '(handle, fftemp, actions) :=
    Temporary.create cwd fftemp (Some prefix) None
      (match fares with NotOpened => false | _ => true end) in
  (path ← handle;
   match fares with
   | FailsOnceOpen => Throw "write"
   | _ => Return path
   end,
   fftemp, actions).

(** [files(file, overlay)]: three spool files made by [mk]; the three calls
    run up to their first [await] in order, so the names are generated in the
    order main, bubble, out.  Each call then goes its own way: [Promise.all]
    rejects as soon as one of them does, and the others still open and
    register their files. *)
Definition files_each (fftemp : Temporary.FileManager) (main bubble out : Spool)
  : Completion t * Temporary.FileManager * list FsAction :=
  let '(main, fftemp, a1) := mk fftemp "main" main in
  let '(bubble, fftemp, a2) := mk fftemp "bubble" bubble in
  let '(out, fftemp, a3) := mk fftemp "out" out in
  (main ← main; bubble ← bubble; out ← out;
   Return {| method := TemporaryFiles;
             paths := {| main := main; bubble := bubble; out := out |};
             chunks := None |},
   fftemp, (a1 ++ a2 ++ a3)%list).

(** [files] when the three files fare alike: each is stored, or none can be
    opened. *)
Definition files (fftemp : Temporary.FileManager) (open_succeeds : bool)
  : Completion t * Temporary.FileManager * list FsAction :=
  let fares := if open_succeeds then Stored else NotOpened in
  files_each fftemp fares fares fares.

(** [get(options)]. *)
Definition get (fftemp : Temporary.FileManager) (open_succeeds : bool)
  (options : ChatbubbleFFmpegOptions)
  : Completion t * Temporary.FileManager * list FsAction :=
  match choose (mime (file options)) (Z.of_nat (length (data (file options))))
          (target_type (target options)) with
  | Streaming =>
      let '(io, fftemp, actions) := streaming fftemp in (Return io, fftemp, actions)
  | TemporaryFiles => files fftemp open_succeeds
  end.

End Channels.
End IO.

(* ===================================================================== *)
(** ** native.ts: the encoder job                                         *)
(* ===================================================================== *)

(** [ChatbubbleFFmpegDelegationFailureKind] and what a failure carries. *)
Inductive FailureKind : Type :=
| NO_BINARY_AVAILABLE
| ERROR_FINDING_BINARY
| BAD_INPUT
| ENCODING_FAILURE
| UNKNOWN_ERROR.

Inductive ErrorDetail : Type :=
| NoDetail
| NativeError (name : string)
| ExitStatus (code : option Z) (signal : option string).

Record Failure : Type := { type : FailureKind; error : ErrorDetail }.

(** [Math.min(hi, Math.max(lo, value))]; [None] is [NaN], which both
    functions hand on. *)
Definition clamp (value : option Q) (lo hi : Q) : option Q :=
  (fun value => Qmin hi (Qmax lo value)) <$> value.

Module Regex.

(** [s] without the prefix [p], when it starts with it. *)
Fixpoint strip_prefix (p s : string) : option string :=
  match p, s with
  | EmptyString, _ => Some s
  | String a p', String b s' => if Ascii.eqb a b then strip_prefix p' s' else None
  | String _ _, EmptyString => None
  end.

(** [/out_time_us=(\d+)/]: the digits of the leftmost match. *)
Fixpoint match_out_time_us (s : string) : option string :=
  match s with
  | EmptyString => None
  | String _ s' =>
      match strip_prefix "out_time_us=" s with
      | Some rest =>
          let '(run, _) := Js.take_digits rest in
          if String.eqb run "" then match_out_time_us s' else Some run
      | None => match_out_time_us s'
      end
  end.

(** [\s] on ASCII text. *)
Definition is_space (c : ascii) : bool :=
  existsb (Ascii.eqb c) [" "; "009"; "010"; "011"; "012"; "013"]%char.

Fixpoint skip_spaces (s : string) : string :=
  match s with
  | String c s' => if is_space c then skip_spaces s' else s
  | EmptyString => EmptyString
  end.

(** [[:.\d]]. *)
Definition is_clock_char (c : ascii) : bool :=
  Ascii.eqb c ":" || Ascii.eqb c "." || Js.is_digit c.

Fixpoint take_clock (s : string) : string :=
  match s with
  | String c s' => if is_clock_char c then String c (take_clock s') else EmptyString
  | EmptyString => EmptyString
  end.

(** [/Duration:\s*([:.\d]+)/]: the capture of the leftmost match. *)
Fixpoint match_duration (s : string) : option string :=
  match s with
  | EmptyString => None
  | String _ s' =>
      match strip_prefix "Duration:" s with
      | Some rest =>
          let time := take_clock (skip_spaces rest) in
          if String.eqb time "" then match_duration s' else Some time
      | None => match_duration s'
      end
  end.

End Regex.

(** [Number(text)] for an unsigned decimal literal: digits, optionally a point
    and more digits; [None] is [NaN].  The value is the exact rational the
    literal denotes. *)
Definition Number (text : string) : option Q :=
  let '(int, rest) := Js.take_digits text in
  match rest with
  | EmptyString => inject_Z <$> Js.BigInt int
  | String "." frac =>
      if Js.all_digits frac && negb (String.eqb int "" && String.eqb frac "") then
        i ← Js.BigInt int; f ← Js.BigInt frac;
        Some (inject_Z i + inject_Z f / inject_Z (10 ^ Z.of_nat (String.length frac)))%Q
      else None
  | _ => None
  end.

Definition fixedPrecisionBigIntDivide (numerator denominator : Z) (precision : Z)
  : Completion string :=
  let shift := Nat.iter (Z.to_nat precision) (fun shift => shift * 10) 1 in
  if denominator =? 0 then Throw "RangeError: Division by zero"
  else
    let int := Z.quot numerator denominator in
    let rem := Z.rem numerator denominator in
    let ups := rem * shift in
    let dec := Js.String_of_Z (Z.quot ups denominator) in
    let pre := precision - Z.of_nat (String.length dec) in
    if negb (rem =? 0) then
      if pre <? 0 then Throw "RangeError: Invalid count value"
      else Return (Js.String_of_Z int ++ "." ++ Js.repeat_char "0" (Z.to_nat pre) ++ dec)
    else Return (Js.String_of_Z int).

Module FFmpegJob.

(** What the job emits to its listeners. *)
Inductive Emitted : Type :=
| progress (fraction : option Q)
| failure (failure : Failure)
| success (data : Bytes).

(** What the child process and its streams deliver to the job's handlers. *)
Inductive ProcessEvent : Type :=
| proc_error (name : string)
| proc_exit (code : option Z) (signal : option string)
| proc_close (code : option Z) (signal : option string)
| stdout_data (chunk : string)
| stderr_data (chunk : string).

Record t : Type := {
  io : IO.t;
  binary : string;
  args : list string;
  (** [life.signal.aborted] *)
  aborted : bool;
  (** the signal the child was killed with, [killSignal] on abort *)
  killed : option string;
  (** the child has exited and its handle is closed *)
  exited : bool;
  (** [process.exitCode]: [null] until the child exits with a code *)
  exitCode : option Z;
  (** the [waiting] promise is resolved *)
  waiting : bool;
  _progress : option Q;
  foundMainLength : option ChatbubbleFFmpegTime.t;
  foundMain : bool;
  lastChunkPortion : string;
}.


(** [new FFmpegJob({ binary, io, args })]: the process is spawned with the
    job's abort signal and [killSignal: "SIGKILL"]. *)
Definition constructor (binary : string) (io : IO.t) (args : list string) : t :=
  {| io := io; binary := binary; args := args;
     aborted := false; killed := None; exited := false; exitCode := None;
     waiting := false; _progress := Some 0%Q; foundMainLength := None; foundMain := false;
     lastChunkPortion := EmptyString |}.

Definition set_progress (self : t) (p : option Q) : t :=
  {| io := io self; binary := binary self; args := args self;
     aborted := aborted self; killed := killed self; exited := exited self;
     exitCode := exitCode self; waiting := waiting self; _progress := p;
     foundMainLength := foundMainLength self; foundMain := foundMain self;
     lastChunkPortion := lastChunkPortion self |}.

Definition set_stderr (self : t) (length : option ChatbubbleFFmpegTime.t)
  (main : bool) (portion : string) : t :=
  {| io := io self; binary := binary self; args := args self;
     aborted := aborted self; killed := killed self; exited := exited self;
     exitCode := exitCode self; waiting := waiting self; _progress := _progress self;
     foundMainLength := length; foundMain := main;
     lastChunkPortion := portion |}.

Definition set_process (self : t) (aborted' : bool) (killed' : option string)
  (exited' waiting' : bool) : t :=
  {| io := io self; binary := binary self; args := args self;
     aborted := aborted'; killed := killed'; exited := exited';
     exitCode := exitCode self; waiting := waiting'; _progress := _progress self;
     foundMainLength := foundMainLength self; foundMain := foundMain self;
     lastChunkPortion := lastChunkPortion self |}.

(** The child exits: Node records the exit code, [null] after a signal,
    before it emits ["exit"]. *)
Definition set_exit (self : t) (code : option Z) : t :=
  {| io := io self; binary := binary self; args := args self;
     aborted := aborted self; killed := killed self; exited := true;
     exitCode := code; waiting := waiting self; _progress := _progress self;
     foundMainLength := foundMainLength self; foundMain := foundMain self;
     lastChunkPortion := lastChunkPortion self |}.

(** [code === 0] on [number | null]. *)
Definition is_zero (code : option Z) : bool :=
  match code with
  | Some c => c =? 0
  | None => false
  end.

Section Handlers.
(** What [read()] gives when the output is read back. *)
Variable read : Completion Bytes.

(** The handlers registered by the constructor.  A handler that throws
    leaves the assignments made before the throw and emits nothing more. *)
Definition on (event : ProcessEvent) (self : t) : t * list Emitted :=
  match event with
  | proc_error name =>
      (self, [failure {| type := UNKNOWN_ERROR; error := NativeError name |}])
  | proc_exit code signal =>
      let self := set_exit self code in
      if negb (is_zero code)
      then (self, [failure {| type := UNKNOWN_ERROR; error := ExitStatus code signal |}])
      else (self, [])
  | proc_close code signal =>
      if is_zero code then
        if waiting self then (self, [])
        else
          (set_process self (aborted self) (killed self) (exited self) true,
           match read with
           | Return buffer => [success buffer]
           | Throw _ => []
           end)
      else (self, [failure {| type := UNKNOWN_ERROR; error := ExitStatus code signal |}])
  | stdout_data chunk =>
      match foundMainLength self with
      | None => (self, [])
      | Some length =>
          match Regex.match_out_time_us chunk with
          | None => (self, [])
          | Some micros =>
              match Js.BigInt micros with
              | None => (self, [])
              | Some micros =>
                  match fixedPrecisionBigIntDivide micros
                          (ChatbubbleFFmpegTime.microseconds length) 5 with
                  | Throw _ => (self, [])
                  | Return text =>
                      let fraction := clamp (Number text) 0 1 in
                      (set_progress self fraction, [progress fraction])
                  end
              end
          end
      end
  | stderr_data chunk =>
      let string := lastChunkPortion self ++ chunk in
      let portion := Js.slice_last 25 string in
      match foundMainLength self with
      | Some length => (set_stderr self (Some length) (foundMain self) portion, [])
      | None =>
          let main := foundMain self || Js.includes string "Input #0" in
          match Regex.match_duration string with
          | None => (set_stderr self None main portion, [])
          | Some time =>
              match ChatbubbleFFmpegTime.parse time with
              | Return length => (set_stderr self (Some length) main portion, [])
              | Throw _ => (set_stderr self None main portion, [])
              end
          end
      end
  end.

(** The events of a run, in order, with everything emitted. *)
Fixpoint run (events : list ProcessEvent) (self : t) : t * list Emitted :=
  match events with
  | [] => (self, [])
  | event :: events' =>
      let '(self, emitted) := on event self in
      let '(self, emitted') := run events' self in
      (self, (emitted ++ emitted')%list)
  end.

(** [life.abort()].  The controller fires once.  Node then kills the child
    with the [killSignal] and, if the child had not exited, emits ["error"]
    with an [AbortError] on it. *)
Definition abort (self : t) : t * list Emitted :=
  if aborted self then (self, [])
  else if exited self then
    (set_process self true (killed self) (exited self) (waiting self), [])
  else
    on (proc_error "AbortError")
       (set_process self true (Some "SIGKILL") (exited self) (waiting self)).


End Handlers.


(** The elapsed time a stdout chunk reports, as the handler reads it. *)
Definition out_time (event : ProcessEvent) : option Z :=
  match event with
  | stdout_data chunk => Regex.match_out_time_us chunk ≫= Js.BigInt
  | _ => None
  end.

Definition out_times (events : list ProcessEvent) : list Z := omap out_time events.

(** The fractions of the ["progress"] events, in emission order. *)
Definition fractions (emitted : list Emitted) : list (option Q) :=
  omap (fun e => match e with progress f => Some f | _ => None end) emitted.

(** [a <= b] on numbers; nothing compares with [NaN]. *)
Definition fraction_le (a b : option Q) : Prop :=
  match a, b with
  | Some a, Some b => (a <= b)%Q
  | _, _ => False
  end.

(** The fraction reported for [micros] elapsed of [duration]: five decimals,
    truncated, clamped. *)
Definition fraction_of (duration micros : Z) : Q :=
  Qmin 1 (Qmax 0 (inject_Z (micros * 100000 / duration) / 100000)).

(** [fraction] is what the stdout handler reports for [micros] elapsed of
    [duration]. *)
Definition reports (duration : Z) (fraction : option Q) (micros : Z) : Prop :=
  0 <= micros /\ 0 < duration /\
  exists q, fraction = Some q /\ (q == fraction_of duration micros)%Q.

(** [outputSpecificationToFfmpegArguments(type, quality)]. *)
Definition outputSpecificationToFfmpegArguments (platform : string)
  (type : ChatbubbleExportFormat) (quality : option Z) : list string :=
  match type with
  | WEBM =>
      ["-c:a"; "libvorbis"; "-c:v"; "libvpx"; "-f"; "webm"; "-auto-alt-ref"; "0";
       "-cpu-used"; "-5"; "-deadline"; "realtime"]
  | MP4 =>
      (["-c:v"]
       ++ (if String.eqb platform "darwin"
           then ["hevc_videotoolbox"; "-alpha_quality"; "1"; "-vtag"; "hvc1"; "-c:a";
                 "aac"; "-pix_fmt"; "yuva444p"; "-profile:v"; "main"; "-realtime"; "true"]
           else [])
       ++ ["-f"; "mp4"; "-movflags"; "+faststart"])%list
  | GIF => ["-f"; "gif"]
  | PNG => ["-f"; "apng"]
  end.

(** The first stage of the filter graph. *)
Definition crop_filter (crop : Rectangle Z) : string :=
  "[0]crop=" ++ Js.String_of_Z (rwidth crop) ++ ":" ++ Js.String_of_Z (rheight crop)
  ++ ":" ++ Js.String_of_Z (rx crop) ++ ":" ++ Js.String_of_Z (ry crop)
  ++ ":exact=1[cropped];".

(** [buildArguments(io, options)]; reading a field of a missing [crop] is a
    [TypeError]. *)
Definition buildArguments (platform : string) (io : IO.t)
  (options : ChatbubbleFFmpegOptions) : Completion (list string) :=
  let type := target_type (target options) in
  let overlay := overlay options in
  let img2vid :=
    Js.startsWith (mime (file options)) "image"
    && Js.startsWith (format_mime type) "video" in
  match crop (target options) with
  | None => Throw "TypeError"
  | Some crop =>
      let filter := crop_filter crop in
      let filter :=
        if transparent overlay
        then filter ++ "[1]alphaextract[trans];[cropped][trans]alphamerge[overlaid];"
        else filter ++ "[cropped][1]overlay=" ++ Js.String_of_Z (rx (bounds overlay))
               ++ ":" ++ Js.String_of_Z (ry (bounds overlay)) ++ "[overlaid];" in
      let '(filter, last) :=
        if format_eqb type GIF
        then (filter ++ "[overlaid]split=[a][b];[a]palettegen[pal];[b][pal]paletteuse=dither=sierra2_4a[paletted];",
              "paletted")
        else (filter, "overlaid") in
      Return
        (["-progress"; "-"; "-nostats"; "-y"]
         ++ (if img2vid then ["-loop"; "1"] else [])
         ++ ["-i"; IO.main (IO.paths io)]
         ++ ["-f"; "rawvideo"; "-pix_fmt"; "rgba"; "-s";
             (Js.String_of_Z (rwidth (bounds overlay)) ++ "x"
              ++ Js.String_of_Z (rheight (bounds overlay)))%string;
             "-i"; IO.bubble (IO.paths io)]
         ++ ["-filter_complex"; filter]
         ++ ["-map"; ("[" ++ last ++ "]")%string]
         ++ ["-map"; "0:a?"]
         ++ outputSpecificationToFfmpegArguments platform type (quality (target options))
         ++ (if img2vid then ["-t"; "60"] else [])
         ++ [IO.out (IO.paths io)])%list
  end.

End FFmpegJob.

(* ===================================================================== *)
(** ** native.ts: the module's job slot and its entry points              *)
(* ===================================================================== *)

Module Native.

(** The module-level state: the [job] variable and the [fftemp] manager. *)
Record State : Type := {
  job : option FFmpegJob.t;
  fftemp : Temporary.FileManager;
}.

(** What the host gives an invocation: the platform name, the working
    directory, what the lookup command printed ([Throw] when it failed,
    [None] when it printed nothing), whether spool files can be opened (the
    three of a request alike), and what reading the output back gives. *)
Record Host : Type := {
  platform : string;
  cwd : string;
  located : Completion (option string);
  open_succeeds : bool;
  read : Completion Bytes;
}.

(** [tryGetFfmpegPath()]. *)
Definition tryGetFfmpegPath (host : Host) : string + Failure :=
  match located host with
  | Return (Some binary) => inl binary
  | Return None => inr {| type := NO_BINARY_AVAILABLE; error := NoDetail |}
  | Throw name => inr {| type := ERROR_FINDING_BINARY; error := NativeError name |}
  end.

(** [FFmpegJob.for(options)]: the job with its process spawned, or the lookup
    failure; a throw is the rejection of the [async] function. *)
Definition for_ (host : Host) (fftemp : Temporary.FileManager)
  (options : ChatbubbleFFmpegOptions)
  : Completion (FFmpegJob.t + Failure) * Temporary.FileManager * list FsAction :=
  match tryGetFfmpegPath host with
  | inr err => (Return (inr err), fftemp, [])
  | inl binary =>
      let '(io, fftemp, actions) := IO.get (cwd host) fftemp (open_succeeds host) options in
      (io ← io;
       args ← FFmpegJob.buildArguments (platform host) io options;
       Return (inl (FFmpegJob.constructor binary io args)),
       fftemp, actions)
  end.

(** The outcome of one [ffmpeg] call as far as it is decided when the call
    has started its job: the previous job after [job?.life.abort()] with what
    that made it emit, and either the failure returned at once or the job
    whose first ["success"] or ["failure"] will settle the promise.  When
    [FFmpegJob.for] rejects, the assignment to [job] does not happen and the
    slot keeps the aborted job. *)
Record Started : Type := {
  previous : option (FFmpegJob.t * list FFmpegJob.Emitted);
  outcome : Completion (FFmpegJob.t + Failure);
  actions : list FsAction;
}.

Definition ffmpeg (host : Host) (state : State) (options : ChatbubbleFFmpegOptions)
  : Started * State :=
  let previous := FFmpegJob.abort (read host) <$> job state in
  let '(outcome, fftemp, actions) := for_ host (fftemp state) options in
  ({| previous := previous; outcome := outcome; actions := actions |},
   {| job := match outcome with
             | Return (inl job) => Some job
             | Return (inr _) => None
             | Throw _ => fst <$> previous
             end;
      fftemp := fftemp |}).

(** [cancelJob()]: the [job] variable keeps the aborted job. *)
Definition cancelJob (host : Host) (state : State)
  : option (list FFmpegJob.Emitted) * State :=
  match job state with
  | None => (None, state)
  | Some current =>
      let '(current, emitted) := FFmpegJob.abort (read host) current in
      (Some emitted, {| job := Some current; fftemp := fftemp state |})
  end.

(** The promise [ffmpeg] returns for a started job is settled by the first
    ["success"] or ["failure"] the job emits. *)
Fixpoint settles (emitted : list FFmpegJob.Emitted) : option (Bytes + Failure) :=
  match emitted with
  | [] => None
  | FFmpegJob.success output :: _ => Some (inl output)
  | FFmpegJob.failure failure :: _ => Some (inr failure)
  | FFmpegJob.progress _ :: emitted' => settles emitted'
  end.

End Native.

(* ===================================================================== *)
(** ** Sample inputs                                                      *)
(* ===================================================================== *)

Module Sample.

(** The plugin's manager, [vencord/chatbubble/ffmpeg] under the temp root,
    freshly made. *)
Definition fftemp : Temporary.FileManager :=
  (Temporary.constructor "/tmp/vencord/chatbubble/ffmpeg" Temporary.Cleanup_DEFAULT
     Temporary.MakeUndefined true).1.

Definition host : Native.Host :=
  {| Native.platform := "linux"; Native.cwd := "/";
     Native.located := Return (Some "/usr/bin/ffmpeg");
     Native.open_succeeds := true; Native.read := Return [] |}.


(** A video-to-GIF request whose crop rectangle has no area. *)
Definition degenerate_request : ChatbubbleFFmpegOptions :=
  {| file := {| mime := "video/mp4"; data := [] |};
     target := {| target_type := GIF;
                  crop := Some {| rx := 10; ry := 20; rwidth := 0; rheight := 30 |};
                  quality := None |};
     overlay := {| transparent := true;
                   bounds := {| rx := 10; ry := 20; rwidth := 0; rheight := 30 |};
                   pixels := [] |} |}.

(** A job running on stream channels. *)
Definition running_job : FFmpegJob.t :=
  FFmpegJob.constructor "/usr/bin/ffmpeg"
    {| IO.method := IO.Streaming;
       IO.paths := {| IO.main := "unix:/tmp/vencord/chatbubble/ffmpeg/socket.0";
                      IO.bubble := "unix:/tmp/vencord/chatbubble/ffmpeg/socket.1";
                      IO.out := "unix:/tmp/vencord/chatbubble/ffmpeg/socket.2" |};
       IO.chunks := Some [] |} [].

Definition busy : Native.State :=
  {| Native.job := Some running_job; Native.fftemp := fftemp |}.

Definition idle : Native.State :=
  {| Native.job := None; Native.fftemp := fftemp |}.

End Sample.

(* ===================================================================== *)
(** ** What a job delivers                                                *)
(* ===================================================================== *)

Module Delivery.

(** The payloads of the ["success"] events, in emission order. *)
Definition outputs (emitted : list FFmpegJob.Emitted) : list Bytes :=
  omap (fun e => match e with FFmpegJob.success output => Some output | _ => None end)
    emitted.


End Delivery.

(* ===================================================================== *)
(** ** native.ts: locating the encoder                                    *)
(* ===================================================================== *)

Module Lookup.

(** What the command printed: a JS string, as the sequence of its UTF-16 code
    units. *)
Definition CodeUnits : Type := list N.

(** The code units of a text of Latin-1 characters. *)
Definition units (text : string) : CodeUnits :=
  map N_of_ascii (list_ascii_of_string text).

(** The code units [trimStart] strips: the white space of the language (TAB,
    VT, FF, SP, NBSP, the byte order mark and the space separators) and its
    line terminators (LF, CR, LS, PS). *)
Definition is_white_space (c : N) : bool :=
  (existsb (N.eqb c)
     [9; 10; 11; 12; 13; 32; 160; 5760; 8232; 8233; 8239; 8287; 12288; 65279]
   || ((8192 <=? c) && (c <=? 8202)))%N.

Fixpoint trimStart (s : CodeUnits) : CodeUnits :=
  match s with
  | c :: s' => if is_white_space c then trimStart s' else s
  | [] => []
  end.

(** [s.indexOf(c)] for a one-unit needle; [None] is [-1]. *)
Fixpoint indexOf (c : N) (s : CodeUnits) : option nat :=
  match s with
  | [] => None
  | c' :: s' => if N.eqb c' c then Some O else S <$> indexOf c s'
  end.

(** [locateBinary(name)], [exec] being what running [which name] (or
    [where name]) gives: its standard output, or the rejection of [exec]. *)
Definition locateBinary (exec : Completion CodeUnits) : Completion (option CodeUnits) :=
  stdout ← exec;
  let output := trimStart stdout in
  if (length output =? 0)%nat then Return None
  else
    match indexOf 10 output with
    | None => Return (Some output)
    | Some EOL => Return (Some (take EOL output))
    end.

(** [isFFmpegSupported()]. *)
Definition isFFmpegSupported (host : Native.Host) : bool :=
  match Native.tryGetFfmpegPath host with
  | inl _ => true
  | inr _ => false
  end.

End Lookup.

(* ===================================================================== *)
(** ** native.ts: where a manager lives                                   *)
(* ===================================================================== *)

Module Configuration.

(** [where[0]]: another manager, a backend or directory string, or nothing. *)
Inductive Basis : Type :=
| BasisManager (manager : Temporary.FileManager)
| BasisBackend (backend : string)
| BasisNullish.

Definition NODE_DETERMINED : string := "<node-determined>".

(** [resolveBackend(backend)], [tmpdir] being [os.tmpdir()]: every string but
    the node-determined marker stands for itself. *)
Definition resolveBackend (tmpdir backend : string) : string :=
  if String.eqb backend NODE_DETERMINED then tmpdir else backend.

(** The [path] getter of a configuration. *)
Definition path (cwd tmpdir : string) (basis : Basis) (scope : string) : string :=
  Path.resolve cwd
    [match basis with
     | BasisManager manager => Temporary.path manager
     | BasisBackend backend => resolveBackend tmpdir backend
     | BasisNullish => resolveBackend tmpdir NODE_DETERMINED
     end;
     scope].

(** [new FileManager({ where: [basis, scope] })]: the default cleanup policy,
    the directory made ([made] tells whether that succeeded). *)
Definition scoped (cwd tmpdir : string) (basis : Basis) (scope : string)
  (made : bool) : Temporary.FileManager :=
  (Temporary.constructor (path cwd tmpdir basis scope) Temporary.Cleanup_DEFAULT
     Temporary.MakeUndefined made).1.

(** The managers the module creates: [Vencord.Manager],
    [Vencord.Plugins.Chatbubblification] and [fftemp]. *)
Definition Vencord_Manager (cwd tmpdir : string) (made : bool)
  : Temporary.FileManager :=
  scoped cwd tmpdir BasisNullish "vencord" made.

Definition Chatbubblification (cwd tmpdir : string) (made made' : bool)
  : Temporary.FileManager :=
  scoped cwd tmpdir (BasisManager (Vencord_Manager cwd tmpdir made)) "chatbubble" made'.

Definition fftemp (cwd tmpdir : string) (made made' made'' : bool)
  : Temporary.FileManager :=
  scoped cwd tmpdir (BasisManager (Chatbubblification cwd tmpdir made made')) "ffmpeg"
    made''.

End Configuration.

(* ===================================================================== *)
(** ** The lifecycle order of a bridge                                    *)
(* ===================================================================== *)

Module SocketOrder.

(** [PENDING => OPEN => CLOSED], the pattern the [status] getter documents. *)
Definition precedes (a b : SocketPipe.SocketStatus) : bool :=
  match a, b with
  | SocketPipe.PENDING, _ => true
  | SocketPipe.OPEN, SocketPipe.PENDING => false
  | SocketPipe.OPEN, _ => true
  | SocketPipe.CLOSED, SocketPipe.CLOSED => true
  | SocketPipe.CLOSED, _ => false
  end.

End SocketOrder.

(* ===================================================================== *)
(** ** The editor: export                                                 *)
(* ===================================================================== *)

Module Editor.

(** The three ways [Chatbubble.export] can go: drawn by the canvas, refused
    because the encoder is needed and missing, or handed to the encoder. *)
Inductive Route : Type := ByCanvas | NoEncoder | ByEncoder.

Definition export_route (hasFFmpeg : bool) (fileType : string)
  (format : ChatbubbleExportFormat) : Route :=
  let needsFFmpeg :=
    negb (isChatbubbleExportFormatSupportedWithoutFFmpeg format)
    || Js.startsWith fileType "video" in
  if negb needsFFmpeg && negb (hasFFmpeg && format_eqb format GIF) then ByCanvas
  else if negb hasFFmpeg then NoEncoder
  else ByEncoder.

Inductive DrawingMode : Type := Preview | Final.

(** [getOffsetCanvasSpace()] of a renderer on a canvas of size [canvas]. *)
Definition getOffsetCanvasSpace (mode : DrawingMode) (canvas : Dimensions float)
  (corners : ChatbubblePoints.NormalizedPointList float)
  (uncroppedResolution : Dimensions float) : Completion (Rectangle float) :=
  match mode with
  | Preview =>
      Return {| rwidth := width canvas; rheight := height canvas;
                rx := 0%float; ry := 0%float |}
  | Final =>
      cropped ← ChatbubbleConfiguration.getCroppedRectangle corners
                  (inr uncroppedResolution);
      Return {| rwidth := width uncroppedResolution;
                rheight := height uncroppedResolution;
                rx := (- rx cropped)%float; ry := (- ry cropped)%float |}
  end.

Section Shapes.
Context {num : Type} `{JsNumber num}.

(** [move(shapeIndex, amount)] of the shapes store, on the list of the
    shapes' point lists: the shape is cloned with translated points and the
    list copied with the clone in its place.  An index without a shape makes
    [shape.cloneShallow()] a [TypeError]. *)
Definition move (shapes : list (ChatbubblePoints.NormalizedPointList num))
  (shapeIndex : Z) (amount : num * num)
  : Completion (list (ChatbubblePoints.NormalizedPointList num)) :=
  match (if shapeIndex <? 0 then None else shapes !! Z.to_nat shapeIndex) with
  | None => Throw "TypeError"
  | Some shape =>
      let clone :=
        ChatbubblePoints.new
          (map (fun point => (num_add point.1 amount.1, num_add point.2 amount.2))
               (ChatbubblePoints.normalized shape)) in
      Return (<[Z.to_nat shapeIndex := clone]> shapes)
  end.

(** [invert(details)] of the shapes store, every shape of the list being a
    polygon (a Bezier curve is one). *)
Definition invert (shapes : list (ChatbubblePoints.NormalizedPointList num))
  (details : option ChatbubblePoints.Axes)
  : list (ChatbubblePoints.NormalizedPointList num) :=
  map (fun shape => ChatbubblePoints.inverted shape details) shapes.

End Shapes.
End Editor.

(* ===================================================================== *)
(** * Theorems                                                            *)
(* ===================================================================== *)

Section JsStrings.
Import Js.

Lemma string_app_assoc (a b c : string) : (a ++ b) ++ c = a ++ (b ++ c).
Proof. induction a as [|x a IH]; simpl; [reflexivity | now rewrite IH]. Qed.

Lemma one_char_app (c : ascii) (x : string) : String c EmptyString ++ x = String c x.
Proof. reflexivity. Qed.

Lemma all_digits_app (a b : string) :
  all_digits (a ++ b) = all_digits a && all_digits b.
Proof.
  induction a as [|x a IH]; simpl; [reflexivity|].
  rewrite IH. now rewrite andb_assoc.
Qed.

Lemma all_digits_uint (d : Decimal.uint) :
  all_digits (NilEmpty.string_of_uint d) = true.
Proof. induction d; simpl; auto. Qed.

Lemma String_of_Z_nonneg (z : Z) :
  0 <= z -> String_of_Z z = NilEmpty.string_of_uint (N.to_uint (Z.to_N z)).
Proof. destruct z; intros H; try reflexivity. lia. Qed.

Lemma String_of_Z_digits (z : Z) : 0 <= z -> all_digits (String_of_Z z) = true.
Proof. intros H. rewrite String_of_Z_nonneg by assumption. apply all_digits_uint. Qed.

Lemma String_of_Z_nonempty (z : Z) : String_of_Z z <> EmptyString.
Proof.
  destruct z as [|p|p]; unfold String_of_Z; simpl; try discriminate.
  pose proof (DecimalPos.Unsigned.to_uint_nonnil p) as Hn.
  destruct (Pos.to_uint p); simpl; congruence.
Qed.

Lemma BigInt_String_of_Z (z : Z) : 0 <= z -> BigInt (String_of_Z z) = Some z.
Proof.
  intros H. rewrite String_of_Z_nonneg by assumption.
  unfold BigInt. rewrite NilEmpty.usu. simpl. f_equal.
  unfold Z.of_uint. change (Pos.of_uint ?d) with (N.of_uint d).
  rewrite DecimalN.Unsigned.of_to. lia.
Qed.

Lemma BigInt_leading_zero (s : string) : BigInt (String "0" s) = BigInt s.
Proof.
  unfold BigInt. simpl. destruct (NilEmpty.uint_of_string s); reflexivity.
Qed.

Lemma BigInt_repeat_zero (n : nat) (s : string) :
  BigInt (repeat_char "0" n ++ s) = BigInt s.
Proof. induction n as [|n IH]; simpl; [reflexivity|]. now rewrite BigInt_leading_zero. Qed.

Lemma BigInt_padStart (n : nat) (s : string) : BigInt (padStart n "0" s) = BigInt s.
Proof. apply BigInt_repeat_zero. Qed.

Lemma all_digits_repeat_zero (n : nat) : all_digits (repeat_char "0" n) = true.
Proof. induction n; simpl; auto. Qed.

Lemma padStart_digits (n : nat) (s : string) :
  all_digits s = true -> all_digits (padStart n "0" s) = true.
Proof.
  intros H. unfold padStart. rewrite all_digits_app, all_digits_repeat_zero. exact H.
Qed.

Lemma padStart_nonempty (n : nat) (c : ascii) (s : string) :
  s <> EmptyString -> padStart n c s <> EmptyString.
Proof.
  unfold padStart. destruct (repeat_char c (n - String.length s)); simpl;
    [auto | discriminate].
Qed.

(** A run of digits is one span; a run followed by a non-digit is cut
    there. *)
Lemma digit_spans_run (d : string) :
  d <> EmptyString -> all_digits d = true -> digit_spans d = [d].
Proof.
  induction d as [|c d IH]; [congruence|].
  intros _ H. simpl in H. apply andb_prop in H as [Hc Hd].
  cbn [digit_spans]. rewrite Hc.
  destruct d as [|c' d']; [reflexivity|].
  assert (Hc' : is_digit c' = true) by (simpl in Hd; now apply andb_prop in Hd).
  rewrite Hc'. rewrite IH by (congruence || assumption). reflexivity.
Qed.

Lemma digit_spans_cut (d : string) (sep : ascii) (rest : string) :
  d <> EmptyString -> all_digits d = true -> is_digit sep = false ->
  digit_spans (d ++ String sep rest) = d :: digit_spans rest.
Proof.
  induction d as [|c d IH]; [congruence|].
  intros _ H Hsep. simpl in H. apply andb_prop in H as [Hc Hd].
  destruct d as [|c' d'].
  - simpl. rewrite Hc, Hsep. reflexivity.
  - assert (Hc' : is_digit c' = true) by (simpl in Hd; now apply andb_prop in Hd).
    assert (IH' := IH ltac:(congruence) Hd Hsep).
    simpl in IH' |- *. rewrite Hc, Hc'. rewrite Hc' in IH'.
    rewrite IH'. reflexivity.
Qed.

End JsStrings.

Section TimeCodec.
Import Js ChatbubbleFFmpegTime.

Lemma split_parts_nonneg (t : Z) :
  0 <= t ->
  split_parts t =
    (t / 86400000000,
     [t / 3600000000 mod 24; t / 60000000 mod 60; t / 1000000 mod 60; t mod 1000000]).
Proof.
  intros Ht. unfold split_parts, MAGNITUDES. cbn [fold_left].
  assert (H1 : 0 <= t / 1000000) by (apply Z.div_pos; lia).
  assert (H2 : 0 <= t / 1000000 / 60) by (apply Z.div_pos; lia).
  assert (H3 : 0 <= t / 1000000 / 60 / 60) by (apply Z.div_pos; lia).
  rewrite !(Z.quot_div_nonneg t), !(Z.rem_mod_nonneg t) by lia.
  rewrite !(Z.quot_div_nonneg (t / 1000000)), !(Z.rem_mod_nonneg (t / 1000000)) by lia.
  rewrite !(Z.quot_div_nonneg (t / 1000000 / 60)),
    !(Z.rem_mod_nonneg (t / 1000000 / 60)) by lia.
  rewrite !(Z.quot_div_nonneg (t / 1000000 / 60 / 60)),
    !(Z.rem_mod_nonneg (t / 1000000 / 60 / 60)) by lia.
  rewrite !Zdiv.Zdiv_Zdiv by lia. reflexivity.
Qed.

Lemma pad2_digits (z : Z) : 0 <= z -> all_digits (pad2 z) = true.
Proof. intros H. apply padStart_digits, String_of_Z_digits, H. Qed.

Lemma pad2_nonempty (z : Z) : pad2 z <> EmptyString.
Proof. apply padStart_nonempty, String_of_Z_nonempty. Qed.

Lemma BigInt_pad2 (z : Z) : 0 <= z -> BigInt (pad2 z) = Some z.
Proof. intros H. unfold pad2. rewrite BigInt_padStart. now apply BigInt_String_of_Z. Qed.

(** The text [toString] builds is cut back by [/\d+/g] into its four
    fields. *)
Lemma digit_spans_clock (h m s us : Z) :
  0 <= h -> 0 <= m -> 0 <= s -> 0 <= us ->
  digit_spans (String.concat ":" (map pad2 [h; m; s]) ++ "." ++ pad2 us)
  = [pad2 h; pad2 m; pad2 s; pad2 us].
Proof.
  intros Hh Hm Hs Hus. cbn [map String.concat].
  rewrite !string_app_assoc.
  rewrite !one_char_app.
  rewrite !digit_spans_cut
    by (first [reflexivity | apply pad2_nonempty | now apply pad2_digits]).
  rewrite digit_spans_run by (first [apply pad2_nonempty | now apply pad2_digits]).
  reflexivity.
Qed.

End TimeCodec.

(** C10. Formatting a duration below 24 hours and parsing the text back gives
    the same microsecond count, by integer arithmetic only; from 24 hours on
    [toString] throws instead of returning a string. *)
Theorem time_roundtrip_below_a_day (t : Z) :
  0 <= t ->
  (t < 86400000000 ->
   exists text,
     ChatbubbleFFmpegTime.toString (ChatbubbleFFmpegTime.new t) = Return text /\
     ChatbubbleFFmpegTime.parse text = Return (ChatbubbleFFmpegTime.new t)) /\
  (86400000000 <= t ->
   ChatbubbleFFmpegTime.toString (ChatbubbleFFmpegTime.new t) = Throw "Too long!").
Proof.
  intros Ht. unfold ChatbubbleFFmpegTime.toString. cbn [ChatbubbleFFmpegTime.microseconds].
  rewrite split_parts_nonneg by assumption. split.
  - intros Hlt. rewrite Z.div_small by lia. cbn [Z.eqb negb List.last List.removelast].
    eexists. split; [reflexivity|].
    pose proof (Z.mod_pos_bound (t / 3600000000) 24 ltac:(lia)) as Hh.
    pose proof (Z.mod_pos_bound (t / 60000000) 60 ltac:(lia)) as Hm.
    pose proof (Z.mod_pos_bound (t / 1000000) 60 ltac:(lia)) as Hs.
    pose proof (Z.mod_pos_bound t 1000000 ltac:(lia)) as Hus.
    unfold ChatbubbleFFmpegTime.parse.
    rewrite digit_spans_clock by lia.
    cbn [ChatbubbleFFmpegTime.parse_spans].
    rewrite !BigInt_pad2 by lia.
    cbn. do 2 f_equal.
    change (ChatbubbleFFmpegTime.magnitude_at (Z.of_nat 4 - 1 - 1)) with 60.
    change (ChatbubbleFFmpegTime.magnitude_at (Z.of_nat 4 - 1 - 1 - 1)) with 60.
    change (ChatbubbleFFmpegTime.magnitude_at (Z.of_nat 4 - 1 - 1 - 1 - 1)) with 1000000.
    change (ChatbubbleFFmpegTime.magnitude_at (Z.of_nat 4 - 1 - 1 - 1 - 1 - 1)) with 1.
    pose proof (Z.div_mod t 1000000 ltac:(lia)).
    pose proof (Z.div_mod (t / 1000000) 60 ltac:(lia)).
    pose proof (Z.div_mod (t / 60000000) 60 ltac:(lia)).
    pose proof (Z.div_mod (t / 3600000000) 24 ltac:(lia)).
    assert (t / 60000000 = t / 1000000 / 60) by (rewrite Zdiv.Zdiv_Zdiv by lia; reflexivity).
    assert (t / 3600000000 = t / 60000000 / 60) by (rewrite Zdiv.Zdiv_Zdiv by lia; reflexivity).
    assert (t / 3600000000 / 24 = 0)
      by (rewrite Zdiv.Zdiv_Zdiv by lia; apply Z.div_small; lia).
    lia.
  - intros Hge.
    assert (0 < t / 86400000000) by (apply Z.div_str_pos; lia).
    destruct (t / 86400000000 =? 0) eqn:E; [apply Z.eqb_eq in E; lia | reflexivity].
Qed.

Lemma time_roundtrip_below_a_day_witness :
  (exists text,
     ChatbubbleFFmpegTime.toString (ChatbubbleFFmpegTime.new 3723000005) = Return text /\
     ChatbubbleFFmpegTime.parse text = Return (ChatbubbleFFmpegTime.new 3723000005)) /\
  ChatbubbleFFmpegTime.toString (ChatbubbleFFmpegTime.new 86400000000) = Throw "Too long!".
Proof.
  split.
  - apply (time_roundtrip_below_a_day 3723000005); lia.
  - apply (time_roundtrip_below_a_day 86400000000); lia.
Defined.

Example toString_sample :
  ChatbubbleFFmpegTime.toString (ChatbubbleFFmpegTime.new 3723000005)
  = Return "01:02:03.05".
Proof. reflexivity. Qed.

Example parse_sample :
  ChatbubbleFFmpegTime.parse "01:02:03.05"
  = Return (ChatbubbleFFmpegTime.new 3723000005).
Proof. reflexivity. Qed.

(* --------------------------------------------------------------------- *)
(** ** I/O strategy selector                                              *)
(* --------------------------------------------------------------------- *)

(** C5. [choose] returns the temp-file strategy exactly when the input is
    GIF, or the input is video and the output is GIF, or the output is MP4
    or WEBM, and the streaming strategy in every other case; a GIF input gives
    temp files for every output, PNG to PNG streams. *)
Theorem choose_temporary_files_iff (inputMime : string) (inputBytes : Z)
  (exportType : ChatbubbleExportFormat) :
  let temp :=
    inputMime = "image/gif"
    \/ (Js.startsWith inputMime "video" = true /\ exportType = GIF)
    \/ exportType = MP4
    \/ exportType = WEBM in
  (IO.choose inputMime inputBytes exportType = IO.TemporaryFiles <-> temp) /\
  (IO.choose inputMime inputBytes exportType = IO.Streaming <-> ~ temp) /\
  (forall out, IO.choose "image/gif" inputBytes out = IO.TemporaryFiles) /\
  IO.choose "image/png" inputBytes PNG = IO.Streaming.
Proof.
  cbv zeta. unfold IO.choose. change (format_mime GIF) with "image/gif".
  split; [|split; [|split]].
  - destruct (String.eqb_spec inputMime "image/gif") as [Hm|Hm];
      destruct (Js.startsWith inputMime "video") eqn:Hv;
      destruct exportType; cbn; intuition congruence.
  - destruct (String.eqb_spec inputMime "image/gif") as [Hm|Hm];
      destruct (Js.startsWith inputMime "video") eqn:Hv;
      destruct exportType; cbn; intuition congruence.
  - reflexivity.
  - reflexivity.
Qed.

(* --------------------------------------------------------------------- *)
(** ** Binary64 arithmetic: order and subtraction                         *)
(* --------------------------------------------------------------------- *)

Section Binary64.


Lemma SFltb_asym (x y : spec_float) : SFltb x y = true -> SFltb y x = false.
Proof.
  unfold SFltb, SFcompare.
  destruct x as [sx|sx| |sx mx ex], y as [sy|sy| |sy my ey];
    try destruct sx; try destruct sy; try discriminate; try reflexivity;
    rewrite (Z.compare_antisym ex ey);
    change (Pos.compare_cont Eq my mx) with (my ?= mx)%positive;
    change (Pos.compare_cont Eq mx my) with (mx ?= my)%positive;
    rewrite (Pos.compare_antisym mx my);
    destruct (ex ?= ey); cbn; try discriminate; try reflexivity;
    destruct (mx ?= my)%positive; cbn; try discriminate; reflexivity.
Qed.

Lemma digits2_pos_bounds (m : positive) :
  2 ^ (Z.pos (digits2_pos m) - 1) <= Z.pos m < 2 ^ Z.pos (digits2_pos m).
Proof.
  induction m as [m IH|m IH|]; cbn [digits2_pos]; [| |cbn; lia];
    rewrite Pos2Z.inj_succ;
    replace (Z.succ (Z.pos (digits2_pos m)) - 1) with (Z.succ (Z.pos (digits2_pos m) - 1))
      by lia;
    rewrite !Z.pow_succ_r by lia; lia.
Qed.

Lemma shl_align_value (m : positive) (e ez : Z) :
  ez <= e -> Z.pos (fst (shl_align m e ez)) = Z.pos m * 2 ^ (e - ez).
Proof.
  intros Hle. unfold shl_align.
  destruct (ez - e) as [|d|d] eqn:Hd; cbn [fst].
  - replace (e - ez) with 0 by lia. lia.
  - lia.
  - change (Pos.iter xO m d) with (shift_pos d m).
    rewrite shift_pos_correct, Zpower_pos_nat, Zpower_nat_Z, positive_nat_Z.
    replace (e - ez) with (Z.pos d) by lia. lia.
Qed.

(** Of two valid finite numbers, the one with the larger exponent has the
    larger magnitude. *)
Lemma bounded_exponent_order (m1 m2 : positive) (e1 e2 : Z) :
  bounded prec emax m1 e1 = true -> bounded prec emax m2 e2 = true ->
  e2 < e1 -> Z.pos m2 < Z.pos m1 * 2 ^ (e1 - e2).
Proof.
  unfold bounded, canonical_mantissa, fexp, SpecFloat.emin, prec, emax.
  intros [H1 _]%andb_prop [H2 _]%andb_prop Hlt.
  apply Z.eqb_eq in H1, H2.
  pose proof (digits2_pos_bounds m1) as [Hlow1 _].
  pose proof (digits2_pos_bounds m2) as [_ Hup2].
  assert (Hd1 : Z.pos (digits2_pos m1) = 53) by lia.
  assert (Hd2 : Z.pos (digits2_pos m2) <= 53) by lia.
  rewrite Hd1 in Hlow1.
  assert (Hpow : 2 ^ Z.pos (digits2_pos m2) <= 2 ^ 53)
    by (apply Z.pow_le_mono_r; lia).
  assert (Hshift : 2 ^ 1 <= 2 ^ (e1 - e2)) by (apply Z.pow_le_mono_r; lia).
  change (2 ^ 53) with (2 * 2 ^ (53 - 1)) in Hpow. change (2 ^ 1) with 2 in Hshift.
  nia.
Qed.

(** The aligned integer difference of [x - y] is not negative unless
    [x < y]. *)
Lemma aligned_difference_sign (sx sy : bool) (mx my : positive) (ex ey : Z) :
  bounded prec emax mx ex = true -> bounded prec emax my ey = true ->
  SFltb (S754_finite sx mx ex) (S754_finite sy my ey) = false ->
  0 <= cond_Zopp sx (Z.pos (fst (shl_align mx ex (Z.min ex ey))))
       - cond_Zopp sy (Z.pos (fst (shl_align my ey (Z.min ex ey)))).
Proof.
  intros Hx Hy. unfold SFltb, SFcompare.
  rewrite !shl_align_value by lia.
  change (Pos.compare_cont Eq mx my) with (mx ?= my)%positive.
  destruct sx, sy; cbn [cond_Zopp]; try discriminate;
    try (intros _;
         assert (0 < 2 ^ (ex - Z.min ex ey)) by (apply Z.pow_pos_nonneg; lia);
         assert (0 < 2 ^ (ey - Z.min ex ey)) by (apply Z.pow_pos_nonneg; lia); nia).
  - destruct (Z.compare_spec ex ey) as [->|Hlt|Hgt]; try discriminate.
    + rewrite Z.min_id, Z.sub_diag. destruct (Pos.compare_spec mx my); cbn;
        try discriminate; intros _; lia.
    + intros _. rewrite Z.min_l, Z.sub_diag by lia.
      pose proof (bounded_exponent_order my mx ey ex Hy Hx Hlt). lia.
  - destruct (Z.compare_spec ex ey) as [->|Hlt|Hgt]; try discriminate.
    + rewrite Z.min_id, Z.sub_diag. destruct (Pos.compare_spec mx my); cbn;
        try discriminate; intros _; lia.
    + intros _. rewrite Z.min_r, Z.sub_diag by lia.
      pose proof (bounded_exponent_order mx my ex ey Hx Hy Hgt). lia.
Qed.

Lemma shr_1_nonneg (mrs : shr_record) : 0 <= shr_m mrs -> 0 <= shr_m (shr_1 mrs).
Proof. destruct mrs as [[|[p|p|]|p] r s]; cbn; lia. Qed.

Lemma iter_pos_invariant {A : Type} (P : A -> Prop) (f : A -> A) :
  (forall x, P x -> P (f x)) -> forall n x, P x -> P (SpecFloat.iter_pos f n x).
Proof. intros Hf. induction n as [n IH|n IH|]; cbn; auto. Qed.

Lemma shr_fexp_nonneg (m e : Z) (l : location) :
  0 <= m -> 0 <= shr_m (fst (shr_fexp prec emax m e l)).
Proof.
  intros Hm. unfold shr_fexp, shr.
  assert (Hstart : 0 <= shr_m (shr_record_of_loc m l)) by (now destruct l as [|[]]).
  destruct (_ - e); cbn [fst]; try assumption.
  now apply (iter_pos_invariant (fun mrs => 0 <= shr_m mrs) shr_1 shr_1_nonneg).
Qed.

(** Rounding keeps the sign it is given and, of a non-negative integer, never
    gives a NaN. *)
Lemma binary_round_aux_cases (sx : bool) (m e : Z) (l : location) :
  0 <= m ->
  binary_round_aux prec emax sx m e l = S754_zero sx
  \/ binary_round_aux prec emax sx m e l = S754_infinity sx
  \/ exists m' e', binary_round_aux prec emax sx m e l = S754_finite sx m' e'.
Proof.
  intros Hm. unfold binary_round_aux.
  pose proof (shr_fexp_nonneg m e l Hm) as H1.
  destruct (shr_fexp prec emax m e l) as [mrs' e']. cbn [fst] in H1.
  assert (H2 : 0 <= round_nearest_even (shr_m mrs') (loc_of_shr_record mrs')).
  { unfold round_nearest_even.
    destruct (loc_of_shr_record mrs') as [|[]]; try destruct (Z.even _); lia. }
  pose proof (shr_fexp_nonneg _ e' loc_Exact H2) as H3.
  destruct (shr_fexp prec emax _ e' loc_Exact) as [mrs'' e'']. cbn [fst] in H3.
  destruct (shr_m mrs'') as [|p|p]; [now left| |lia].
  destruct (e'' <=? emax - prec); [right; right; eauto|right; now left].
Qed.

Lemma binary_normalize_cases (d e : Z) :
  0 <= d ->
  binary_normalize prec emax d e false = S754_zero false
  \/ binary_normalize prec emax d e false = S754_infinity false
  \/ exists m' e', binary_normalize prec emax d e false = S754_finite false m' e'.
Proof.
  intros Hd. destruct d as [|p|p]; [now left| |lia].
  cbn [binary_normalize]. unfold binary_round.
  destruct (shl_align p e _) as [mz ez]. apply binary_round_aux_cases. lia.
Qed.

(** [x - y] for valid [x] and [y]: unless [x < y] the difference is not
    negative, a NaN included. *)
Lemma SFsub_not_negative (x y : spec_float) (s : bool) :
  valid_binary x = true -> valid_binary y = true ->
  SFltb x y = false -> SFltb (SF64sub x y) (S754_zero s) = false.
Proof.
  intros Hx Hy Hlt.
  destruct x as [sx|sx| |sx mx ex], y as [sy|sy| |sy my ey];
    try (destruct sx, sy; try discriminate; reflexivity);
    try (destruct sx; try discriminate; reflexivity);
    try (destruct sy; try discriminate; reflexivity);
    try reflexivity.
  pose proof (aligned_difference_sign sx sy mx my ex ey Hx Hy Hlt) as Hd.
  unfold SF64sub, SFsub.
  destruct (binary_normalize_cases _ (Z.min ex ey) Hd) as [->|[->|(m' & e' & ->)]];
    reflexivity.
Qed.


End Binary64.



Lemma float_sub_not_negative (x y : float) :
  (x <? y)%float = false -> (x - y <? 0)%float = false.
Proof.
  rewrite !ltb_spec, sub_spec. change (Prim2SF 0) with (S754_zero false).
  apply SFsub_not_negative; apply Prim2SF_valid.
Qed.

Lemma isFinite_cases (x : float) :
  isFinite x = true ->
  match Prim2SF x with
  | S754_zero _ | S754_finite _ _ _ => True
  | _ => False
  end.
Proof. unfold isFinite. now destruct (Prim2SF x). Qed.


Lemma Prim2SF_inj (x y : float) : Prim2SF x = Prim2SF y -> x = y.
Proof. intros H. rewrite <- (SF2Prim_Prim2SF x), <- (SF2Prim_Prim2SF y). now f_equal. Qed.

Lemma float_add_opp (x y : float) : (x + - y = x - y)%float.
Proof.
  apply Prim2SF_inj. rewrite add_spec, sub_spec, opp_spec.
  unfold SF64add, SF64sub, SFadd, SFsub, SFopp.
  destruct (Prim2SF x) as [sx|sx| |sx mx ex], (Prim2SF y) as [sy|sy| |sy my ey];
    try (destruct sx, sy; reflexivity); reflexivity.
Qed.

Lemma float_sub_zero_r (x : float) : (x - 0 = x)%float.
Proof.
  apply Prim2SF_inj. rewrite sub_spec. change (Prim2SF 0) with (S754_zero false).
  destruct (Prim2SF x) as [[]|[]| |sx mx ex]; reflexivity.
Qed.

Lemma float_sub_diag (x : float) : isFinite x = true -> (x - x = 0)%float.
Proof.
  intros Hx%isFinite_cases. apply Prim2SF_inj. rewrite sub_spec.
  change (Prim2SF 0) with (S754_zero false).
  destruct (Prim2SF x) as [[]|[]| |sx mx ex]; try contradiction; try reflexivity.
  unfold SF64sub, SFsub. now rewrite Z.sub_diag.
Qed.

(** A difference of finite numbers that is not positive although the
    minuend is the larger one is the zero. *)
Lemma float_sub_strict (x y : float) :
  isFinite x = true -> isFinite y = true ->
  (y <? x)%float = true -> (0 <? x - y)%float = false -> (x - y = 0)%float.
Proof.
  intros Hx%isFinite_cases Hy%isFinite_cases Hlt Hpos. apply Prim2SF_inj.
  revert Hlt Hpos. rewrite !ltb_spec, sub_spec.
  change (Prim2SF 0) with (S754_zero false).
  pose proof (Prim2SF_valid x) as Vx. pose proof (Prim2SF_valid y) as Vy.
  destruct (Prim2SF x) as [sx|sx| |sx mx ex], (Prim2SF y) as [sy|sy| |sy my ey];
    try contradiction; intros Hlt Hpos.
  - discriminate.
  - destruct sy; discriminate.
  - destruct sx; discriminate.
  - pose proof (SFltb_asym _ _ Hlt) as Hge.
    pose proof (aligned_difference_sign sx sy mx my ex ey Vx Vy Hge) as Hd.
    unfold SF64sub, SFsub in *.
    destruct (binary_normalize_cases _ (Z.min ex ey) Hd) as [E|[E|(m' & e' & E)]];
      rewrite E in *; [reflexivity|discriminate|discriminate].
Qed.








(* --------------------------------------------------------------------- *)
(** ** Crop rectangle                                                     *)
(* --------------------------------------------------------------------- *)

(** The editor's initial crop, dragged from the bottom-right corner to the
    top-left one, on a 640x480 source, as the engine computes it. *)
Example cropped_rectangle_binary64 :
  ChatbubbleConfiguration.getCroppedRectangle
    (ChatbubblePoints.new [(1, 1); (0, 0)]%float)
    (inr {| width := 640%float; height := 480%float |})
  = Return {| rx := 0%float; ry := 0%float;
              rwidth := 640%float; rheight := 480%float |}.
Proof. reflexivity. Qed.





(* --------------------------------------------------------------------- *)
(** ** Reflection of point lists                                          *)
(* --------------------------------------------------------------------- *)

Section Inversion.
Import ChatbubblePoints.
Context {num : Type} `{JsNumber num}.

Lemma inverted_length (P : NormalizedPointList num) (axes : option Axes) :
  length (normalized (inverted P axes)) = length (normalized P).
Proof.
  unfold inverted. destruct axes as [[[[]|] [[]|]]|]; cbn; apply length_map.
Qed.

Lemma inverted_x_normalized (P : NormalizedPointList num) :
  normalized (inverted P axis_x)
  = map (fun p => (num_sub num_one p.1, p.2)) (normalized P).
Proof. unfold inverted. cbn. apply map_ext. now intros [vx vy]. Qed.

(** Reflecting [x] twice acts on each point alone: [y] is kept and [x]
    becomes [1 - (1 - x)]. *)
Lemma inverted_x_twice_normalized (P : NormalizedPointList num) :
  normalized (inverted (inverted P axis_x) axis_x)
  = map (fun p => (num_sub num_one (num_sub num_one p.1), p.2)) (normalized P).
Proof.
  rewrite !inverted_x_normalized, map_map. reflexivity.
Qed.

Lemma reflect_twice_fixed (P : list (CoordinateTuple num)) :
  Forall (fun p => num_sub num_one (num_sub num_one p.1) = p.1) P ->
  map (fun p => (num_sub num_one (num_sub num_one p.1), p.2)) P = P.
Proof.
  induction 1 as [|[vx vy] P' Hp _ IH]; [reflexivity|].
  cbn in Hp |- *. now rewrite Hp, IH.
Qed.

Lemma alloc_fresh (σ : store num) (points : list (CoordinateTuple num)) :
  σ !! (alloc σ points).1 = None.
Proof. unfold alloc; cbn [fst]. apply not_elem_of_dom, is_fresh. Qed.

Lemma alloc_lookup_new (σ : store num) (points : list (CoordinateTuple num)) :
  (alloc σ points).2 !! (alloc σ points).1 = Some points.
Proof. unfold alloc; cbn [fst snd]. apply lookup_insert_eq. Qed.

Lemma alloc_lookup_old (σ : store num) (points : list (CoordinateTuple num))
  (r : positive) :
  is_Some (σ !! r) -> (alloc σ points).2 !! r = σ !! r.
Proof.
  intros Hr. pose proof (alloc_fresh σ points) as Hf.
  unfold alloc in *; cbn [fst snd] in *. apply lookup_insert_ne. intros Heq.
  rewrite Heq in Hf. rewrite Hf in Hr. now destruct Hr.
Qed.

Lemma inverted_at_eq (σ : store num) (receiver : positive)
  (points : list (CoordinateTuple num)) (axes : option Axes) :
  σ !! receiver = Some points ->
  inverted_at σ receiver axes
  = Some (alloc σ (normalized (inverted (new points) axes))).
Proof. intros E. unfold inverted_at. now rewrite E. Qed.

(** [inverted] writes a new object only: every array already in the store,
    the receiver's included, is what it was. *)
Lemma inverted_at_preserves (σ σ' : store num) (receiver r r' : positive)
  (axes : option Axes) :
  inverted_at σ receiver axes = Some (r', σ') ->
  is_Some (σ !! r) -> σ' !! r = σ !! r /\ r' <> r.
Proof.
  unfold inverted_at. destruct (σ !! receiver) as [points|] eqn:E; [|discriminate].
  cbn [mbind option_bind]. intros Hinv Hr.
  assert (Halloc : alloc σ (normalized (inverted (new points) axes)) = (r', σ'))
    by congruence.
  pose proof (alloc_fresh σ (normalized (inverted (new points) axes))) as Hf.
  pose proof (alloc_lookup_old σ (normalized (inverted (new points) axes)) r Hr) as Hold.
  rewrite Halloc in Hf, Hold. cbn [fst snd] in Hf, Hold. split; [exact Hold|].
  intros ->. rewrite Hf in Hr. now destruct Hr.
Qed.

End Inversion.

(** The engine's arithmetic: [1 - (1 - 0.1)] is [0.09999999999999998]. *)
Example binary64_reflection_drifts : (1 - (1 - 0.1))%float = 0.09999999999999998%float.
Proof. reflexivity. Qed.

(** C9, the claim as stated fails: on the list [[0.1, 0]] two reflections of
    [x] do not give the list back. *)
Lemma inverted_x_twice_not_identity :
  let P := ChatbubblePoints.new [(0.1%float, 0%float)] in
  ChatbubblePoints.inverted
    (ChatbubblePoints.inverted P ChatbubblePoints.axis_x) ChatbubblePoints.axis_x
  <> P.
Proof.
  cbv zeta. intros Heq.
  apply (f_equal (fun l =>
            match ChatbubblePoints.normalized l with
            | (vx, _) :: _ => PrimFloat.eqb vx 0.1%float
            | [] => true
            end)) in Heq.
  vm_compute in Heq. discriminate Heq.
Qed.

(** C9, amended. [inverted] allocates a new list and leaves the receiver (and
    every other object) as it was; two reflections of [x] give a list of the
    same length with the same [y]s, and with [x] equal to [1 - (1 - x)] in
    binary64: the list is [P] again whenever that subtraction gives [x] back
    at every point. *)
Theorem inverted_x_twice_restores (σ : ChatbubblePoints.store float)
  (receiver : positive) (P : list (float * float)) :
  σ !! receiver = Some P ->
  exists r1 σ1 r2 σ2 P2,
    ChatbubblePoints.inverted_at σ receiver ChatbubblePoints.axis_x = Some (r1, σ1) /\
    ChatbubblePoints.inverted_at σ1 r1 ChatbubblePoints.axis_x = Some (r2, σ2) /\
    σ2 !! r2 = Some P2 /\
    P2 = map (fun p => ((1 - (1 - p.1))%float, p.2)) P /\
    length P2 = length P /\
    (Forall (fun p => (1 - (1 - p.1))%float = p.1) P -> P2 = P) /\
    σ1 !! receiver = Some P /\ σ2 !! receiver = Some P /\
    r1 <> receiver /\ r2 <> receiver /\ r2 <> r1.
Proof.
  intros Hrecv.
  pose proof (inverted_at_eq σ receiver P ChatbubblePoints.axis_x Hrecv) as E1.
  destruct (ChatbubblePoints.alloc σ _) as [r1 σ1] eqn:A1.
  assert (Hl1 : σ1 !! r1 = Some (ChatbubblePoints.normalized
            (ChatbubblePoints.inverted (ChatbubblePoints.new P) ChatbubblePoints.axis_x))).
  { pose proof (alloc_lookup_new σ (ChatbubblePoints.normalized
      (ChatbubblePoints.inverted (ChatbubblePoints.new P) ChatbubblePoints.axis_x))) as Hn.
    now rewrite A1 in Hn. }
  pose proof (inverted_at_eq σ1 r1 _ ChatbubblePoints.axis_x Hl1) as E2.
  destruct (ChatbubblePoints.alloc σ1 _) as [r2 σ2] eqn:A2.
  destruct (inverted_at_preserves _ _ _ receiver _ _ E1 ltac:(eauto)) as [Hk1 Hn1].
  destruct (inverted_at_preserves _ _ _ receiver _ _ E2
              ltac:(rewrite Hk1; eauto)) as [Hk2 Hn2].
  destruct (inverted_at_preserves _ _ _ r1 _ _ E2 ltac:(eauto)) as [_ Hn21].
  exists r1, σ1, r2, σ2, (map (fun p => ((1 - (1 - p.1))%float, p.2)) P).
  split; [exact E1|]. split; [exact E2|]. split.
  { pose proof (alloc_lookup_new σ1 (ChatbubblePoints.normalized
      (ChatbubblePoints.inverted
         (ChatbubblePoints.new (ChatbubblePoints.normalized
            (ChatbubblePoints.inverted (ChatbubblePoints.new P)
               ChatbubblePoints.axis_x)))
         ChatbubblePoints.axis_x))) as Hn.
    rewrite A2 in Hn. cbn [fst snd] in Hn. refine (eq_trans Hn _). f_equal.
    change (ChatbubblePoints.new
              (ChatbubblePoints.normalized
                 (ChatbubblePoints.inverted (ChatbubblePoints.new P)
                    ChatbubblePoints.axis_x)))
      with (ChatbubblePoints.inverted (ChatbubblePoints.new P) ChatbubblePoints.axis_x).
    now rewrite inverted_x_twice_normalized. }
  split; [reflexivity|]. split; [apply length_map|].
  split; [exact (reflect_twice_fixed (num := float) P)|].
  split; [exact (eq_trans Hk1 Hrecv)|].
  split; [exact (eq_trans Hk2 (eq_trans Hk1 Hrecv))|]. auto.
Qed.

(** The points of the initial Bezier shape are restored exactly. *)
Lemma inverted_x_twice_restores_witness :
  let P := [(0, 0); (0.25, 0.4); (0.75, 0.4); (1, 0)]%float in
  let σ : ChatbubblePoints.store float := {[ 1%positive := P ]} in
  exists r1 σ1 r2 σ2,
    ChatbubblePoints.inverted_at σ 1%positive ChatbubblePoints.axis_x = Some (r1, σ1) /\
    ChatbubblePoints.inverted_at σ1 r1 ChatbubblePoints.axis_x = Some (r2, σ2) /\
    σ2 !! r2 = Some P /\ σ2 !! 1%positive = Some P /\ r2 <> 1%positive.
Proof.
  intros P σ.
  assert (Hrecv : σ !! 1%positive = Some P) by reflexivity.
  destruct (inverted_x_twice_restores σ 1%positive P Hrecv)
    as (r1 & σ1 & r2 & σ2 & P2 & E1 & E2 & Hl2 & _ & _ & Hexact & _ & Hkeep & _ & Hne & _).
  exists r1, σ1, r2, σ2. split; [exact E1|]. split; [exact E2|].
  split; [|split; [exact Hkeep | exact Hne]].
  rewrite Hl2. f_equal. apply Hexact. repeat constructor.
Defined.

(* --------------------------------------------------------------------- *)
(** ** Paths                                                              *)
(* --------------------------------------------------------------------- *)

Section PathFacts.
Import Path.

Lemma split_nonempty (path : string) : split path <> [].
Proof.
  induction path as [|c path IH]; cbn; [discriminate|].
  destruct (is_sep c); [discriminate|]. destruct (split path); discriminate.
Qed.

Lemma split_at_sep (u v : string) :
  split (u ++ String "/" v) = (split u ++ split v)%list.
Proof.
  induction u as [|c u IH]; cbn; [reflexivity|].
  destruct (is_sep c); [now rewrite IH|].
  rewrite IH. pose proof (split_nonempty u) as Hne.
  destruct (split u); [congruence | reflexivity].
Qed.

Lemma split_plain (name : string) :
  forallb (fun c => negb (is_sep c)) (list_ascii_of_string name) = true ->
  split name = [name].
Proof.
  induction name as [|c name IH]; cbn; [reflexivity|].
  intros H. apply andb_prop in H as [Hc Hrest].
  destruct (is_sep c); [discriminate|]. now rewrite IH.
Qed.

Lemma is_segment_parts (name : string) :
  is_segment name = true ->
  name <> "" /\ name <> "." /\ name <> ".." /\
  forallb (fun c => negb (is_sep c)) (list_ascii_of_string name) = true.
Proof.
  unfold is_segment. rewrite !andb_true_iff, !negb_true_iff.
  intros [[[H1 H2] H3] H4]. repeat split; try assumption;
    intros ->; discriminate.
Qed.

Lemma is_segment_relative (name : string) :
  is_segment name = true -> isAbsolute name = false.
Proof.
  intros H. apply is_segment_parts in H as (_ & _ & _ & H).
  destruct name as [|c name]; [reflexivity|]. cbn in *.
  apply andb_prop in H as [H _]. now apply negb_true_iff in H.
Qed.

Lemma push_segment_plain (stack : list string) (name : string) :
  is_segment name = true -> push_segment stack name = name :: stack.
Proof.
  intros H. apply is_segment_parts in H as (H1 & H2 & H3 & _).
  unfold push_segment.
  destruct (String.eqb_spec name ""); [congruence|].
  destruct (String.eqb_spec name "."); [congruence|].
  destruct (String.eqb_spec name ".."); [congruence|]. reflexivity.
Qed.

Lemma push_segment_empty (stack : list string) : push_segment stack "" = stack.
Proof. reflexivity. Qed.

(** The text handed to [normalizeString] ends with the name, whatever the
    directory. *)
Lemma resolve_loop_name (cwd dir : string) :
  exists base, forall name,
    is_segment name = true ->
    resolve_loop cwd [name; dir] "" = base ++ String "/" (name ++ String "/" "").
Proof.
  exists (if String.eqb dir "" then cwd
          else if isAbsolute dir then dir else cwd ++ String "/" dir).
  intros name Hname. cbn [resolve_loop].
  pose proof (is_segment_relative name Hname) as Hrel.
  apply is_segment_parts in Hname as (Hne & _).
  destruct (String.eqb_spec name ""); [congruence|]. rewrite Hrel.
  destruct (String.eqb dir ""); [reflexivity|].
  destruct (isAbsolute dir); [reflexivity|].
  now rewrite string_app_assoc.
Qed.

Lemma concat_last_inj (sep : string) (segs : list string) (n1 n2 : string) :
  String.concat sep (segs ++ [n1])%list = String.concat sep (segs ++ [n2])%list ->
  n1 = n2.
Proof.
  induction segs as [|seg segs IH]; cbn [app String.concat]; [auto|].
  destruct (segs ++ [n1])%list as [|a1 l1] eqn:E1; [now destruct segs|].
  destruct (segs ++ [n2])%list as [|a2 l2] eqn:E2; [now destruct segs|].
  intros Heq. apply IH.
  apply (inj (String.append seg)) in Heq.
  apply (inj (String.append sep)) in Heq. exact Heq.
Qed.

(** [path.resolve(dir, name)] tells plain names apart. *)
Lemma resolve_name_inj (cwd dir n1 n2 : string) :
  is_segment n1 = true -> is_segment n2 = true ->
  resolve cwd [dir; n1] = resolve cwd [dir; n2] -> n1 = n2.
Proof.
  intros H1 H2. unfold resolve. cbn [rev app].
  destruct (resolve_loop_name cwd dir) as [base Hbase].
  rewrite (Hbase n1 H1), (Hbase n2 H2). unfold normalize.
  rewrite !split_at_sep.
  rewrite (split_plain n1), (split_plain n2) by (now apply is_segment_parts).
  cbn [split app]. rewrite !fold_left_app. cbn [fold_left].
  rewrite !push_segment_empty.
  rewrite (push_segment_plain _ n1 H1), (push_segment_plain _ n2 H2). cbn [rev].
  intros Heq. apply (inj (String.append "/")) in Heq.
  now apply concat_last_inj in Heq.
Qed.

End PathFacts.

(* --------------------------------------------------------------------- *)
(** ** Temporary files: generated names                                   *)
(* --------------------------------------------------------------------- *)

Section GeneratedNames.
Import Js.

Lemma list_ascii_app (a b : string) :
  list_ascii_of_string (a ++ b)
  = (list_ascii_of_string a ++ list_ascii_of_string b)%list.
Proof. induction a as [|c a IH]; cbn; [reflexivity | now rewrite IH]. Qed.

Lemma string_app_nil_r (a : string) : a ++ "" = a.
Proof. induction a as [|c a IH]; cbn; [reflexivity | now rewrite IH]. Qed.

Lemma digit_spans_skip (junk rest : string) :
  forallb (fun c => negb (is_digit c)) (list_ascii_of_string junk) = true ->
  digit_spans (junk ++ rest) = digit_spans rest.
Proof.
  induction junk as [|c junk IH]; cbn [list_ascii_of_string forallb]; [reflexivity|].
  intros H. apply andb_prop in H as [Hc Hrest]. apply negb_true_iff in Hc.
  change (String c junk ++ rest) with (String c (junk ++ rest)).
  cbn [digit_spans]. rewrite Hc. now apply IH.
Qed.

(** The first run of digits of [junk ++ run ++ tail] is [run] when [junk] has
    no digit and [tail] does not go on with one. *)
Lemma first_digit_span (junk run tail : string) :
  forallb (fun c => negb (is_digit c)) (list_ascii_of_string junk) = true ->
  run <> "" -> all_digits run = true ->
  match tail with EmptyString => true | String c _ => negb (is_digit c) end = true ->
  hd "" (digit_spans (junk ++ run ++ tail)) = run.
Proof.
  intros Hjunk Hne Hrun Htail. rewrite digit_spans_skip by assumption.
  destruct tail as [|c tail].
  - rewrite string_app_nil_r, digit_spans_run by assumption. reflexivity.
  - apply negb_true_iff in Htail. rewrite digit_spans_cut by assumption. reflexivity.
Qed.

Lemma String_of_Z_inj (a b : Z) :
  0 <= a -> 0 <= b -> String_of_Z a = String_of_Z b -> a = b.
Proof.
  intros Ha Hb Heq. apply (f_equal BigInt) in Heq.
  rewrite !BigInt_String_of_Z in Heq by assumption. congruence.
Qed.

Lemma digit_not_sep (c : ascii) : is_digit c = true -> Path.is_sep c = false.
Proof.
  unfold Path.is_sep. destruct (Ascii.eqb_spec c "/") as [->|]; [|reflexivity].
  discriminate.
Qed.

Lemma all_digits_no_sep (run : string) :
  all_digits run = true ->
  forallb (fun c => negb (Path.is_sep c)) (list_ascii_of_string run) = true.
Proof.
  induction run as [|c run IH]; cbn; [reflexivity|].
  intros H. apply andb_prop in H as [Hc Hrun].
  rewrite (digit_not_sep c Hc), IH by assumption. reflexivity.
Qed.

Lemma plain_prefix_parts (prefix : option string) :
  Temporary.plain_prefix prefix = true ->
  forallb (fun c => negb (is_digit c)) (list_ascii_of_string (default "" prefix)) = true
  /\ forallb (fun c => negb (Path.is_sep c))
       (list_ascii_of_string (default "" prefix)) = true.
Proof.
  unfold Temporary.plain_prefix. generalize (list_ascii_of_string (default "" prefix)).
  intros l. induction l as [|c l IH]; cbn; [auto|].
  rewrite !andb_true_iff. intros [[H1 H2] H3]. destruct (IH H3). auto.
Qed.

Lemma plain_suffix_parts (suffix : option string) :
  Temporary.plain_suffix suffix = true ->
  match default "" suffix with
  | EmptyString => true
  | String c _ => negb (is_digit c)
  end = true
  /\ forallb (fun c => negb (Path.is_sep c))
       (list_ascii_of_string (default "" suffix)) = true.
Proof.
  unfold Temporary.plain_suffix. destruct (default "" suffix) as [|c rest]; [auto|].
  rewrite andb_true_iff. auto.
Qed.

(** The name [unique] generates from a counter value. *)
Lemma unique_eq (cwd : string) (self : Temporary.FileManager)
  (prefix suffix : option string) :
  Temporary.unique cwd self
    (Some {| Temporary.prefix := prefix; Temporary.suffix := suffix |})
  = (Path.resolve cwd
       [Temporary.path self;
        default "" prefix ++ String_of_Z (Temporary.counter self) ++ default "" suffix],
     {| Temporary.config_cleanup := Temporary.config_cleanup self;
        Temporary.path := Temporary.path self;
        Temporary.registered := Temporary.registered self;
        Temporary.status := Temporary.status self;
        Temporary.counter := Temporary.counter self + 1 |}).
Proof.
  unfold Temporary.unique. cbn [mbind option_bind Temporary.prefix Temporary.suffix
    Temporary.path].
  destruct prefix as [[|c p]|], suffix as [[|c' s']|];
    cbn [Temporary.truthy String.eqb negb default];
    rewrite ?string_app_nil_r, ?string_app_assoc; reflexivity.
Qed.

Lemma generated_name_segment (prefix suffix : option string) (k : Z) :
  Temporary.plain_prefix prefix = true -> Temporary.plain_suffix suffix = true ->
  0 <= k ->
  Path.is_segment (default "" prefix ++ String_of_Z k ++ default "" suffix) = true.
Proof.
  intros Hp Hs Hk.
  apply plain_prefix_parts in Hp as [_ Hp]. apply plain_suffix_parts in Hs as [_ Hs].
  pose proof (String_of_Z_digits k Hk) as Hd.
  pose proof (String_of_Z_nonempty k) as Hne.
  set (name := default "" prefix ++ String_of_Z k ++ default "" suffix).
  assert (Hsep : forallb (fun c => negb (Path.is_sep c)) (list_ascii_of_string name) = true).
  { unfold name. rewrite !list_ascii_app, !forallb_app, Hp, Hs.
    now rewrite all_digits_no_sep. }
  assert (Hdigit : existsb is_digit (list_ascii_of_string name) = true).
  { unfold name. rewrite !list_ascii_app, !existsb_app.
    destruct (String_of_Z k) as [|c run]; [congruence|].
    cbn in Hd |- *. apply andb_prop in Hd as [-> _]. now rewrite orb_true_r. }
  unfold Path.is_segment. rewrite Hsep, andb_true_r.
  destruct (String.eqb_spec name "") as [E|_]; [now rewrite E in Hdigit|].
  destruct (String.eqb_spec name ".") as [E|_]; [now rewrite E in Hdigit|].
  destruct (String.eqb_spec name "..") as [E|_]; [now rewrite E in Hdigit|].
  reflexivity.
Qed.

(** Two generated names are equal only when the counter values are. *)
Lemma generated_name_counter (p1 s1 p2 s2 : option string) (k1 k2 : Z) :
  Temporary.plain_prefix p1 = true -> Temporary.plain_suffix s1 = true ->
  Temporary.plain_prefix p2 = true -> Temporary.plain_suffix s2 = true ->
  0 <= k1 -> 0 <= k2 ->
  default "" p1 ++ String_of_Z k1 ++ default "" s1
  = default "" p2 ++ String_of_Z k2 ++ default "" s2 ->
  k1 = k2.
Proof.
  intros Hp1 Hs1 Hp2 Hs2 Hk1 Hk2 Heq.
  apply plain_prefix_parts in Hp1 as [Hp1 _]. apply plain_prefix_parts in Hp2 as [Hp2 _].
  apply plain_suffix_parts in Hs1 as [Hs1 _]. apply plain_suffix_parts in Hs2 as [Hs2 _].
  apply (f_equal (fun name => hd "" (digit_spans name))) in Heq.
  rewrite !first_digit_span in Heq
    by auto using String_of_Z_nonempty, String_of_Z_digits.
  now apply String_of_Z_inj.
Qed.

End GeneratedNames.

Section CreateMany.
Import Temporary.
Variable cwd : string.

Lemma create_ready (self : FileManager) (prefix suffix : option string) :
  status self = READY ->
  create cwd self prefix suffix true
  = let '(path', self') :=
      unique cwd self (Some {| prefix := prefix; suffix := suffix |}) in
    (Return path', register self' path', [Open path']).
Proof.
  intros Hready. unfold create. rewrite unique_eq. cbn [status]. now rewrite Hready.
Qed.

(** Where a path was generated: in [dir], from an admissible prefix and
    suffix and a counter value in [[lo, hi)]. *)
Lemma create_all_spec (calls : list (option string * option string)) :
  forall (self self' : FileManager) (paths : list string),
    status self = READY -> 0 <= counter self ->
    Forall (fun call => plain_prefix call.1 = true /\ plain_suffix call.2 = true) calls ->
    create_all cwd self calls = (paths, self') ->
    status self' = READY /\ path self' = path self /\
    counter self' = counter self + Z.of_nat (length calls) /\
    length paths = length calls /\
    registered self ⊆ registered self' /\
    Forall (fun q =>
              q ∈ registered self' /\
              exists p s k,
                plain_prefix p = true /\ plain_suffix s = true /\
                counter self <= k < counter self' /\
                q = Path.resolve cwd
                      [path self; default "" p ++ Js.String_of_Z k ++ default "" s])
           paths /\
    NoDup paths.
Proof.
  induction calls as [|[p s] calls IH]; intros self self' paths Hready Hc Hcalls Hrun.
  - cbn in Hrun. injection Hrun as <- <-. cbn [length Z.of_nat].
    rewrite Z.add_0_r. repeat split; try done. constructor.
  - cbn [create_all] in Hrun. rewrite create_ready in Hrun by assumption.
    rewrite unique_eq in Hrun.
    set (q := Path.resolve cwd
                [path self; default "" p ++ Js.String_of_Z (counter self) ++ default "" s])
      in Hrun.
    match type of Hrun with
    | context [create_all cwd ?m calls] => set (self1 := m) in Hrun
    end.
    destruct (create_all cwd self1 calls) as [paths1 self2] eqn:Hrest.
    injection Hrun as <- <-.
    apply Forall_cons in Hcalls as [[Hp Hs] Hcalls]. cbn [fst snd] in Hp, Hs.
    destruct (IH self1 self2 paths1 Hready ltac:(cbn; lia) Hcalls Hrest)
      as (Hst & Hpath & Hcount & Hlen & Hsub & Hgen & Hnodup).
    cbn [status path counter registered self1 register] in *.
    repeat split.
    + exact Hst.
    + exact Hpath.
    + cbn [length]. lia.
    + cbn [length]. now rewrite Hlen.
    + set_solver.
    + constructor.
      * split; [set_solver|]. exists p, s, (counter self). repeat split; try done; lia.
      * eapply Forall_impl; [exact Hgen|]. intros q' (Hin & p' & s' & k & Hp' & Hs' & Hk & ->).
        split; [exact Hin|]. exists p', s', k. repeat split; try done; lia.
    + constructor; [|exact Hnodup]. intros Hin.
      rewrite Forall_forall in Hgen.
      destruct (Hgen q Hin) as (_ & p' & s' & k & Hp' & Hs' & Hk & Heq).
      unfold q in Heq. apply resolve_name_inj in Heq;
        [| apply generated_name_segment; (assumption || lia) ..].
      apply generated_name_counter in Heq; (assumption || lia).
Qed.

End CreateMany.

(** C8, the code at the failing run.  [unique] joins prefix, counter and
    suffix with no delimiter, so the counter's digits can be taken over by an
    argument: on a fresh manager [create(undefined, "1")] and then
    [create("0")] both return [/tmp/ffmpeg/01], and on every ready manager,
    with the counter at [k], [create(undefined, String(k + 1))] followed by
    [create(String(k))] returns one path twice, registered once. *)
Theorem create_prefix_suffix_collide :
  let fresh_manager :=
    (Temporary.constructor "/tmp/ffmpeg" Temporary.Cleanup_DEFAULT
       Temporary.MakeUndefined true).1 in
  (Temporary.create_all "/" fresh_manager [(None, Some "1"); (Some "0", None)]).1
  = ["/tmp/ffmpeg/01"; "/tmp/ffmpeg/01"]
  /\ ~ NoDup (Temporary.create_all "/" fresh_manager
                [(None, Some "1"); (Some "0", None)]).1
  /\ forall (cwd : string) (self : Temporary.FileManager),
       Temporary.status self = Temporary.READY ->
       let k := Temporary.counter self in
       let made :=
         Temporary.create_all cwd self
           [(None, Some (Js.String_of_Z (k + 1))); (Some (Js.String_of_Z k), None)] in
       let path :=
         Path.resolve cwd
           [Temporary.path self; Js.String_of_Z k ++ Js.String_of_Z (k + 1)] in
       made.1 = [path; path] /\ ~ NoDup made.1 /\
       Temporary.counter made.2 = k + 2 /\
       Temporary.registered made.2 = {[ path ]} ∪ Temporary.registered self.
Proof.
  cbv zeta. assert (E : (Temporary.create_all "/"
    (Temporary.constructor "/tmp/ffmpeg" Temporary.Cleanup_DEFAULT
       Temporary.MakeUndefined true).1 [(None, Some "1"); (Some "0", None)]).1
    = ["/tmp/ffmpeg/01"; "/tmp/ffmpeg/01"]) by (vm_compute; reflexivity).
  split; [exact E|]. split.
  { rewrite E. intros Hnd. apply NoDup_cons in Hnd as [Hnotin _]. apply Hnotin. constructor. }
  intros cwd self Hready.
  cbn [Temporary.create_all]. rewrite create_ready by assumption. rewrite unique_eq.
  rewrite create_ready by assumption. rewrite unique_eq.
  cbn [Temporary.register Temporary.counter Temporary.path Temporary.registered
       Temporary.status fst snd default].
  rewrite string_app_nil_r. change ("" ++ ?x) with x.
  repeat split.
  - intros Hnd. apply NoDup_cons in Hnd as [Hnotin _]. apply Hnotin. constructor.
  - lia.
  - set_solver.
Qed.

(** X31. On a ready manager (a fresh one included), [create] called any
    number of times with prefixes free of digits and separators and suffixes
    free of separators that do not begin with a digit returns pairwise
    distinct paths, one per call, all registered; the counter in the file
    name goes up by one per call. *)
Theorem create_all_distinct (cwd : string) (self : Temporary.FileManager)
  (calls : list (option string * option string)) :
  Temporary.status self = Temporary.READY ->
  0 <= Temporary.counter self ->
  Forall (fun call => Temporary.plain_prefix call.1 = true
                      /\ Temporary.plain_suffix call.2 = true) calls ->
  let '(paths, self') := Temporary.create_all cwd self calls in
  NoDup paths /\ length paths = length calls /\
  Temporary.counter self' = Temporary.counter self + Z.of_nat (length calls) /\
  (forall q, q ∈ paths -> q ∈ Temporary.registered self').
Proof.
  intros Hready Hc Hcalls.
  destruct (Temporary.create_all cwd self calls) as [paths self'] eqn:Hrun.
  destruct (create_all_spec cwd calls self self' paths Hready Hc Hcalls Hrun)
    as (_ & _ & Hcount & Hlen & _ & Hgen & Hnodup).
  repeat split; try assumption.
  intros q Hq. rewrite Forall_forall in Hgen. now destruct (Hgen q Hq).
Qed.

(** The job's three spool files and a socket on one fresh manager. *)
Lemma create_all_distinct_witness :
  let fresh_manager :=
    (Temporary.constructor "/tmp/ffmpeg" Temporary.Cleanup_DEFAULT
       Temporary.MakeUndefined true).1 in
  let calls := [(Some "main", None); (Some "bubble", None); (Some "out", None);
                (None, None); (Some "socket.", Some ".tmp")] in
  let '(paths, self') := Temporary.create_all "/" fresh_manager calls in
  NoDup paths /\ length paths = length calls /\
  Temporary.counter self' = Temporary.counter fresh_manager + Z.of_nat (length calls) /\
  (forall q, q ∈ paths -> q ∈ Temporary.registered self').
Proof.
  cbv zeta. apply (create_all_distinct "/"); [reflexivity | cbn; lia |].
  repeat constructor.
Defined.

(* --------------------------------------------------------------------- *)
(** ** Temporary files: cleanup                                           *)
(* --------------------------------------------------------------------- *)

Section Cleanup.
Import Temporary.
Variable cwd : string.

Lemma omap_length_le {A B} (f : A -> option B) (l : list A) :
  (length (omap f l) <= length l)%nat.
Proof. induction l as [|a l IH]; cbn; [lia|]. destruct (f a); cbn; lia. Qed.

Lemma omap_full {A B} (f : A -> option B) (l : list A) :
  length (omap f l) = length l -> forall x, x ∈ l -> is_Some (f x).
Proof.
  induction l as [|a l IH]; intros Hlen x Hx; [now apply elem_of_nil in Hx|].
  cbn in Hlen. pose proof (omap_length_le f l) as Hle.
  destruct (f a) as [b|] eqn:E; cbn in Hlen; [|lia].
  apply elem_of_cons in Hx as [->|Hx]; [eauto|]. apply IH; [lia | exact Hx].
Qed.

(** With [MANAGED_FILES] every path selected comes from a listed entry that
    is not a directory, is registered and passes the filter. *)
Lemma getPathsToDelete_managed (self : FileManager) (entries : list Dirent)
  (filter : option Filter) (target : string) :
  include (config_cleanup self) = MANAGED_FILES ->
  target ∈ getPathsToDelete cwd self entries filter ->
  exists entry,
    entry ∈ entries /\ target = entry_path cwd entry /\
    isDirectory entry = false /\ target ∈ registered self /\
    call_filter (default FILTER_INCLUDE_ALL filter) target entry = true.
Proof.
  intros Hinc. unfold getPathsToDelete. rewrite Hinc.
  rewrite list_elem_of_omap. intros (entry & Hin & Hsel).
  exists entry. destruct (isDirectory entry); [discriminate|].
  cbn [orb] in Hsel. case_bool_decide as Hreg; [|discriminate]. cbn [negb] in Hsel.
  destruct (call_filter _ _ entry) eqn:Hf; [|discriminate].
  injection Hsel as <-. auto.
Qed.

Lemma getPathsToDelete_managed_full (self : FileManager) (entries : list Dirent)
  (filter : option Filter) :
  include (config_cleanup self) = MANAGED_FILES ->
  length entries = length (getPathsToDelete cwd self entries filter) ->
  forall entry, entry ∈ entries ->
    isDirectory entry = false /\ entry_path cwd entry ∈ registered self /\
    call_filter (default FILTER_INCLUDE_ALL filter) (entry_path cwd entry) entry = true.
Proof.
  intros Hinc Hlen entry Hin. unfold getPathsToDelete in Hlen. rewrite Hinc in Hlen.
  symmetry in Hlen. destruct (omap_full _ _ Hlen entry Hin) as [q Hq].
  destruct (isDirectory entry); [discriminate|]. cbn [orb] in Hq.
  case_bool_decide as Hreg; [|discriminate]. cbn [negb] in Hq.
  destruct (call_filter _ _ entry); [auto | discriminate].
Qed.

End Cleanup.

(** C7, the claim as stated fails: a manager with the default policy
    ([MANAGED_FILES], remove-self) that was told not to make its directory
    removes that directory, which it neither created nor registered, once the
    listing holds no unmanaged entry. *)
Lemma cleanup_removes_unregistered_directory :
  let '(manager, made) :=
    Temporary.constructor "/tmp/ffmpeg" Temporary.Cleanup_DEFAULT
      (Temporary.MakeBoolean false) true in
  Temporary.include (Temporary.config_cleanup manager) = Temporary.MANAGED_FILES /\
  made = [] /\
  ("/tmp/ffmpeg" ∉ Temporary.registered manager) /\
  Temporary.cleanup "/" false manager (Return []) None = [Rm "/tmp/ffmpeg"].
Proof.
  cbn. repeat split. apply not_elem_of_empty.
Qed.

(** C7, amended. Under [MANAGED_FILES] [cleanup] only starts removals, and
    each target is either a registered path of a listed non-directory entry
    that passes the filter, or the manager's own directory, the latter only
    under remove-self and when every listed entry is such an entry; an entry
    that is not registered is never removed. *)
Theorem cleanup_managed_files_only (cwd : string) (exiting : bool)
  (self : Temporary.FileManager) (readdir : Completion (list Temporary.Dirent))
  (filter : option Temporary.Filter) (action : FsAction) :
  Temporary.include (Temporary.config_cleanup self) = Temporary.MANAGED_FILES ->
  action ∈ Temporary.cleanup cwd exiting self readdir filter ->
  let managed entry :=
    Temporary.isDirectory entry = false /\
    Temporary.entry_path cwd entry ∈ Temporary.registered self /\
    Temporary.call_filter (default Temporary.FILTER_INCLUDE_ALL filter)
      (Temporary.entry_path cwd entry) entry = true in
  exists target entries,
    action = Rm target /\ readdir = Return entries /\
    ((exists entry,
        entry ∈ entries /\ target = Temporary.entry_path cwd entry /\ managed entry)
     \/
     (target = Temporary.path self /\
      Temporary.ascension (Temporary.config_cleanup self) = Temporary.SELF /\
      forall entry, entry ∈ entries -> managed entry)).
Proof.
  intros Hinc Hin managed. revert Hin. unfold Temporary.cleanup.
  destruct (Temporary.status self); [now intros ?%elem_of_nil|].
  assert (Hsweep :
    action ∈ match readdir with
             | Throw _ => []
             | Return entries =>
                 let paths := Temporary.getPathsToDelete cwd self entries filter in
                 match Temporary.ascension (Temporary.config_cleanup self) with
                 | Temporary.SELF =>
                     if (length entries =? length paths)%nat
                     then [Rm (Temporary.path self)] else map Rm paths
                 | Temporary.NONE => map Rm paths
                 end
             end ->
    exists target entries,
      action = Rm target /\ readdir = Return entries /\
      ((exists entry,
          entry ∈ entries /\ target = Temporary.entry_path cwd entry /\ managed entry)
       \/
       (target = Temporary.path self /\
        Temporary.ascension (Temporary.config_cleanup self) = Temporary.SELF /\
        forall entry, entry ∈ entries -> managed entry))).
  { destruct readdir as [entries|msg]; [|now intros ?%elem_of_nil].
    cbv zeta.
    assert (Hpaths : action ∈ map Rm (Temporary.getPathsToDelete cwd self entries filter) ->
      exists target entries0,
        action = Rm target /\ Return entries = Return entries0 /\
        ((exists entry,
            entry ∈ entries0 /\ target = Temporary.entry_path cwd entry /\ managed entry)
         \/
         (target = Temporary.path self /\
          Temporary.ascension (Temporary.config_cleanup self) = Temporary.SELF /\
          forall entry, entry ∈ entries0 -> managed entry))).
    { rewrite list_elem_of_fmap. intros (target & -> & Hin).
      destruct (getPathsToDelete_managed cwd self entries filter target Hinc Hin)
        as (entry & He & Hp & Hd & Hr & Hf).
      exists target, entries. split; [reflexivity|]. split; [reflexivity|].
      left. exists entry. split; [exact He|]. split; [exact Hp|].
      unfold managed. rewrite <- Hp. auto. }
    destruct (Temporary.ascension (Temporary.config_cleanup self)) eqn:Hasc;
      [exact Hpaths|].
    destruct (Nat.eqb_spec (length entries)
                (length (Temporary.getPathsToDelete cwd self entries filter)))
      as [Hlen|_]; [|exact Hpaths].
    intros ->%list_elem_of_singleton.
    exists (Temporary.path self), entries. split; [reflexivity|]. split; [reflexivity|].
    right. split; [reflexivity|]. split; [reflexivity|].
    exact (getPathsToDelete_managed_full cwd self entries filter Hinc Hlen). }
  rewrite Hinc.
  destruct (Temporary.when (Temporary.config_cleanup self)), exiting;
    try (now intros ?%elem_of_nil);
    destruct (Temporary.ascension (Temporary.config_cleanup self)); exact Hsweep.
Qed.

(** A sweep of a directory holding one managed file and a stranger removes
    the managed file. *)
Lemma cleanup_managed_files_only_witness :
  let manager : Temporary.FileManager :=
    {| Temporary.config_cleanup := Temporary.Cleanup_DEFAULT;
       Temporary.path := "/tmp/ffmpeg";
       Temporary.registered := {[ "/tmp/ffmpeg/main0" ]};
       Temporary.status := Temporary.READY; Temporary.counter := 1 |} in
  let listing :=
    [ {| Temporary.parentPath := "/tmp/ffmpeg"; Temporary.name := "main0";
         Temporary.isDirectory := false |};
      {| Temporary.parentPath := "/tmp/ffmpeg"; Temporary.name := "stranger";
         Temporary.isDirectory := false |} ] in
  Temporary.cleanup "/" false manager (Return listing) None = [Rm "/tmp/ffmpeg/main0"] /\
  exists target entries,
    Rm "/tmp/ffmpeg/main0" = Rm target /\ Return listing = Return entries /\
    ((exists entry,
        entry ∈ entries /\ target = Temporary.entry_path "/" entry /\
        Temporary.isDirectory entry = false /\
        Temporary.entry_path "/" entry ∈ Temporary.registered manager /\
        Temporary.call_filter Temporary.FILTER_INCLUDE_ALL
          (Temporary.entry_path "/" entry) entry = true)
     \/
     (target = Temporary.path manager /\
      Temporary.ascension (Temporary.config_cleanup manager) = Temporary.SELF /\
      forall entry, entry ∈ entries ->
        Temporary.isDirectory entry = false /\
        Temporary.entry_path "/" entry ∈ Temporary.registered manager /\
        Temporary.call_filter Temporary.FILTER_INCLUDE_ALL
          (Temporary.entry_path "/" entry) entry = true)).
Proof.
  cbv zeta. split; [vm_compute; reflexivity|].
  apply (cleanup_managed_files_only "/" false _ _ None).
  - reflexivity.
  - vm_compute. constructor.
Defined.

(* --------------------------------------------------------------------- *)
(** ** Socket bridge                                                      *)
(* --------------------------------------------------------------------- *)

Section Bridge.
Variable cwd : string.

(** Constructing a bridge registers nothing. *)
Lemma bridge_constructor_registered (provider : Temporary.FileManager) :
  Temporary.registered (SocketPipe.constructor cwd provider).1.2
  = Temporary.registered provider.
Proof. unfold SocketPipe.constructor. now rewrite unique_eq. Qed.

(** Only a connection registers the path: events other than [connection]
    leave the registry alone. *)
Lemma bridge_run_without_connection (events : list SocketPipe.Event)
  (bridge : SocketPipe.t) (provider : Temporary.FileManager) :
  SocketPipe.connection ∉ events ->
  Temporary.registered (SocketPipe.run events bridge provider).2
  = Temporary.registered provider.
Proof.
  unfold SocketPipe.run. revert bridge provider.
  induction events as [|event events IH]; intros bridge provider Hno; [reflexivity|].
  apply not_elem_of_cons in Hno as [Hne Hno]. cbn [fold_left].
  destruct event; [congruence|]. cbn [SocketPipe.on]. now apply IH.
Qed.

Lemma bridge_connection_registers (bridge : SocketPipe.t)
  (provider : Temporary.FileManager) :
  SocketPipe.listening bridge = true ->
  SocketPipe.path bridge
  ∈ Temporary.registered (SocketPipe.on SocketPipe.connection bridge provider).2.
Proof. intros Hl. cbn. rewrite Hl. cbn. set_solver. Qed.

End Bridge.

(** C3, the code at the failing run. A bridge made on the fresh manager
    listens on [/tmp/ffmpeg/socket.0]; when the stream finishes without any
    peer having connected, the path is not registered, and a sweep of the
    directory that lists the socket file removes nothing.  Had a peer
    connected, the path would be registered. *)
Theorem bridge_unregistered_without_peer :
  let fresh_manager :=
    (Temporary.constructor "/tmp/ffmpeg" Temporary.Cleanup_DEFAULT
       Temporary.MakeUndefined true).1 in
  let '(bridge, provider, actions) := SocketPipe.constructor "/" fresh_manager in
  let socket_file :=
    {| Temporary.parentPath := "/tmp/ffmpeg"; Temporary.name := "socket.0";
       Temporary.isDirectory := false |} in
  SocketPipe.path bridge = "/tmp/ffmpeg/socket.0" /\
  actions = [Listen "/tmp/ffmpeg/socket.0"] /\
  (SocketPipe.path bridge ∉ Temporary.registered provider) /\
  (SocketPipe.path bridge
   ∉ Temporary.registered
       (SocketPipe.run [SocketPipe.finish] bridge provider).2) /\
  Temporary.cleanup "/" true
    (SocketPipe.run [SocketPipe.finish] bridge provider).2
    (Return [socket_file]) None = [] /\
  (SocketPipe.path bridge
   ∈ Temporary.registered
       (SocketPipe.run [SocketPipe.connection; SocketPipe.finish] bridge provider).2).
Proof.
  cbv zeta.
  destruct (SocketPipe.constructor "/" _) as [[bridge provider] actions] eqn:E.
  vm_compute in E. injection E as <- <- <-.
  split; [reflexivity|]. split; [reflexivity|].
  split; [cbn; apply not_elem_of_empty|].
  split; [cbn; apply not_elem_of_empty|].
  split; [reflexivity|].
  cbn. set_solver.
Qed.

(* --------------------------------------------------------------------- *)
(** ** Encoder job: progress                                              *)
(* --------------------------------------------------------------------- *)

Section ProgressValue.
Import Js.

Lemma take_digits_run (run rest : string) :
  all_digits run = true ->
  match rest with EmptyString => true | String c _ => negb (is_digit c) end = true ->
  take_digits (run ++ rest) = (run, rest).
Proof.
  intros Hrun Hrest. induction run as [|c run IH]; cbn.
  - destruct rest as [|c rest]; [reflexivity|]. cbn.
    apply negb_true_iff in Hrest. now rewrite Hrest.
  - cbn in Hrun. apply andb_prop in Hrun as [Hc Hrun]. rewrite Hc, IH by assumption.
    reflexivity.
Qed.

Lemma BigInt_nonneg (s : string) (v : Z) : BigInt s = Some v -> 0 <= v.
Proof.
  unfold BigInt. destruct (NilEmpty.uint_of_string s) as [d|]; [|discriminate].
  cbn. intros [= <-]. unfold Z.of_uint. lia.
Qed.

Lemma length_repeat_char (c : ascii) (n : nat) : String.length (repeat_char c n) = n.
Proof. induction n; cbn; congruence. Qed.

Lemma string_length_app (a b : string) :
  String.length (a ++ b) = (String.length a + String.length b)%nat.
Proof. induction a as [|c a IH]; cbn; [reflexivity | now rewrite IH]. Qed.

(** The numeral the divider prints denotes the quotient truncated to five
    decimals. *)
Lemma fixedPrecisionBigIntDivide_value (micros duration : Z) (text : string) :
  0 <= micros -> 0 < duration ->
  fixedPrecisionBigIntDivide micros duration 5 = Return text ->
  exists q, Number text = Some q /\
            (q == inject_Z (micros * 100000 / duration) / 100000)%Q.
Proof.
  intros Hm Hd. unfold fixedPrecisionBigIntDivide.
  change (Nat.iter (Z.to_nat 5) (fun shift => shift * 10) 1) with 100000.
  destruct (Z.eqb_spec duration 0) as [|_]; [lia|].
  rewrite !(Z.rem_mod_nonneg micros duration), !(Z.quot_div_nonneg micros duration) by lia.
  pose proof (Z.div_mod micros duration ltac:(lia)) as Hdm.
  pose proof (Z.mod_pos_bound micros duration Hd) as Hrem.
  assert (Hint : 0 <= micros / duration) by (apply Z.div_pos; lia).
  destruct (Z.eqb_spec (micros mod duration) 0) as [Hz|Hnz]; cbn [negb].
  - intros [= <-]. unfold Number.
    rewrite <- (string_app_nil_r (String_of_Z (micros / duration))).
    rewrite take_digits_run by (auto using String_of_Z_digits).
    rewrite BigInt_String_of_Z by assumption. eexists. split; [reflexivity|].
    assert (micros * 100000 / duration = micros / duration * 100000) as ->.
    { replace (micros * 100000) with (micros / duration * 100000 * duration) by lia.
      apply Z.div_mul. lia. }
    rewrite inject_Z_mult. field.
  - rewrite Z.quot_div_nonneg by lia.
    set (dec := micros mod duration * 100000 / duration).
    assert (Hdec : 0 <= dec) by (apply Z.div_pos; lia).
    destruct (Z.ltb_spec (5 - Z.of_nat (String.length (String_of_Z dec))) 0) as [|Hpre];
      [discriminate|].
    intros [= <-]. unfold Number.
    rewrite take_digits_run; [| now apply String_of_Z_digits | reflexivity].
    change ("." ++ ?x) with (String "." x). cbn iota.
    rewrite all_digits_app, all_digits_repeat_zero, String_of_Z_digits by assumption.
    assert (Hne : String.eqb (String_of_Z (micros / duration)) "" = false).
    { apply String.eqb_neq, String_of_Z_nonempty. }
    rewrite Hne. cbn [andb negb].
    rewrite BigInt_String_of_Z, BigInt_repeat_zero, BigInt_String_of_Z by assumption.
    cbn [mbind option_bind]. eexists. split; [reflexivity|].
    rewrite string_length_app, length_repeat_char.
    replace (Z.of_nat (Z.to_nat (5 - Z.of_nat (String.length (String_of_Z dec)))
                       + String.length (String_of_Z dec))) with 5 by lia.
    assert (micros * 100000 / duration = micros / duration * 100000 + dec) as ->.
    { unfold dec.
      replace (micros * 100000)
        with (micros / duration * 100000 * duration + micros mod duration * 100000)
        by lia.
      rewrite Z.div_add_l by lia. reflexivity. }
    rewrite inject_Z_plus, inject_Z_mult. change (inject_Z (10 ^ 5)) with 100000%Q.
    change (inject_Z 100000) with 100000%Q. field.
Qed.

Lemma fraction_of_bounds (duration micros : Z) :
  (0 <= FFmpegJob.fraction_of duration micros <= 1)%Q.
Proof.
  unfold FFmpegJob.fraction_of. split.
  - apply Q.min_glb; [discriminate | apply Q.le_max_l].
  - apply Q.le_min_l.
Qed.

Lemma fraction_of_monotone (duration m1 m2 : Z) :
  0 < duration -> m1 <= m2 ->
  (FFmpegJob.fraction_of duration m1 <= FFmpegJob.fraction_of duration m2)%Q.
Proof.
  intros Hd Hm. unfold FFmpegJob.fraction_of.
  apply Q.min_le_compat_l, Q.max_le_compat_l.
  apply Qmult_le_compat_r; [|discriminate].
  rewrite <- Zle_Qle. apply Z.div_le_mono; lia.
Qed.

End ProgressValue.

Section ProgressRun.
Import FFmpegJob.
Variable read : Completion Bytes.

Lemma magnitude_at_nonneg (k : Z) : 0 <= ChatbubbleFFmpegTime.magnitude_at k.
Proof.
  unfold ChatbubbleFFmpegTime.magnitude_at, ChatbubbleFFmpegTime.MAGNITUDES.
  destruct (k <? 0); [lia|].
  destruct (Z.to_nat k) as [|[|[|[|[|n]]]]]; cbn; lia.
Qed.

Lemma parse_spans_nonneg (spans : list string) :
  forall j acc us,
    0 <= acc -> ChatbubbleFFmpegTime.parse_spans spans j acc = Return us -> 0 <= us.
Proof.
  induction spans as [|span spans IH]; intros j acc us Hacc; cbn.
  - now intros [= <-].
  - destruct (Js.BigInt span) as [v|] eqn:Hv; [|discriminate].
    apply BigInt_nonneg in Hv. apply IH.
    pose proof (magnitude_at_nonneg (j - 1)). nia.
Qed.

Lemma parse_nonneg (input : string) (length : ChatbubbleFFmpegTime.t) :
  ChatbubbleFFmpegTime.parse input = Return length ->
  0 <= ChatbubbleFFmpegTime.microseconds length.
Proof.
  unfold ChatbubbleFFmpegTime.parse.
  destruct (Js.digit_spans input) as [|span spans]; [discriminate|].
  destruct (ChatbubbleFFmpegTime.parse_spans _ _ 0) as [us|] eqn:E; [|discriminate].
  cbn. intros [= <-]. cbn. eapply parse_spans_nonneg; [|exact E]. lia.
Qed.

Lemma out_times_single (event : ProcessEvent) :
  out_times [event] = [] \/ exists m, out_times [event] = [m].
Proof. unfold out_times. cbn. destruct (out_time event); eauto. Qed.

Lemma out_times_stdout (chunk digits : string) (m : Z) :
  Regex.match_out_time_us chunk = Some digits -> Js.BigInt digits = Some m ->
  out_times [stdout_data chunk] = [m].
Proof. intros Hd Hm. unfold out_times. cbn. rewrite Hd. cbn. now rewrite Hm. Qed.

(** Once the duration is known the handlers keep it, and a stdout chunk
    emits at most the fraction of the elapsed time it reports. *)
Lemma on_found (event : ProcessEvent) (self : t) (length : ChatbubbleFFmpegTime.t) :
  foundMainLength self = Some length ->
  0 <= ChatbubbleFFmpegTime.microseconds length ->
  foundMainLength (on read event self).1 = Some length /\
  ((fractions (on read event self).2 = [] /\
    (out_times [event] = [] \/ exists m, out_times [event] = [m]))
   \/
   exists f m,
     fractions (on read event self).2 = [f] /\ out_times [event] = [m] /\
     reports (ChatbubbleFFmpegTime.microseconds length) f m).
Proof.
  intros Hfound Hlen. pose proof (out_times_single event) as Hsingle.
  destruct event as [name|code signal|code signal|chunk|chunk]; cbn [on].
  - split; [exact Hfound|]. left. split; [reflexivity | exact Hsingle].
  - destruct (negb (is_zero code)); (split; [exact Hfound|]); left;
      (split; [reflexivity | exact Hsingle]).
  - destruct (is_zero code); [destruct (waiting self)|];
      try destruct read; (split; [exact Hfound|]); left;
      (split; [reflexivity | exact Hsingle]).
  - rewrite Hfound.
    destruct (Regex.match_out_time_us chunk) as [digits|] eqn:Hdigits;
      [|split; [exact Hfound|]; left; split; [reflexivity | exact Hsingle]].
    destruct (Js.BigInt digits) as [m|] eqn:Hm;
      [|split; [exact Hfound|]; left; split; [reflexivity | exact Hsingle]].
    destruct (fixedPrecisionBigIntDivide m _ 5) as [text|] eqn:Hdiv;
      [|split; [exact Hfound|]; left; split; [reflexivity | exact Hsingle]].
    cbn [fst snd set_progress foundMainLength]. split; [exact Hfound|]. right.
    exists (clamp (Number text) 0 1), m. split; [reflexivity|].
    split; [now apply (out_times_stdout chunk digits)|].
    pose proof (BigInt_nonneg _ _ Hm) as Hm0.
    assert (Hpos : 0 < ChatbubbleFFmpegTime.microseconds length).
    { destruct (Z.eq_dec (ChatbubbleFFmpegTime.microseconds length) 0) as [E|]; [|lia].
      unfold fixedPrecisionBigIntDivide in Hdiv. rewrite E in Hdiv. discriminate. }
    destruct (fixedPrecisionBigIntDivide_value _ _ _ Hm0 Hpos Hdiv) as (q & Hq & Hval).
    repeat split; try assumption. rewrite Hq. eexists. split; [reflexivity|].
    unfold fraction_of. now rewrite Hval.
  - rewrite Hfound. cbn [fst snd set_stderr foundMainLength].
    split; [reflexivity|]. left. split; [reflexivity | exact Hsingle].
Qed.

(** Before the duration is known nothing is reported; if an event makes it
    known it is not negative. *)
Lemma on_not_found (event : ProcessEvent) (self : t) :
  foundMainLength self = None ->
  fractions (on read event self).2 = [] /\
  (foundMainLength (on read event self).1 = None \/
   exists length,
     foundMainLength (on read event self).1 = Some length /\
     0 <= ChatbubbleFFmpegTime.microseconds length).
Proof.
  intros Hnone. destruct event as [name|code signal|code signal|chunk|chunk];
    cbn [on].
  - auto.
  - destruct (negb (is_zero code)); auto.
  - destruct (is_zero code); [destruct (waiting self)|]; try destruct read; auto.
  - rewrite Hnone. auto.
  - rewrite Hnone.
    destruct (Regex.match_duration _) as [time|]; [|auto].
    destruct (ChatbubbleFFmpegTime.parse time) as [length|] eqn:E; [|auto].
    split; [reflexivity|]. right. exists length. split; [reflexivity|].
    now apply parse_nonneg in E.
Qed.

Lemma fractions_app (a b : list Emitted) :
  fractions (a ++ b)%list = (fractions a ++ fractions b)%list.
Proof. apply omap_app. Qed.

Lemma run_cons (event : ProcessEvent) (events : list ProcessEvent) (self : t) :
  (run read (event :: events) self).2
  = ((on read event self).2 ++ (run read events (on read event self).1).2)%list.
Proof.
  cbn [run]. destruct (on read event self) as [self1 e1]. cbn [fst snd].
  destruct (run read events self1) as [self2 e2]. reflexivity.
Qed.

Lemma out_times_cons (event : ProcessEvent) (events : list ProcessEvent) :
  out_times (event :: events) = (out_times [event] ++ out_times events)%list.
Proof. unfold out_times. cbn. destruct (out_time event); reflexivity. Qed.

Lemma run_found (events : list ProcessEvent) :
  forall (self : t) (length : ChatbubbleFFmpegTime.t),
    foundMainLength self = Some length ->
    0 <= ChatbubbleFFmpegTime.microseconds length ->
    exists ms,
      ms `sublist_of` out_times events /\
      Forall2 (reports (ChatbubbleFFmpegTime.microseconds length))
        (fractions (run read events self).2) ms.
Proof.
  induction events as [|event events IH]; intros self length Hfound Hlen.
  - exists []. split; [constructor | constructor].
  - rewrite run_cons, fractions_app, out_times_cons.
    destruct (on_found event self length Hfound Hlen) as [Hkeep Hstep].
    destruct (IH _ length Hkeep Hlen) as (ms & Hsub & Hall).
    destruct Hstep as [[-> Hout]|(f & m & -> & -> & Hrep)].
    + exists ms. split; [|exact Hall].
      destruct Hout as [->|[m ->]]; [exact Hsub | now constructor].
    + exists (m :: ms). split; [now constructor | now constructor].
Qed.

Lemma run_any (events : list ProcessEvent) :
  forall self : t,
    (forall length, foundMainLength self = Some length ->
                    0 <= ChatbubbleFFmpegTime.microseconds length) ->
    exists duration ms,
      ms `sublist_of` out_times events /\
      Forall2 (reports duration) (fractions (run read events self).2) ms.
Proof.
  induction events as [|event events IH]; intros self Hwf.
  - exists 1, []. split; constructor.
  - destruct (foundMainLength self) as [length|] eqn:Hfound.
    + exists (ChatbubbleFFmpegTime.microseconds length).
      now apply run_found; [|apply Hwf].
    + rewrite run_cons, fractions_app, out_times_cons.
      destruct (on_not_found event self Hfound) as [-> Hnext].
      destruct (IH (on read event self).1) as (duration & ms & Hsub & Hall).
      { intros length Hl. destruct Hnext as [Hn|(length' & Hl' & Hpos)]; congruence. }
      exists duration, ms. split; [|exact Hall]. now apply sublist_inserts_l.
Qed.

Lemma Forall_of_sublist {A} (P : A -> Prop) (small big : list A) :
  small `sublist_of` big -> Forall P big -> Forall P small.
Proof.
  induction 1 as [|x l1 l2 Hsub IH|x l1 l2 Hsub IH]; intros Hall; [constructor| |].
  - apply Forall_cons in Hall as [Hx Hall]. constructor; auto.
  - apply Forall_cons in Hall as [_ Hall]. auto.
Qed.

Lemma StronglySorted_sublist {A} (R : relation A) (small big : list A) :
  small `sublist_of` big -> StronglySorted R big -> StronglySorted R small.
Proof.
  induction 1 as [|x l1 l2 Hsub IH|x l1 l2 Hsub IH]; intros Hsorted.
  - constructor.
  - apply StronglySorted_inv in Hsorted as [Hs Hall]. constructor; [auto|].
    eapply Forall_of_sublist; eauto.
  - apply StronglySorted_inv in Hsorted as [Hs _]. auto.
Qed.

Lemma reports_sorted (duration : Z) (fs : list (option Q)) (ms : list Z) :
  Forall2 (reports duration) fs ms ->
  StronglySorted Z.le ms -> StronglySorted fraction_le fs.
Proof.
  induction 1 as [|f m fs ms Hrep Hall IH]; intros Hsorted; [constructor|].
  apply StronglySorted_inv in Hsorted as [Hs Hle]. constructor; [auto|].
  clear IH Hs. induction Hall as [|f' m' fs ms Hrep' _ IH]; [constructor|].
  apply Forall_cons in Hle as [Hmm Hle]. constructor; [|auto].
  destruct Hrep as (_ & Hd & q & -> & Hq), Hrep' as (_ & _ & q' & -> & Hq').
  cbn. rewrite Hq, Hq'. now apply fraction_of_monotone.
Qed.

Lemma reports_bounded (duration : Z) (fs : list (option Q)) (ms : list Z) :
  Forall2 (reports duration) fs ms ->
  Forall (fun f => exists q, f = Some q /\ (0 <= q <= 1)%Q) fs.
Proof.
  induction 1 as [|f m fs ms (_ & _ & q & -> & Hq) _ IH]; constructor; [|exact IH].
  exists q. split; [reflexivity|]. rewrite Hq. apply fraction_of_bounds.
Qed.

End ProgressRun.

(** C4, the claim as stated fails: the handler reports each chunk on its own,
    so a chunk with a smaller elapsed time lowers the fraction (here 0.5 and
    then 0.1 of a one-second input). *)
Lemma progress_can_decrease :
  let job :=
    FFmpegJob.constructor "ffmpeg"
      {| IO.method := IO.Streaming;
         IO.paths := {| IO.main := "unix:/tmp/m"; IO.bubble := "unix:/tmp/b";
                        IO.out := "unix:/tmp/o" |};
         IO.chunks := Some [] |} [] in
  let events :=
    [FFmpegJob.stderr_data "  Duration: 00:00:01.00, start: 0.000000";
     FFmpegJob.stdout_data "out_time_us=500000";
     FFmpegJob.stdout_data "out_time_us=100000"] in
  let emitted := (FFmpegJob.run (Return []) events job).2 in
  FFmpegJob.fractions emitted = [Some (50000 # 100000)%Q; Some (10000 # 100000)%Q] /\
  ~ StronglySorted FFmpegJob.fraction_le (FFmpegJob.fractions emitted).
Proof.
  cbv zeta.
  match goal with
  | |- ?l = _ /\ _ =>
      assert (E : l = [Some (50000 # 100000)%Q; Some (10000 # 100000)%Q])
        by (vm_compute; reflexivity)
  end.
  split; [exact E|]. rewrite E. intros Hsorted.
  apply StronglySorted_inv in Hsorted as [_ Hall].
  apply Forall_cons in Hall as [Hle _]. cbn in Hle. unfold Qle in Hle. cbn in Hle. lia.
Qed.

(** C4, amended. Every fraction a job emits lies in [[0,1]], whatever the
    process writes; the fractions are non-decreasing when the elapsed times
    of the successive stdout chunks are. *)
Theorem progress_bounded_and_ordered (read : Completion Bytes) (binary : string)
  (io : IO.t) (args : list string) (events : list FFmpegJob.ProcessEvent) :
  let emitted := (FFmpegJob.run read events (FFmpegJob.constructor binary io args)).2 in
  Forall (fun f => exists q, f = Some q /\ (0 <= q <= 1)%Q) (FFmpegJob.fractions emitted)
  /\ (StronglySorted Z.le (FFmpegJob.out_times events) ->
      StronglySorted FFmpegJob.fraction_le (FFmpegJob.fractions emitted)).
Proof.
  cbv zeta.
  destruct (run_any read events (FFmpegJob.constructor binary io args))
    as (duration & ms & Hsub & Hall); [discriminate|].
  split.
  - eapply reports_bounded, Hall.
  - intros Hsorted. eapply reports_sorted; [exact Hall|].
    eapply StronglySorted_sublist; eauto.
Qed.

Lemma progress_bounded_and_ordered_witness :
  let job :=
    FFmpegJob.constructor "ffmpeg"
      {| IO.method := IO.Streaming;
         IO.paths := {| IO.main := "unix:/tmp/m"; IO.bubble := "unix:/tmp/b";
                        IO.out := "unix:/tmp/o" |};
         IO.chunks := Some [] |} [] in
  let events :=
    [FFmpegJob.stderr_data "  Duration: 00:00:02.00, start: 0.000000";
     FFmpegJob.stdout_data "out_time_us=500000";
     FFmpegJob.stdout_data "out_time_us=1333333";
     FFmpegJob.stdout_data "out_time_us=2500000"] in
  StronglySorted FFmpegJob.fraction_le
    (FFmpegJob.fractions (FFmpegJob.run (Return []) events job).2).
Proof.
  cbv zeta. apply progress_bounded_and_ordered.
  vm_compute. repeat constructor; discriminate.
Defined.

(* --------------------------------------------------------------------- *)
(** ** Encoder job: abort                                                 *)
(* --------------------------------------------------------------------- *)

Section Abort.
Import FFmpegJob.
Variable read : Completion Bytes.







Lemma settles_progress (emitted later : list Emitted) :
  (forall e, e ∈ emitted -> exists f, e = progress f) ->
  Native.settles (emitted ++ later) = Native.settles later.
Proof.
  induction emitted as [|e emitted IH]; intros Hall; [reflexivity|].
  destruct (Hall e ltac:(constructor)) as [f ->]. cbn. apply IH.
  intros e' He'. apply Hall. now constructor.
Qed.



End Abort.




(* --------------------------------------------------------------------- *)
(** ** Encoder job: the crop rectangle in the argument list               *)
(* --------------------------------------------------------------------- *)

Section Arguments.

Lemma prefix_app (a b : string) : String.prefix a (a ++ b) = true.
Proof.
  induction a as [|c a IH]; cbn; [now destruct b|].
  destruct (ascii_dec c c); [exact IH | congruence].
Qed.

(** When the three spool files fare alike, [files] is three calls of
    [create] with the same outcome of the open. *)
Lemma files_alike (cwd : string) (fftemp : Temporary.FileManager) (open_succeeds : bool) :
  IO.files cwd fftemp open_succeeds
  = let '(main, fftemp, a1) :=
      Temporary.create cwd fftemp (Some "main") None open_succeeds in
    let '(bubble, fftemp, a2) :=
      Temporary.create cwd fftemp (Some "bubble") None open_succeeds in
    let '(out, fftemp, a3) :=
      Temporary.create cwd fftemp (Some "out") None open_succeeds in
    (main ← main; bubble ← bubble; out ← out;
     Return {| IO.method := IO.TemporaryFiles;
               IO.paths := {| IO.main := main; IO.bubble := bubble; IO.out := out |};
               IO.chunks := None |},
     fftemp, (a1 ++ a2 ++ a3)%list).
Proof.
  unfold IO.files, IO.files_each, IO.mk.
  destruct open_succeeds;
    repeat match goal with
           | |- context [Temporary.create ?c ?m ?p ?s ?o] =>
               destruct (Temporary.create c m p s o) as [[[?|?] ?] ?]
           end; reflexivity.
Qed.

(** The spool files of a job are made on any ready manager. *)
Lemma files_ready (cwd : string) (fftemp : Temporary.FileManager) :
  Temporary.status fftemp = Temporary.READY ->
  exists io, (IO.files cwd fftemp true).1.1 = Return io.
Proof.
  intros Hready. rewrite files_alike.
  rewrite create_ready by assumption. rewrite unique_eq.
  rewrite create_ready by assumption. rewrite unique_eq.
  rewrite create_ready by assumption. rewrite unique_eq.
  cbn. eauto.
Qed.

Lemma get_ready (cwd : string) (fftemp : Temporary.FileManager)
  (options : ChatbubbleFFmpegOptions) :
  Temporary.status fftemp = Temporary.READY ->
  exists io, (IO.get cwd fftemp true options).1.1 = Return io.
Proof.
  intros Hready. unfold IO.get. destruct (IO.choose _ _ _).
  - destruct (IO.streaming cwd fftemp) as [[io ?] ?]. cbn. eauto.
  - now apply files_ready.
Qed.

(** The crop filter opens the filter graph that follows [-filter_complex]. *)
Lemma buildArguments_crop (platform : string) (io : IO.t)
  (options : ChatbubbleFFmpegOptions) (rectangle : Rectangle Z) :
  crop (target options) = Some rectangle ->
  exists before filter after,
    FFmpegJob.buildArguments platform io options
    = Return (before ++ "-filter_complex" :: filter :: after)%list /\
    String.prefix (FFmpegJob.crop_filter rectangle) filter = true.
Proof.
  intros Hcrop. unfold FFmpegJob.buildArguments. rewrite Hcrop.
  set (start := (["-progress"; "-"; "-nostats"; "-y"]
                 ++ (if Js.startsWith (mime (file options)) "image"
                        && Js.startsWith (format_mime (target_type (target options))) "video"
                     then ["-loop"; "1"] else [])
                 ++ ["-i"; IO.main (IO.paths io)]
                 ++ ["-f"; "rawvideo"; "-pix_fmt"; "rgba"; "-s";
                     (Js.String_of_Z (rwidth (bounds (overlay options))) ++ "x"
                      ++ Js.String_of_Z (rheight (bounds (overlay options))))%string;
                     "-i"; IO.bubble (IO.paths io)])%list).
  destruct (transparent (overlay options)),
    (format_eqb (target_type (target options)) GIF);
    eexists start, _, _;
    (split; [unfold start; rewrite <- !app_assoc; reflexivity|]);
    rewrite ?string_app_assoc; apply prefix_app.
Qed.

End Arguments.

(** C2, the claim as stated fails: a request whose crop is 0 wide starts a
    job, and the rectangle is in the encoder's arguments. *)
Lemma degenerate_crop_reaches_encoder :
  exists job,
    Native.outcome (Native.ffmpeg Sample.host Sample.idle Sample.degenerate_request).1
    = Return (inl job) /\
    Native.job (Native.ffmpeg Sample.host Sample.idle Sample.degenerate_request).2
    = Some job /\
    FFmpegJob.binary job = "/usr/bin/ffmpeg" /\
    FFmpegJob.args job !! 14%nat = Some "-filter_complex" /\
    FFmpegJob.args job !! 15%nat
    = Some ("[0]crop=0:30:10:20:exact=1[cropped];"
            ++ "[1]alphaextract[trans];[cropped][trans]alphamerge[overlaid];"
            ++ "[overlaid]split=[a][b];[a]palettegen[pal];"
            ++ "[b][pal]paletteuse=dither=sierra2_4a[paletted];").
Proof.
  eexists. split; [reflexivity|]. split; [reflexivity|]. repeat split; reflexivity.
Qed.

(** C2, amended. No request is turned away for its crop rectangle: whenever
    the encoder binary is found and the channels are set up, the job is
    started and the rectangle, degenerate or not, is written into the crop
    filter that opens the filter graph of the argument list. *)
Theorem crop_is_passed_to_encoder (host : Native.Host) (state : Native.State)
  (options : ChatbubbleFFmpegOptions) (binary : string) (rectangle : Rectangle Z) :
  Native.located host = Return (Some binary) ->
  Native.open_succeeds host = true ->
  Temporary.status (Native.fftemp state) = Temporary.READY ->
  crop (target options) = Some rectangle ->
  exists job before filter after,
    Native.outcome (Native.ffmpeg host state options).1 = Return (inl job) /\
    Native.job (Native.ffmpeg host state options).2 = Some job /\
    FFmpegJob.binary job = binary /\
    FFmpegJob.args job = (before ++ "-filter_complex" :: filter :: after)%list /\
    String.prefix (FFmpegJob.crop_filter rectangle) filter = true.
Proof.
  intros Hloc Hopen Hready Hcrop.
  unfold Native.ffmpeg, Native.for_, Native.tryGetFfmpegPath. rewrite Hloc, Hopen.
  destruct (get_ready (Native.cwd host) (Native.fftemp state) options Hready)
    as [io Hio].
  destruct (IO.get _ _ true options) as [[io' fftemp'] acts]. cbn [fst] in Hio.
  subst io'. cbn [mbind Completion_bind].
  destruct (buildArguments_crop (Native.platform host) io options rectangle Hcrop)
    as (before & filter & after & -> & Hprefix).
  cbn. eexists _, before, filter, after.
  split; [reflexivity|]. split; [reflexivity|]. split; [reflexivity|].
  split; [reflexivity | exact Hprefix].
Qed.

Lemma crop_is_passed_to_encoder_witness :
  exists job before filter after,
    Native.outcome (Native.ffmpeg Sample.host Sample.idle Sample.degenerate_request).1
    = Return (inl job) /\
    Native.job (Native.ffmpeg Sample.host Sample.idle Sample.degenerate_request).2
    = Some job /\
    FFmpegJob.binary job = "/usr/bin/ffmpeg" /\
    FFmpegJob.args job = (before ++ "-filter_complex" :: filter :: after)%list /\
    String.prefix
      (FFmpegJob.crop_filter {| rx := 10; ry := 20; rwidth := 0; rheight := 30 |})
      filter = true.
Proof.
  apply crop_is_passed_to_encoder; reflexivity.
Defined.

(* --------------------------------------------------------------------- *)
(** ** Time texts: what [parse] accepts                                  *)
(* --------------------------------------------------------------------- *)

Lemma is_digit_uint_of_char (c : ascii) (d : Decimal.uint) :
  Js.is_digit c = true -> is_Some (uint_of_char c (Some d)).
Proof.
  destruct c as [[] [] [] [] [] [] [] []]; try discriminate;
    intros _; eexists; reflexivity.
Qed.

Lemma BigInt_digits (s : string) :
  Js.all_digits s = true -> is_Some (Js.BigInt s).
Proof.
  unfold Js.BigInt. induction s as [|c s IH]; simpl.
  - intros _. eexists; reflexivity.
  - intros [Hc Hs]%andb_prop. destruct (IH Hs) as [v Hv].
    destruct (NilEmpty.uint_of_string s) as [d|]; [|discriminate].
    destruct (is_digit_uint_of_char c d Hc) as [d' ->]. eexists; reflexivity.
Qed.

Lemma digit_spans_digits (s : string) :
  Forall (fun span => Js.all_digits span = true) (Js.digit_spans s).
Proof.
  induction s as [|c s IH]; [constructor|].
  cbn [Js.digit_spans]. destruct (Js.is_digit c) eqn:Hc; [|exact IH].
  destruct s as [|c' s']; [repeat constructor; simpl; now rewrite Hc|].
  destruct (Js.is_digit c') eqn:Hc'.
  - destruct (Js.digit_spans (String c' s')) as [|run runs].
    + repeat constructor; simpl; now rewrite Hc.
    + inversion IH; subst. constructor; [simpl; rewrite Hc; assumption|assumption].
  - constructor; [simpl; now rewrite Hc|exact IH].
Qed.

Lemma digit_spans_nil (s : string) :
  Js.digit_spans s = [] <->
  forallb (fun c => negb (Js.is_digit c)) (list_ascii_of_string s) = true.
Proof.
  induction s as [|c s IH]; [simpl; tauto|].
  cbn [Js.digit_spans list_ascii_of_string forallb].
  destruct (Js.is_digit c) eqn:Hc; simpl.
  - split; [|discriminate].
    destruct s as [|c' s']; [discriminate|].
    destruct (Js.is_digit c'); [|discriminate].
    destruct (Js.digit_spans (String c' s')); discriminate.
  - exact IH.
Qed.

Lemma parse_spans_digits (spans : list string) (j acc : Z) :
  Forall (fun span => Js.all_digits span = true) spans ->
  exists us, ChatbubbleFFmpegTime.parse_spans spans j acc = Return us.
Proof.
  intros Hall. revert j acc. induction Hall as [|span spans Hspan _ IH]; intros j acc.
  - eexists; reflexivity.
  - simpl. destruct (BigInt_digits span Hspan) as [v ->]. apply IH.
Qed.

(** X1. [parse] throws exactly on an input without a decimal digit, and then
    with "Bad time!"; on every other input it returns a non-negative count:
    the spans it hands to [BigInt] are digits only. *)
Theorem parse_throws_only_without_digits (input : string) :
  if forallb (fun c => negb (Js.is_digit c)) (list_ascii_of_string input)
  then ChatbubbleFFmpegTime.parse input = Throw "Bad time!"
  else exists length,
      ChatbubbleFFmpegTime.parse input = Return length /\
      0 <= ChatbubbleFFmpegTime.microseconds length.
Proof.
  destruct (forallb _ _) eqn:Hnone.
  - apply digit_spans_nil in Hnone. unfold ChatbubbleFFmpegTime.parse.
    now rewrite Hnone.
  - assert (Hsome : Js.digit_spans input <> []).
    { intros Hnil%digit_spans_nil. congruence. }
    destruct (parse_spans_digits (Js.digit_spans input)
                (Z.of_nat (List.length ChatbubbleFFmpegTime.MAGNITUDES) - 1) 0
                (digit_spans_digits input)) as [us Hus].
    assert (Hparse : ChatbubbleFFmpegTime.parse input
                     = Return (ChatbubbleFFmpegTime.new us)).
    { unfold ChatbubbleFFmpegTime.parse.
      destruct (Js.digit_spans input); [congruence|]. now rewrite Hus. }
    eexists. split; [exact Hparse|]. exact (parse_nonneg _ _ Hparse).
Qed.

(** X2. What [parse] makes of a clock text.  Of [h:m:s.f], each field a run
    of digits, the first three are hours, minutes and seconds, and the last is
    added as a count of microseconds whatever its number of digits: a
    two-digit fraction is not read as hundredths of a second. *)
Theorem parse_reads_clock (h m s f : string) :
  Js.all_digits h = true -> Js.all_digits m = true ->
  Js.all_digits s = true -> Js.all_digits f = true ->
  h <> "" -> m <> "" -> s <> "" -> f <> "" ->
  exists hours minutes seconds fraction,
    Js.BigInt h = Some hours /\ Js.BigInt m = Some minutes /\
    Js.BigInt s = Some seconds /\ Js.BigInt f = Some fraction /\
    ChatbubbleFFmpegTime.parse (h ++ ":" ++ m ++ ":" ++ s ++ "." ++ f)
    = Return (ChatbubbleFFmpegTime.new
                (((hours * 60 + minutes) * 60 + seconds) * 1000000 + fraction)).
Proof.
  intros Hh Hm Hs Hf Nh Nm Ns Nf.
  destruct (BigInt_digits h Hh) as [hours Hhours].
  destruct (BigInt_digits m Hm) as [minutes Hminutes].
  destruct (BigInt_digits s Hs) as [seconds Hseconds].
  destruct (BigInt_digits f Hf) as [fraction Hfraction].
  exists hours, minutes, seconds, fraction. repeat split; try assumption.
  unfold ChatbubbleFFmpegTime.parse.
  rewrite !one_char_app.
  rewrite (digit_spans_cut h), (digit_spans_cut m), (digit_spans_cut s),
    (digit_spans_run f) by (assumption || reflexivity).
  cbn [ChatbubbleFFmpegTime.parse_spans].
  rewrite Hhours, Hminutes, Hseconds, Hfraction.
  cbn [mbind Completion_bind]. do 2 f_equal.
  change (ChatbubbleFFmpegTime.magnitude_at
            (Z.of_nat (List.length ChatbubbleFFmpegTime.MAGNITUDES) - 1 - 1)) with 60.
  change (ChatbubbleFFmpegTime.magnitude_at
            (Z.of_nat (List.length ChatbubbleFFmpegTime.MAGNITUDES) - 1 - 1 - 1)) with 60.
  change (ChatbubbleFFmpegTime.magnitude_at
            (Z.of_nat (List.length ChatbubbleFFmpegTime.MAGNITUDES) - 1 - 1 - 1 - 1))
    with 1000000.
  change (ChatbubbleFFmpegTime.magnitude_at
            (Z.of_nat (List.length ChatbubbleFFmpegTime.MAGNITUDES) - 1 - 1 - 1 - 1 - 1))
    with 1.
  lia.
Qed.

Lemma parse_reads_clock_witness :
  exists hours minutes seconds fraction,
    Js.BigInt "00" = Some hours /\ Js.BigInt "01" = Some minutes /\
    Js.BigInt "02" = Some seconds /\ Js.BigInt "50" = Some fraction /\
    ChatbubbleFFmpegTime.parse ("00" ++ ":" ++ "01" ++ ":" ++ "02" ++ "." ++ "50")
    = Return (ChatbubbleFFmpegTime.new
                (((hours * 60 + minutes) * 60 + seconds) * 1000000 + fraction)).
Proof.
  apply (parse_reads_clock "00" "01" "02" "50"); first [reflexivity | discriminate].
Defined.

(* --------------------------------------------------------------------- *)
(** ** The fixed-point divider and [clamp]                               *)
(* --------------------------------------------------------------------- *)

Lemma string_of_uint_length (d : Decimal.uint) :
  String.length (NilEmpty.string_of_uint d) = Decimal.nb_digits d.
Proof. induction d; simpl; congruence. Qed.

Lemma of_uint_acc_lower (d : Decimal.uint) (acc : positive) :
  Z.pos acc * 10 ^ Z.of_nat (Decimal.nb_digits d) <= Z.pos (Pos.of_uint_acc d acc).
Proof.
  revert acc. induction d as [|d IH|d IH|d IH|d IH|d IH|d IH|d IH|d IH|d IH|d IH];
    intros acc; cbn [Pos.of_uint_acc Decimal.nb_digits];
    [simpl; lia|..];
    rewrite Nat2Z.inj_succ, Z.pow_succ_r by lia;
    (etransitivity; [|apply IH]);
    assert (0 < 10 ^ Z.of_nat (Decimal.nb_digits d)) by (apply Z.pow_pos_nonneg; lia);
    nia.
Qed.

Lemma normal_uint_lower (d : Decimal.uint) :
  Decimal.unorm d = d ->
  d = Decimal.zero \/
  10 ^ (Z.of_nat (Decimal.nb_digits d) - 1) <= Z.of_N (N.of_uint d).
Proof.
  intros Hnorm. unfold Decimal.unorm in Hnorm.
  destruct (Decimal.nzhead d) eqn:Hhead; try (left; now symmetry);
    subst d; right;
    try (exfalso; exact (nzhead_nonzero _ _ Hhead));
    cbn [Decimal.nb_digits N.of_uint Pos.of_uint Z.of_N];
    rewrite Nat2Z.inj_succ;
    replace (Z.succ (Z.of_nat (Decimal.nb_digits u)) - 1)
      with (Z.of_nat (Decimal.nb_digits u)) by lia;
    (etransitivity; [|apply of_uint_acc_lower]);
    assert (0 < 10 ^ Z.of_nat (Decimal.nb_digits u)) by (apply Z.pow_pos_nonneg; lia);
    nia.
Qed.

(** A non-negative integer below [10^k] prints with at most [k] digits. *)
Lemma String_of_Z_length (z : Z) (k : nat) :
  0 <= z < 10 ^ Z.of_nat k -> (1 <= k)%nat ->
  (String.length (Js.String_of_Z z) <= k)%nat.
Proof.
  intros [Hlo Hhi] Hk. rewrite String_of_Z_nonneg, string_of_uint_length by assumption.
  set (d := N.to_uint (Z.to_N z)).
  assert (Hof : N.of_uint d = Z.to_N z) by apply DecimalN.Unsigned.of_to.
  assert (Hnorm : Decimal.unorm d = d).
  { rewrite <- (DecimalN.Unsigned.to_of d), Hof. reflexivity. }
  destruct (normal_uint_lower d Hnorm) as [->|Hlow]; [simpl; lia|].
  rewrite Hof, Z2N.id in Hlow by assumption.
  assert (Hlt : 10 ^ (Z.of_nat (Decimal.nb_digits d) - 1) < 10 ^ Z.of_nat k) by lia.
  apply Z.pow_lt_mono_r_iff in Hlt; lia.
Qed.

Lemma iter_shift (k : nat) :
  Nat.iter k (fun shift => shift * 10) 1 = 10 ^ Z.of_nat k.
Proof.
  induction k as [|k IH]; [reflexivity|].
  rewrite Nat2Z.inj_succ, Z.pow_succ_r by lia. simpl. rewrite IH. lia.
Qed.

Lemma fixedPrecisionBigIntDivide_returns (numerator denominator precision : Z) :
  0 <= numerator -> 0 < denominator -> 1 <= precision ->
  exists text, fixedPrecisionBigIntDivide numerator denominator precision = Return text.
Proof.
  intros Hn Hd Hp. unfold fixedPrecisionBigIntDivide. rewrite iter_shift.
  destruct (Z.eqb_spec denominator 0) as [|_]; [lia|].
  rewrite !(Z.rem_mod_nonneg numerator denominator) by lia.
  pose proof (Z.mod_pos_bound numerator denominator Hd) as Hrem.
  destruct (negb _); [|eexists; reflexivity].
  assert (Hshift : 0 < 10 ^ Z.of_nat (Z.to_nat precision))
    by (apply Z.pow_pos_nonneg; lia).
  rewrite Z.quot_div_nonneg by nia.
  set (dec := numerator mod denominator * 10 ^ Z.of_nat (Z.to_nat precision) / denominator).
  assert (Hdec : 0 <= dec < 10 ^ Z.of_nat (Z.to_nat precision)).
  { unfold dec. split; [apply Z.div_pos; nia|].
    apply Z.div_lt_upper_bound; nia. }
  pose proof (String_of_Z_length dec (Z.to_nat precision) Hdec ltac:(lia)) as Hlen.
  destruct (Z.ltb_spec (precision - Z.of_nat (String.length (Js.String_of_Z dec))) 0);
    [lia|eexists; reflexivity].
Qed.

(** X3. The fixed-point divider on a non-negative numerator and a positive
    denominator, with at least one decimal asked for: it returns (the padding
    count is never negative), and at five decimals the numeral it prints
    denotes the quotient truncated to five decimals. *)
Theorem fixedPrecisionBigIntDivide_total (numerator denominator precision : Z) :
  0 <= numerator -> 0 < denominator -> 1 <= precision ->
  (exists text,
     fixedPrecisionBigIntDivide numerator denominator precision = Return text) /\
  exists text q,
    fixedPrecisionBigIntDivide numerator denominator 5 = Return text /\
    Number text = Some q /\
    (q == inject_Z (numerator * 100000 / denominator) / 100000)%Q.
Proof.
  intros Hn Hd Hp. split; [now apply fixedPrecisionBigIntDivide_returns|].
  destruct (fixedPrecisionBigIntDivide_returns numerator denominator 5 Hn Hd ltac:(lia))
    as [text Htext].
  destruct (fixedPrecisionBigIntDivide_value numerator denominator text Hn Hd Htext)
    as (q & Hq & Hval).
  now exists text, q.
Qed.

Lemma fixedPrecisionBigIntDivide_total_witness :
  (exists text, fixedPrecisionBigIntDivide 1 3 2 = Return text) /\
  exists text q,
    fixedPrecisionBigIntDivide 1 3 5 = Return text /\
    Number text = Some q /\
    (q == inject_Z (1 * 100000 / 3) / 100000)%Q.
Proof. apply (fixedPrecisionBigIntDivide_total 1 3 2); lia. Defined.

(** X4. The divider's two range errors: a zero denominator throws whatever
    the numerator and the precision are, and with no decimal asked for a
    division that leaves a remainder throws as well, whatever the signs, the
    padding count being negative. *)
Theorem fixedPrecisionBigIntDivide_throws (numerator denominator precision : Z) :
  fixedPrecisionBigIntDivide numerator 0 precision
  = Throw "RangeError: Division by zero" /\
  (denominator <> 0 -> precision <= 0 -> Z.rem numerator denominator <> 0 ->
   fixedPrecisionBigIntDivide numerator denominator precision
   = Throw "RangeError: Invalid count value").
Proof.
  split; [reflexivity|]. intros Hd Hp Hrem.
  unfold fixedPrecisionBigIntDivide.
  destruct (Z.eqb_spec denominator 0) as [|_]; [contradiction|].
  destruct (Z.eqb_spec (Z.rem numerator denominator) 0) as [|_]; [contradiction|].
  cbn [negb].
  pose proof (String_of_Z_nonempty
                (Z.quot (Z.rem numerator denominator
                         * Nat.iter (Z.to_nat precision) (fun shift => shift * 10) 1)
                        denominator)) as Hne.
  destruct (Js.String_of_Z _) as [|c s]; [contradiction|].
  destruct (Z.ltb_spec (precision - Z.of_nat (String.length (String c s))) 0);
    [reflexivity|simpl in *; lia].
Qed.

Lemma fixedPrecisionBigIntDivide_throws_witness :
  fixedPrecisionBigIntDivide 7 0 5 = Throw "RangeError: Division by zero" /\
  fixedPrecisionBigIntDivide (-1) 3 0 = Throw "RangeError: Invalid count value".
Proof.
  split.
  - exact (proj1 (fixedPrecisionBigIntDivide_throws 7 1 5)).
  - apply (proj2 (fixedPrecisionBigIntDivide_throws (-1) 3 0)); first [lia | vm_compute; lia].
Defined.

(** X5. [clamp] with ordered limits: the result lies between them, is the
    value itself when that already does, and the nearer limit otherwise; a
    [NaN] stays a [NaN]. *)
Theorem clamp_between (value lo hi : Q) :
  (lo <= hi)%Q ->
  clamp None lo hi = None /\
  exists r,
    clamp (Some value) lo hi = Some r /\
    (lo <= r <= hi)%Q /\
    ((lo <= value <= hi)%Q -> (r == value)%Q) /\
    ((value <= lo)%Q -> (r == lo)%Q) /\
    ((hi <= value)%Q -> (r == hi)%Q).
Proof.
  intros Hle. split; [reflexivity|].
  exists (Qmin hi (Qmax lo value)). split; [reflexivity|].
  pose proof (Q.max_spec lo value) as Hmax.
  pose proof (Q.min_spec hi (Qmax lo value)) as Hmin.
  revert Hmax Hmin. generalize (Qmin hi (Qmax lo value)) (Qmax lo value).
  intros r m [[? Hmax]|[? Hmax]] [[? Hmin]|[? Hmin]]; repeat split; intros; lra.
Qed.

Lemma clamp_between_witness :
  clamp None 0 1 = None /\
  exists r,
    clamp (Some (3 # 2)) 0 1 = Some r /\
    (0 <= r <= 1)%Q /\
    ((0 <= 3 # 2 <= 1)%Q -> (r == 3 # 2)%Q) /\
    ((3 # 2 <= 0)%Q -> (r == 0)%Q) /\
    ((1 <= 3 # 2)%Q -> (r == 1)%Q).
Proof. apply (clamp_between (3 # 2) 0 1). lra. Defined.

(* --------------------------------------------------------------------- *)
(** ** The job: progress, success and abort                              *)
(* --------------------------------------------------------------------- *)

Lemma last_cons_default {A : Type} (x d : A) (l : list A) :
  List.last (x :: l) d = List.last l x.
Proof.
  revert x d. induction l as [|y l IH]; intros x d; [reflexivity|].
  change (List.last (x :: y :: l) d) with (List.last (y :: l) d).
  now rewrite !IH.
Qed.

Lemma last_app_default {A : Type} (a b : list A) (d : A) :
  List.last (a ++ b)%list d = List.last b (List.last a d).
Proof.
  revert d. induction a as [|x a IH]; intros d; [reflexivity|].
  change ((x :: a) ++ b)%list with (x :: (a ++ b))%list.
  now rewrite !last_cons_default, IH.
Qed.

Section ProgressReports.
Import FFmpegJob.
Variable read : Completion Bytes.

Lemma run_state_cons (event : ProcessEvent) (events : list ProcessEvent) (self : t) :
  (run read (event :: events) self).1 = (run read events (on read event self).1).1.
Proof.
  cbn [run]. destruct (on read event self) as [self1 e1]. cbn [fst].
  destruct (run read events self1) as [self2 e2]. reflexivity.
Qed.

Lemma on_keeps_duration (event : ProcessEvent) (self : t)
  (length : ChatbubbleFFmpegTime.t) :
  foundMainLength self = Some length ->
  foundMainLength (on read event self).1 = Some length.
Proof.
  intros Hfound.
  destruct event as [name|code signal|code signal|chunk|chunk]; cbn [on].
  - exact Hfound.
  - destruct (negb (is_zero code)); exact Hfound.
  - destruct (is_zero code); [destruct (waiting self)|]; exact Hfound.
  - rewrite Hfound. destruct (Regex.match_out_time_us chunk); [|exact Hfound].
    destruct (Js.BigInt _); [|exact Hfound].
    destruct (fixedPrecisionBigIntDivide _ _ _); exact Hfound.
  - rewrite Hfound. reflexivity.
Qed.

(** The duration is read once: when it is known, no event changes it, a
    later [Duration:] line of the log included. *)
Lemma run_keeps_duration (events : list ProcessEvent) (self : t)
  (length : ChatbubbleFFmpegTime.t) :
  foundMainLength self = Some length ->
  foundMainLength (run read events self).1 = Some length.
Proof.
  revert self. induction events as [|event events IH]; intros self Hfound.
  - exact Hfound.
  - rewrite run_state_cons. apply IH. now apply on_keeps_duration.
Qed.

Lemma on_zero_duration (event : ProcessEvent) (self : t) :
  foundMainLength self = Some (ChatbubbleFFmpegTime.new 0) ->
  fractions (on read event self).2 = [] /\
  _progress (on read event self).1 = _progress self.
Proof.
  intros Hfound.
  destruct event as [name|code signal|code signal|chunk|chunk]; cbn [on].
  - split; reflexivity.
  - destruct (negb (is_zero code)); split; reflexivity.
  - destruct (is_zero code); [destruct (waiting self)|]; try destruct read;
      split; reflexivity.
  - rewrite Hfound. destruct (Regex.match_out_time_us chunk); [|split; reflexivity].
    destruct (Js.BigInt _); split; reflexivity.
  - rewrite Hfound. split; reflexivity.
Qed.

(** X6. A duration of zero silences the progress reports: the division
    throws in the stdout handler, so whatever the process prints, no progress
    event is emitted and the stored progress stays as it was; nor is the
    duration read again from a later line of the log. *)
Theorem zero_duration_reports_nothing (events : list ProcessEvent) (self : t) :
  foundMainLength self = Some (ChatbubbleFFmpegTime.new 0) ->
  fractions (run read events self).2 = [] /\
  _progress (run read events self).1 = _progress self /\
  foundMainLength (run read events self).1 = Some (ChatbubbleFFmpegTime.new 0).
Proof.
  intros Hfound. split; [|split; [|now apply run_keeps_duration]];
    revert self Hfound; induction events as [|event events IH]; intros self Hfound;
    try reflexivity;
    rewrite ?run_cons, ?run_state_cons, ?fractions_app;
    destruct (on_zero_duration event self Hfound) as [Hnone Hsame];
    rewrite ?Hnone, <- ?Hsame; apply IH; now apply on_keeps_duration.
Qed.

Lemma on_positive_duration (event : ProcessEvent) (self : t)
  (length : ChatbubbleFFmpegTime.t) :
  foundMainLength self = Some length ->
  0 < ChatbubbleFFmpegTime.microseconds length ->
  Forall2 (reports (ChatbubbleFFmpegTime.microseconds length))
    (fractions (on read event self).2) (out_times [event]) /\
  _progress (on read event self).1
  = List.last (fractions (on read event self).2) (_progress self).
Proof.
  intros Hfound Hpos.
  destruct event as [name|code signal|code signal|chunk|chunk]; cbn [on].
  - split; [constructor|reflexivity].
  - destruct (negb (is_zero code)); (split; [constructor|reflexivity]).
  - destruct (is_zero code); [destruct (waiting self)|]; try destruct read;
      (split; [constructor|reflexivity]).
  - rewrite Hfound. unfold out_times. cbn [omap list_omap out_time].
    destruct (Regex.match_out_time_us chunk) as [digits|]; cbn [mbind option_bind];
      [|split; [constructor|reflexivity]].
    destruct (Js.BigInt digits) as [m|] eqn:Hm; [|split; [constructor|reflexivity]].
    pose proof (BigInt_nonneg _ _ Hm) as Hm0.
    destruct (fixedPrecisionBigIntDivide_returns m
                (ChatbubbleFFmpegTime.microseconds length) 5 Hm0 Hpos ltac:(lia))
      as [text Hdiv].
    rewrite Hdiv. cbn [fst snd set_progress _progress fractions omap list_omap].
    destruct (fixedPrecisionBigIntDivide_value _ _ _ Hm0 Hpos Hdiv) as (q & Hq & Hval).
    split; [|reflexivity]. constructor; [|constructor].
    repeat split; try assumption. rewrite Hq. eexists. split; [reflexivity|].
    unfold fraction_of. now rewrite Hval.
  - rewrite Hfound. split; [constructor|reflexivity].
Qed.

(** X7. Once a positive duration is known, every stdout chunk that carries
    an elapsed time is answered by exactly one progress event, in order, with
    the fraction of that time; the job's stored progress is the fraction
    emitted last; and the duration stays the one first read. *)
Theorem progress_answers_every_chunk (events : list ProcessEvent) (self : t)
  (length : ChatbubbleFFmpegTime.t) :
  foundMainLength self = Some length ->
  0 < ChatbubbleFFmpegTime.microseconds length ->
  (Forall2 (reports (ChatbubbleFFmpegTime.microseconds length))
     (fractions (run read events self).2) (out_times events) /\
   _progress (run read events self).1
   = List.last (fractions (run read events self).2) (_progress self)) /\
  foundMainLength (run read events self).1 = Some length.
Proof.
  intros Hfound Hpos. split; [|now apply run_keeps_duration]. revert Hfound Hpos.
  revert self. induction events as [|event events IH]; intros self Hfound Hpos.
  - split; [constructor|reflexivity].
  - rewrite run_cons, run_state_cons, fractions_app, out_times_cons.
    destruct (on_positive_duration event self length Hfound Hpos) as [Hone Hlast].
    destruct (IH (on read event self).1 (on_keeps_duration event self length Hfound) Hpos)
      as [Hrest Hlast'].
    split; [now apply Forall2_app|].
    now rewrite Hlast', Hlast, last_app_default.
Qed.
End ProgressReports.

Lemma zero_duration_reports_nothing_witness :
  let job :=
    (FFmpegJob.run (Return [])
       [FFmpegJob.stderr_data "  Duration: 00:00:00.00, start: 0.000000"]
       Sample.running_job).1 in
  let events :=
    [FFmpegJob.stdout_data "out_time_us=40000"; FFmpegJob.stderr_data "Duration: 00:00:09.00";
     FFmpegJob.stdout_data "out_time_us=80000"] in
  FFmpegJob.fractions (FFmpegJob.run (Return []) events job).2 = [] /\
  FFmpegJob._progress (FFmpegJob.run (Return []) events job).1 = FFmpegJob._progress job /\
  FFmpegJob.foundMainLength (FFmpegJob.run (Return []) events job).1
  = Some (ChatbubbleFFmpegTime.new 0).
Proof.
  intros job events. apply (zero_duration_reports_nothing (Return []) events job).
  reflexivity.
Defined.

Lemma progress_answers_every_chunk_witness :
  let job :=
    (FFmpegJob.run (Return [])
       [FFmpegJob.stderr_data "  Duration: 00:00:02.00, start: 0.000000"]
       Sample.running_job).1 in
  let events :=
    [FFmpegJob.stdout_data "out_time_us=500000"; FFmpegJob.stderr_data "Duration: 00:00:09.00";
     FFmpegJob.stdout_data "out_time_us=1500000"] in
  (Forall2 (FFmpegJob.reports 2000000)
     (FFmpegJob.fractions (FFmpegJob.run (Return []) events job).2)
     (FFmpegJob.out_times events) /\
   FFmpegJob._progress (FFmpegJob.run (Return []) events job).1
   = List.last (FFmpegJob.fractions (FFmpegJob.run (Return []) events job).2)
       (FFmpegJob._progress job)) /\
  FFmpegJob.foundMainLength (FFmpegJob.run (Return []) events job).1
  = Some (ChatbubbleFFmpegTime.new 2000000).
Proof.
  intros job events.
  apply (progress_answers_every_chunk (Return []) events job
           (ChatbubbleFFmpegTime.new 2000000)); [reflexivity|simpl; lia].
Defined.

Section JobEnd.
Import FFmpegJob.
Variable read : Completion Bytes.

Lemma outputs_app (a b : list Emitted) :
  Delivery.outputs (a ++ b)%list = (Delivery.outputs a ++ Delivery.outputs b)%list.
Proof. apply omap_app. Qed.

Lemma on_outputs (event : ProcessEvent) (self : t) :
  (Delivery.outputs (on read event self).2 = [] /\
   (waiting self = true -> waiting (on read event self).1 = true))
  \/
  exists output,
    Delivery.outputs (on read event self).2 = [output] /\ read = Return output /\
    waiting self = false /\ waiting (on read event self).1 = true.
Proof.
  destruct event as [name|code signal|code signal|chunk|chunk]; cbn [on].
  - left. split; [reflexivity|tauto].
  - left. destruct (negb (is_zero code)); split; try reflexivity; tauto.
  - destruct (is_zero code); [|left; split; [reflexivity|tauto]].
    destruct (waiting self) eqn:Hw; [left; split; [reflexivity|tauto]|].
    destruct read as [buffer|]; [right; exists buffer; repeat split|].
    left. split; [reflexivity|]. reflexivity.
  - left. destruct (foundMainLength self); [|split; [reflexivity|tauto]].
    destruct (Regex.match_out_time_us chunk); [|split; [reflexivity|tauto]].
    destruct (Js.BigInt _); [|split; [reflexivity|tauto]].
    destruct (fixedPrecisionBigIntDivide _ _ _); split; try reflexivity; tauto.
  - left. destruct (foundMainLength self); [split; [reflexivity|tauto]|].
    destruct (Regex.match_duration _); [|split; [reflexivity|tauto]].
    destruct (ChatbubbleFFmpegTime.parse _); split; try reflexivity; tauto.
Qed.

Lemma run_waiting (events : list ProcessEvent) (self : t) :
  waiting self = true -> Delivery.outputs (run read events self).2 = [].
Proof.
  revert self. induction events as [|event events IH]; intros self Hw; [reflexivity|].
  rewrite run_cons, outputs_app.
  destruct (on_outputs event self) as [[-> Hkeep]|(output & _ & _ & Hw' & _)];
    [|congruence].
  now rewrite IH by auto.
Qed.

(** X8. A job succeeds at most once.  Whatever the process delivers, and
    however often it reports a clean close, the emitted events hold at most
    one ["success"]; it carries what [read] gave, and there is none at all
    when the job was already waiting for its output. *)
Theorem success_at_most_once (events : list ProcessEvent) (self : t) :
  Delivery.outputs (run read events self).2 = [] \/
  exists output,
    Delivery.outputs (run read events self).2 = [output] /\
    read = Return output /\ waiting self = false.
Proof.
  revert self. induction events as [|event events IH]; intros self; [now left|].
  rewrite run_cons, outputs_app.
  destruct (on_outputs event self) as [[-> Hkeep]|(output & -> & Hread & Hw & Hw')].
  - destruct (IH (on read event self).1) as [->|(output & -> & Hread & Hw)];
      [now left|].
    right. exists output. repeat split; [assumption|].
    destruct (waiting self); [|reflexivity]. rewrite Hkeep in Hw; congruence.
  - right. exists output. rewrite (run_waiting events _ Hw'). now repeat split.
Qed.

(** X9. Aborting is idempotent and spares a finished job.  After an abort
    the signal is set and a second abort does nothing; a job that had exited,
    or was aborted before, is neither killed nor reported, while a live one
    is killed with SIGKILL and reports exactly one failure, the abort error. *)
Theorem abort_once (self : t) :
  aborted (abort read self).1 = true /\
  abort read (abort read self).1 = ((abort read self).1, []) /\
  if aborted self || exited self
  then (abort read self).2 = [] /\ killed (abort read self).1 = killed self
  else
    (abort read self).2
    = [failure {| type := UNKNOWN_ERROR; error := NativeError "AbortError" |}] /\
    killed (abort read self).1 = Some "SIGKILL".
Proof.
  unfold abort. destruct (aborted self) eqn:Ha; [|destruct (exited self) eqn:He];
    cbn; rewrite ?Ha; repeat split; reflexivity.
Qed.
End JobEnd.

(* --------------------------------------------------------------------- *)
(** ** The entry points and the lookup of the encoder                    *)
(* --------------------------------------------------------------------- *)

Lemma abort_sets_signal (read : Completion Bytes) (self : FFmpegJob.t) :
  FFmpegJob.aborted (FFmpegJob.abort read self).1 = true /\
  FFmpegJob.abort read (FFmpegJob.abort read self).1 = ((FFmpegJob.abort read self).1, []).
Proof.
  unfold FFmpegJob.abort.
  destruct (FFmpegJob.aborted self) eqn:Ha; [|destruct (FFmpegJob.exited self) eqn:He];
    cbn; rewrite ?Ha; split; reflexivity.
Qed.

(** X10. Cancelling twice.  The second [cancelJob] finds the aborted job in
    the slot and emits nothing; nor is a cancelled job reported again when
    the next request supersedes it; and the manager is never touched. *)
Theorem cancelJob_is_idempotent (host : Native.Host) (state : Native.State)
  (options : ChatbubbleFFmpegOptions) :
  let cancelled := (Native.cancelJob host state).2 in
  Native.cancelJob host cancelled
  = ((fun _ => []) <$> Native.job state, cancelled) /\
  Native.previous (Native.ffmpeg host cancelled options).1
  = (fun job => (job, [])) <$> Native.job cancelled /\
  Native.fftemp cancelled = Native.fftemp state.
Proof.
  unfold Native.cancelJob, Native.ffmpeg.
  destruct state as [[current|] fftemp]; cbn;
    [|destruct (Native.for_ host fftemp options) as [[outcome fftemp'] actions];
      repeat split; reflexivity].
  destruct (abort_sets_signal (Native.read host) current) as (Ha & Hagain).
  destruct (FFmpegJob.abort (Native.read host) current) as [current' emitted]
    eqn:Habort.
  cbn in *. rewrite Hagain.
  destruct (Native.for_ host fftemp options) as [[outcome fftemp'] actions].
  repeat split; reflexivity.
Qed.

(** X11. A request that is rejected, its channels or arguments failing,
    leaves the slot holding the job it superseded, which is aborted: the slot
    is not emptied and no new job takes it. *)
Theorem rejected_request_keeps_aborted_job (host : Native.Host) (state : Native.State)
  (options : ChatbubbleFFmpegOptions) (message : string) :
  Native.outcome (Native.ffmpeg host state options).1 = Throw message ->
  Native.job (Native.ffmpeg host state options).2
  = fst <$> Native.previous (Native.ffmpeg host state options).1 /\
  match Native.job (Native.ffmpeg host state options).2 with
  | Some kept => FFmpegJob.aborted kept = true /\ Native.job state <> None
  | None => Native.job state = None
  end.
Proof.
  unfold Native.ffmpeg.
  destruct (Native.for_ host (Native.fftemp state) options) as [[outcome fftemp'] actions].
  cbn. intros ->. split; [reflexivity|].
  destruct (Native.job state) as [current|]; cbn; [|reflexivity].
  split; [apply abort_sets_signal|discriminate].
Qed.

Lemma rejected_request_keeps_aborted_job_witness :
  let host :=
    {| Native.platform := "linux"; Native.cwd := "/";
       Native.located := Return (Some "/usr/bin/ffmpeg");
       Native.open_succeeds := false; Native.read := Return [] |} in
  Native.job (Native.ffmpeg host Sample.busy Sample.degenerate_request).2
  = fst <$> Native.previous (Native.ffmpeg host Sample.busy Sample.degenerate_request).1 /\
  match Native.job (Native.ffmpeg host Sample.busy Sample.degenerate_request).2 with
  | Some kept => FFmpegJob.aborted kept = true /\ Native.job Sample.busy <> None
  | None => Native.job Sample.busy = None
  end.
Proof.
  apply (rejected_request_keeps_aborted_job _ Sample.busy Sample.degenerate_request "open").
  reflexivity.
Defined.

Lemma trimStart_app (blank s : Lookup.CodeUnits) :
  forallb Lookup.is_white_space blank = true ->
  Lookup.trimStart (blank ++ s)%list = Lookup.trimStart s.
Proof.
  induction blank as [|c blank IH]; [reflexivity|].
  cbn [forallb]. intros [Hc Hblank]%andb_prop.
  cbn [app Lookup.trimStart]. rewrite Hc. now apply IH.
Qed.

Lemma trimStart_blank (blank : Lookup.CodeUnits) :
  forallb Lookup.is_white_space blank = true -> Lookup.trimStart blank = [].
Proof.
  intros Hblank. rewrite <- (app_nil_r blank). now rewrite trimStart_app.
Qed.

Lemma trimStart_head (s : Lookup.CodeUnits) :
  match s with
  | c :: _ => negb (Lookup.is_white_space c)
  | [] => false
  end = true ->
  Lookup.trimStart s = s.
Proof.
  destruct s as [|c s]; [discriminate|]. intros Hc%negb_true_iff.
  cbn [Lookup.trimStart]. now rewrite Hc.
Qed.

Lemma indexOf_line (c : N) (line rest : Lookup.CodeUnits) :
  Lookup.indexOf c line = None ->
  Lookup.indexOf c (line ++ c :: rest)%list = Some (length line) /\
  take (length line) (line ++ c :: rest)%list = line.
Proof.
  induction line as [|c' line IH]; cbn [Lookup.indexOf app length take].
  - intros _. now rewrite N.eqb_refl.
  - destruct (N.eqb c' c); [discriminate|].
    destruct (Lookup.indexOf c line); [discriminate|]. intros _.
    destruct (IH eq_refl) as [-> ->]. split; reflexivity.
Qed.

(** X12. [locateBinary] answers with the first line of what the command
    printed, leading white space aside (all of it: the no-break space and the
    byte order mark too): nothing more of the output is looked at, and
    nothing of the line is trimmed at its end.  Output that is white space
    only is no binary, and a failing command is a rejection. *)
Theorem locateBinary_first_line (blank line rest : Lookup.CodeUnits) (message : string) :
  forallb Lookup.is_white_space blank = true ->
  match line with
  | c :: _ => negb (Lookup.is_white_space c)
  | [] => false
  end = true ->
  Lookup.indexOf 10 line = None ->
  Lookup.locateBinary (Return (blank ++ line ++ 10%N :: rest)%list) = Return (Some line) /\
  Lookup.locateBinary (Return (blank ++ line)%list) = Return (Some line) /\
  Lookup.locateBinary (Return blank) = Return None /\
  Lookup.locateBinary (Throw message) = Throw message.
Proof.
  intros Hblank Hhead Hline. unfold Lookup.locateBinary. cbn [mbind Completion_bind].
  rewrite !(trimStart_app blank), (trimStart_blank blank) by assumption.
  destruct (indexOf_line 10 line rest Hline) as [Hcut Htake].
  assert (Hfull : Lookup.trimStart (line ++ 10%N :: rest)%list
                  = (line ++ 10%N :: rest)%list).
  { apply trimStart_head. now destruct line. }
  rewrite Hfull, (trimStart_head line Hhead), Hcut, Hline, Htake.
  destruct line as [|c line]; [discriminate|]. repeat split; reflexivity.
Qed.

Lemma locateBinary_first_line_witness :
  let blank := [65279; 160; 10; 32]%N in
  let line := (Lookup.units "C:\ffmpeg.exe" ++ [13%N])%list in
  let rest := Lookup.units "D:\ffmpeg.exe" in
  Lookup.locateBinary (Return (blank ++ line ++ 10%N :: rest)%list) = Return (Some line) /\
  Lookup.locateBinary (Return (blank ++ line)%list) = Return (Some line) /\
  Lookup.locateBinary (Return blank) = Return None /\
  Lookup.locateBinary (Throw "ENOENT") = Throw "ENOENT".
Proof.
  intros blank line rest.
  apply (locateBinary_first_line blank line rest "ENOENT"); reflexivity.
Defined.

(** X13. [isFFmpegSupported] and [ffmpeg] agree.  When the lookup finds no
    binary, a request is answered with the lookup's failure at once: no file
    or socket is made, the manager and its counter are as before, the slot is
    emptied, and yet the job that was running has been aborted.  When it
    finds one, no request is answered with a failure without a job. *)
Theorem unsupported_request_touches_nothing (host : Native.Host)
  (state : Native.State) (options : ChatbubbleFFmpegOptions) :
  let started := (Native.ffmpeg host state options).1 in
  let after := (Native.ffmpeg host state options).2 in
  Native.previous started = FFmpegJob.abort (Native.read host) <$> Native.job state /\
  if Lookup.isFFmpegSupported host
  then match Native.outcome started with
       | Return (inr _) => False
       | _ => True
       end
  else
    exists failure,
      Native.outcome started = Return (inr failure) /\
      (type failure = NO_BINARY_AVAILABLE \/ type failure = ERROR_FINDING_BINARY) /\
      Native.actions started = [] /\
      Native.job after = None /\
      Native.fftemp after = Native.fftemp state.
Proof.
  unfold Lookup.isFFmpegSupported, Native.ffmpeg, Native.for_.
  destruct (Native.tryGetFfmpegPath host) as [binary|failure] eqn:Hfound.
  - destruct (IO.get _ _ _ _) as [[[io|m] fftemp'] actions]; cbn;
      [destruct (FFmpegJob.buildArguments _ _ _)|]; cbn; split; trivial.
  - cbn. split; [reflexivity|]. exists failure. repeat split.
    unfold Native.tryGetFfmpegPath in Hfound.
    destruct (Native.located host) as [[binary|]|name]; inversion Hfound; cbn; tauto.
Qed.

(* --------------------------------------------------------------------- *)
(** ** Channels, placement of files, sweeps and bridges                  *)
(* --------------------------------------------------------------------- *)

Lemma prefixed_names_distinct (cwd dir : string) (p1 p2 : string) (k1 k2 : Z) :
  Temporary.plain_prefix (Some p1) = true -> Temporary.plain_prefix (Some p2) = true ->
  0 <= k1 -> 0 <= k2 -> k1 <> k2 ->
  Path.resolve cwd [dir; p1 ++ Js.String_of_Z k1 ++ ""]
  <> Path.resolve cwd [dir; p2 ++ Js.String_of_Z k2 ++ ""].
Proof.
  intros Hp1 Hp2 Hk1 Hk2 Hne Heq.
  apply resolve_name_inj in Heq.
  - apply (generated_name_counter (Some p1) None (Some p2) None k1 k2) in Heq;
      auto.
  - apply (generated_name_segment (Some p1) None k1); auto.
  - apply (generated_name_segment (Some p2) None k2); auto.
Qed.

Lemma create_opened (cwd : string) (self : Temporary.FileManager)
  (prefix suffix : option string) :
  Temporary.status self = Temporary.READY ->
  let made :=
    Path.resolve cwd
      [Temporary.path self;
       default "" prefix ++ Js.String_of_Z (Temporary.counter self) ++ default "" suffix] in
  Temporary.create cwd self prefix suffix true
  = (Return made,
     {| Temporary.config_cleanup := Temporary.config_cleanup self;
        Temporary.path := Temporary.path self;
        Temporary.registered := {[ made ]} ∪ Temporary.registered self;
        Temporary.status := Temporary.READY;
        Temporary.counter := Temporary.counter self + 1 |},
     [Open made]).
Proof.
  intros Hready made. rewrite create_ready by assumption. rewrite unique_eq.
  unfold Temporary.register. cbn. now rewrite Hready.
Qed.

(** X14. Spool files.  On a ready manager whose files can be opened,
    [files] answers with three different paths, made from the prefixes main,
    bubble and out and three successive counter values; each file is opened
    and registered, and nothing else is. *)
Theorem files_makes_three_spools (cwd : string) (fftemp : Temporary.FileManager) :
  Temporary.status fftemp = Temporary.READY ->
  0 <= Temporary.counter fftemp ->
  let name prefix k :=
    Path.resolve cwd
      [Temporary.path fftemp; prefix ++ Js.String_of_Z (Temporary.counter fftemp + k) ++ ""] in
  let main := name "main" 0 in
  let bubble := name "bubble" 1 in
  let out := name "out" 2 in
  exists fftemp',
    IO.files cwd fftemp true
    = (Return {| IO.method := IO.TemporaryFiles;
                 IO.paths := {| IO.main := main; IO.bubble := bubble; IO.out := out |};
                 IO.chunks := None |},
       fftemp', [Open main; Open bubble; Open out]) /\
    NoDup [main; bubble; out] /\
    Temporary.registered fftemp' = {[ main; bubble; out ]} ∪ Temporary.registered fftemp /\
    Temporary.counter fftemp' = Temporary.counter fftemp + 3 /\
    Temporary.status fftemp' = Temporary.READY.
Proof.
  intros Hready Hcounter name main bubble out.
  rewrite files_alike.
  rewrite (create_opened cwd fftemp (Some "main") None Hready). cbn zeta.
  rewrite create_opened by reflexivity. cbn zeta.
  rewrite create_opened by reflexivity. cbn zeta.
  cbn [Temporary.path Temporary.counter Temporary.registered Temporary.config_cleanup
       default mbind Completion_bind].
  replace (Temporary.counter fftemp + 1 + 1) with (Temporary.counter fftemp + 2) by lia.
  replace (Temporary.counter fftemp + 2 + 1) with (Temporary.counter fftemp + 3) by lia.
  subst main bubble out name. cbn beta. rewrite Z.add_0_r.
  eexists. split; [reflexivity|]. cbn [Temporary.registered Temporary.counter Temporary.status].
  split; [|split; [|split; reflexivity]].
  - rewrite !NoDup_cons, !not_elem_of_cons.
    repeat split; try apply not_elem_of_nil; try apply NoDup_nil_2;
      apply prefixed_names_distinct; try reflexivity; lia.
  - set_solver.
Qed.

Lemma files_makes_three_spools_witness :
  let name prefix k :=
    Path.resolve "/"
      [Temporary.path Sample.fftemp;
       prefix ++ Js.String_of_Z (Temporary.counter Sample.fftemp + k) ++ ""] in
  let main := name "main" 0 in
  let bubble := name "bubble" 1 in
  let out := name "out" 2 in
  exists fftemp',
    IO.files "/" Sample.fftemp true
    = (Return {| IO.method := IO.TemporaryFiles;
                 IO.paths := {| IO.main := main; IO.bubble := bubble; IO.out := out |};
                 IO.chunks := None |},
       fftemp', [Open main; Open bubble; Open out]) /\
    NoDup [main; bubble; out] /\
    Temporary.registered fftemp'
    = {[ main; bubble; out ]} ∪ Temporary.registered Sample.fftemp /\
    Temporary.counter fftemp' = Temporary.counter Sample.fftemp + 3 /\
    Temporary.status fftemp' = Temporary.READY.
Proof. apply (files_makes_three_spools "/" Sample.fftemp); [reflexivity|simpl; lia]. Defined.

(** X15. Socket bridges.  [streaming] makes three bridges whose paths are
    different, made from the prefix [socket.] and three successive counter
    values; the servers listen at once, the channel names are the paths
    behind [unix:], and nothing is registered or opened at this point. *)
Theorem streaming_makes_three_bridges (cwd : string) (fftemp : Temporary.FileManager) :
  0 <= Temporary.counter fftemp ->
  let name k :=
    Path.resolve cwd
      [Temporary.path fftemp;
       "socket." ++ Js.String_of_Z (Temporary.counter fftemp + k) ++ ""] in
  exists fftemp',
    IO.streaming cwd fftemp
    = ({| IO.method := IO.Streaming;
          IO.paths := {| IO.main := "unix:" ++ name 0; IO.bubble := "unix:" ++ name 1;
                         IO.out := "unix:" ++ name 2 |};
          IO.chunks := Some [] |},
       fftemp', [Listen (name 0); Listen (name 1); Listen (name 2)]) /\
    NoDup [name 0; name 1; name 2] /\
    Temporary.registered fftemp' = Temporary.registered fftemp /\
    Temporary.counter fftemp' = Temporary.counter fftemp + 3 /\
    Temporary.status fftemp' = Temporary.status fftemp.
Proof.
  intros Hcounter name. unfold IO.streaming, SocketPipe.constructor, IO.url.
  repeat (rewrite unique_eq;
          cbn [Temporary.path Temporary.counter Temporary.registered
               Temporary.config_cleanup default SocketPipe.path]).
  cbn [Temporary.path Temporary.counter Temporary.registered Temporary.config_cleanup
       default SocketPipe.path app].
  replace (Temporary.counter fftemp + 1 + 1) with (Temporary.counter fftemp + 2) by lia.
  replace (Temporary.counter fftemp + 2 + 1) with (Temporary.counter fftemp + 3) by lia.
  subst name. cbn beta. rewrite Z.add_0_r.
  eexists. split; [reflexivity|]. cbn [Temporary.registered Temporary.counter Temporary.status].
  split; [|repeat split; reflexivity].
  rewrite !NoDup_cons, !not_elem_of_cons.
  rewrite <- (Z.add_0_r (Temporary.counter fftemp)) at 1 2.
  repeat split; try apply not_elem_of_nil; try apply NoDup_nil_2;
    apply prefixed_names_distinct; try reflexivity; lia.
Qed.

Lemma streaming_makes_three_bridges_witness :
  let name k :=
    Path.resolve "/"
      [Temporary.path Sample.fftemp;
       "socket." ++ Js.String_of_Z (Temporary.counter Sample.fftemp + k) ++ ""] in
  exists fftemp',
    IO.streaming "/" Sample.fftemp
    = ({| IO.method := IO.Streaming;
          IO.paths := {| IO.main := "unix:" ++ name 0; IO.bubble := "unix:" ++ name 1;
                         IO.out := "unix:" ++ name 2 |};
          IO.chunks := Some [] |},
       fftemp', [Listen (name 0); Listen (name 1); Listen (name 2)]) /\
    NoDup [name 0; name 1; name 2] /\
    Temporary.registered fftemp' = Temporary.registered Sample.fftemp /\
    Temporary.counter fftemp' = Temporary.counter Sample.fftemp + 3 /\
    Temporary.status fftemp' = Temporary.status Sample.fftemp.
Proof. apply (streaming_makes_three_bridges "/" Sample.fftemp). simpl; lia. Defined.

(** X16. [files] registers exactly the files it opens.  The three files go
    their own ways: whichever opens succeed, those paths are registered, also
    when another file cannot be opened or a write fails and the call rejects;
    the call resolves only when all three are stored.  With the directory
    missing nothing is opened or registered.  The three names are used up in
    every case. *)
Theorem files_registers_what_it_opens (cwd : string) (fftemp : Temporary.FileManager)
  (main bubble out : IO.Spool) :
  let made := IO.files_each cwd fftemp main bubble out in
  let name prefix k :=
    Path.resolve cwd
      [Temporary.path fftemp; prefix ++ Js.String_of_Z (Temporary.counter fftemp + k) ++ ""] in
  let opened (fares : IO.Spool) (path : string) : gset string :=
    match fares with
    | IO.NotOpened => ∅
    | _ => {[ path ]}
    end in
  Temporary.counter made.1.2 = Temporary.counter fftemp + 3 /\
  match Temporary.status fftemp with
  | Temporary.PENDING =>
      (exists message, made.1.1 = Throw message) /\ made.2 = [] /\
      Temporary.registered made.1.2 = Temporary.registered fftemp
  | Temporary.READY =>
      made.2 = [Open (name "main" 0); Open (name "bubble" 1); Open (name "out" 2)] /\
      Temporary.registered made.1.2
      = opened main (name "main" 0) ∪ opened bubble (name "bubble" 1)
        ∪ opened out (name "out" 2) ∪ Temporary.registered fftemp /\
      match main, bubble, out with
      | IO.Stored, IO.Stored, IO.Stored => exists io, made.1.1 = Return io
      | _, _, _ => exists message, made.1.1 = Throw message
      end
  end.
Proof.
  cbn zeta. unfold IO.files_each, IO.mk, Temporary.create.
  repeat (rewrite unique_eq; cbn [Temporary.status Temporary.path Temporary.counter]).
  rewrite Z.add_0_r.
  replace (Temporary.counter fftemp + 1 + 1) with (Temporary.counter fftemp + 2) by lia.
  destruct (Temporary.status fftemp) eqn:Hstatus.
  - cbn -[Path.resolve String.append Z.add]. split; [lia|]. repeat split. eauto.
  - destruct main, bubble, out; cbn -[Path.resolve String.append Z.add];
      rewrite ?string_app_nil_r;
      replace (Temporary.counter fftemp + 1 + 1) with (Temporary.counter fftemp + 2)
        by lia;
      (split; [lia|]); (split; [reflexivity|]); (split; [set_solver|eauto]).
Qed.

Section PathInside.
Import Path.

Lemma split_concat (segs : list string) :
  segs <> [] -> Forall (fun seg => is_segment seg = true) segs ->
  split (String.concat "/" segs) = segs.
Proof.
  induction segs as [|seg segs IH]; [congruence|]. intros _ Hall.
  inversion Hall as [|? ? Hseg Hrest]; subst.
  apply is_segment_parts in Hseg as (_ & _ & _ & Hplain).
  destruct segs as [|seg' segs].
  - now apply split_plain.
  - change (String.concat "/" (seg :: seg' :: segs))
      with (seg ++ String "/" (String.concat "/" (seg' :: segs))).
    rewrite split_at_sep, (split_plain seg Hplain), IH by (auto; discriminate).
    reflexivity.
Qed.

Lemma fold_push_segments (segs stack : list string) :
  Forall (fun seg => is_segment seg = true) segs ->
  fold_left push_segment segs stack = (rev segs ++ stack)%list.
Proof.
  intros Hall. revert stack. induction Hall as [|seg segs Hseg _ IH]; intros stack.
  - reflexivity.
  - cbn [fold_left rev]. rewrite (push_segment_plain stack seg Hseg), IH.
    now rewrite <- app_assoc.
Qed.

(** Resolving a plain name against a normal absolute directory appends the
    name as one more segment; the working directory plays no part. *)
Lemma resolve_inside (cwd : string) (segs : list string) (name : string) :
  Forall (fun seg => is_segment seg = true) segs -> is_segment name = true ->
  resolve cwd ["/" ++ String.concat "/" segs; name]
  = "/" ++ String.concat "/" (segs ++ [name]).
Proof.
  intros Hall Hname. unfold resolve. cbn [rev app resolve_loop].
  pose proof (is_segment_relative name Hname) as Hrel.
  pose proof (is_segment_parts name Hname) as (Hne & _ & _ & Hplain).
  destruct (String.eqb_spec name ""); [congruence|]. rewrite Hrel.
  change ("/" ++ String.concat "/" segs) with (String "/" (String.concat "/" segs)).
  change (String.eqb (String "/" (String.concat "/" segs)) "") with false.
  change (isAbsolute (String "/" (String.concat "/" segs))) with true. cbn iota.
  change ("/" ++ String.concat "/" (segs ++ [name]))
    with (String "/" (String.concat "/" (segs ++ [name]))).
  f_equal. unfold normalize.
  change (String "/" (String.concat "/" segs) ++ "/" ++ name ++ "/" ++ "")
    with (String "/" (String.concat "/" segs ++ String "/" (name ++ String "/" ""))).
  change (split (String "/" ?x)) with (EmptyString :: split x).
  rewrite split_at_sep, split_at_sep, (split_plain name Hplain).
  cbn [split fold_left]. rewrite push_segment_empty.
  rewrite !fold_left_app. cbn [fold_left]. rewrite push_segment_empty.
  rewrite (push_segment_plain _ name Hname). cbn [rev].
  destruct segs as [|seg segs].
  - reflexivity.
  - rewrite split_concat by (auto; discriminate).
    rewrite fold_push_segments by assumption. now rewrite app_nil_r, rev_involutive.
Qed.
End PathInside.

Lemma scoped_path (cwd tmpdir : string) (basis : Configuration.Basis) (scope : string)
  (made : bool) :
  Temporary.path (Configuration.scoped cwd tmpdir basis scope made)
  = Configuration.path cwd tmpdir basis scope.
Proof. unfold Configuration.scoped, Temporary.constructor. now destruct made. Qed.

(** X17. A file made by [create] lies directly in the manager's directory:
    when that is a normal absolute path and the name parts are plain, the
    path returned is the directory's segments followed by the one segment
    prefix, counter, suffix, wherever the process's working directory is. *)
Theorem create_places_file_in_directory (cwd : string) (self : Temporary.FileManager)
  (segs : list string) (prefix suffix : option string) :
  Temporary.path self = "/" ++ String.concat "/" segs ->
  Forall (fun seg => Path.is_segment seg = true) segs ->
  Temporary.status self = Temporary.READY ->
  0 <= Temporary.counter self ->
  Temporary.plain_prefix prefix = true -> Temporary.plain_suffix suffix = true ->
  let name :=
    default "" prefix ++ Js.String_of_Z (Temporary.counter self) ++ default "" suffix in
  (Temporary.create cwd self prefix suffix true).1.1
  = Return ("/" ++ String.concat "/" (segs ++ [name])) /\
  Path.is_segment name = true.
Proof.
  intros Hpath Hsegs Hready Hcounter Hprefix Hsuffix name.
  pose proof (generated_name_segment prefix suffix _ Hprefix Hsuffix Hcounter) as Hname.
  split; [|exact Hname].
  rewrite create_ready by assumption. rewrite unique_eq. cbn [fst].
  rewrite Hpath. now rewrite resolve_inside.
Qed.

Lemma create_places_file_in_directory_witness :
  let name :=
    default "" (Some "main") ++ Js.String_of_Z (Temporary.counter Sample.fftemp)
    ++ default "" (Some ".png") in
  (Temporary.create "/home/user" Sample.fftemp (Some "main") (Some ".png") true).1.1
  = Return ("/" ++ String.concat "/" (["tmp"; "vencord"; "chatbubble"; "ffmpeg"] ++ [name]))
  /\ Path.is_segment name = true.
Proof.
  apply (create_places_file_in_directory "/home/user" Sample.fftemp
           ["tmp"; "vencord"; "chatbubble"; "ffmpeg"] (Some "main") (Some ".png"));
    first [reflexivity | simpl; lia | repeat constructor].
Defined.

(** X18. A manager scoped under another manager has that manager's
    directory followed by the scope as its path, whatever the working
    directory, the system's directory for temporary files, and whether or not
    the directory could be made. *)
Theorem scoped_manager_path (cwd tmpdir : string) (parent : Temporary.FileManager)
  (segs : list string) (scope : string) (made : bool) :
  Temporary.path parent = "/" ++ String.concat "/" segs ->
  Forall (fun seg => Path.is_segment seg = true) segs ->
  Path.is_segment scope = true ->
  Temporary.path
    (Configuration.scoped cwd tmpdir (Configuration.BasisManager parent) scope made)
  = "/" ++ String.concat "/" (segs ++ [scope]).
Proof.
  intros Hparent Hsegs Hscope. rewrite scoped_path. unfold Configuration.path.
  rewrite Hparent. now apply resolve_inside.
Qed.

Lemma scoped_manager_path_witness :
  Temporary.path
    (Configuration.scoped "/home/user" "/var/tmp"
       (Configuration.BasisManager Sample.fftemp) "job" false)
  = "/" ++ String.concat "/" (["tmp"; "vencord"; "chatbubble"; "ffmpeg"] ++ ["job"]).
Proof.
  apply (scoped_manager_path "/home/user" "/var/tmp" Sample.fftemp
           ["tmp"; "vencord"; "chatbubble"; "ffmpeg"] "job" false);
    first [reflexivity | repeat constructor].
Defined.

(** X19. Where the plugin keeps its files.  With a normal absolute system
    directory for temporary files, the plugin's manager sits at
    [vencord/chatbubble/ffmpeg] below it, whatever the working directory and
    whether or not the three directories could be made. *)
Theorem fftemp_path (cwd : string) (segs : list string) (made made' made'' : bool) :
  Forall (fun seg => Path.is_segment seg = true) segs ->
  Temporary.path
    (Configuration.fftemp cwd ("/" ++ String.concat "/" segs) made made' made'')
  = "/" ++ String.concat "/" (segs ++ ["vencord"; "chatbubble"; "ffmpeg"]).
Proof.
  intros Hsegs.
  unfold Configuration.fftemp, Configuration.Chatbubblification,
    Configuration.Vencord_Manager.
  rewrite scoped_path. unfold Configuration.path at 1. rewrite scoped_path.
  unfold Configuration.path at 1. rewrite scoped_path.
  unfold Configuration.path, Configuration.resolveBackend.
  rewrite String.eqb_refl.
  rewrite (resolve_inside cwd segs "vencord") by (auto; reflexivity).
  rewrite (resolve_inside cwd (segs ++ ["vencord"]) "chatbubble");
    [|apply Forall_app; split; [assumption|repeat constructor]|reflexivity].
  rewrite (resolve_inside cwd ((segs ++ ["vencord"]) ++ ["chatbubble"]) "ffmpeg");
    [|repeat (apply Forall_app; split); try assumption; repeat constructor|reflexivity].
  now rewrite <- !app_assoc.
Qed.

Lemma fftemp_path_witness :
  Temporary.path
    (Configuration.fftemp "/home/user" ("/" ++ String.concat "/" ["tmp"]) true true false)
  = "/" ++ String.concat "/" (["tmp"] ++ ["vencord"; "chatbubble"; "ffmpeg"]).
Proof. apply (fftemp_path "/home/user" ["tmp"] true true false). repeat constructor. Defined.

Lemma getPathsToDelete_listed (cwd : string) (self : Temporary.FileManager)
  (entries : list Temporary.Dirent) (filter : option Temporary.Filter) (target : string) :
  target ∈ Temporary.getPathsToDelete cwd self entries filter ->
  exists entry,
    entry ∈ entries /\ target = Temporary.entry_path cwd entry /\
    Temporary.call_filter (default Temporary.FILTER_INCLUDE_ALL filter) target entry = true /\
    (Temporary.include (Temporary.config_cleanup self) <> Temporary.ALL ->
     Temporary.isDirectory entry = false).
Proof.
  unfold Temporary.getPathsToDelete.
  destruct (Temporary.include (Temporary.config_cleanup self));
    intros (entry & Hin & Hsome)%list_elem_of_omap; exists entry; cbn zeta in Hsome.
  - destruct (Temporary.isDirectory entry) eqn:Hdir; [discriminate|].
    destruct (Temporary.call_filter _ _ entry) eqn:Hf; [|discriminate].
    injection Hsome as <-. auto.
  - destruct (Temporary.call_filter _ _ entry) eqn:Hf; [|discriminate].
    injection Hsome as <-. repeat split; auto. congruence.
  - destruct (Temporary.isDirectory entry) eqn:Hdir; [discriminate|].
    cbn [orb] in Hsome. destruct (negb _); [discriminate|].
    destruct (Temporary.call_filter _ _ entry) eqn:Hf; [|discriminate].
    injection Hsome as <-. auto.
Qed.

(** X20. What a sweep may do.  [cleanup] only ever removes: each action is
    the removal of the manager's own directory, which takes the policy that
    ascends to it, or of an entry the directory listing named and the filter
    accepted, and unless everything is included that entry is no directory.
    A manager that is not ready, a policy that never cleans, and a policy for
    the exit alone outside the exit do nothing. *)
Theorem cleanup_removes_only_listed (cwd : string) (exiting : bool)
  (self : Temporary.FileManager) (readdir : Completion (list Temporary.Dirent))
  (filter : option Temporary.Filter) :
  let swept := Temporary.cleanup cwd exiting self readdir filter in
  let policy := Temporary.config_cleanup self in
  Forall
    (fun action =>
       (action = Rm (Temporary.path self) /\ Temporary.ascension policy = Temporary.SELF)
       \/
       exists entries entry,
         readdir = Return entries /\ entry ∈ entries /\
         action = Rm (Temporary.entry_path cwd entry) /\
         Temporary.call_filter (default Temporary.FILTER_INCLUDE_ALL filter)
           (Temporary.entry_path cwd entry) entry = true /\
         (Temporary.include policy <> Temporary.ALL ->
          Temporary.isDirectory entry = false))
    swept /\
  match Temporary.status self, Temporary.when policy, exiting with
  | Temporary.PENDING, _, _ => swept = []
  | _, Temporary.NEVER, _ => swept = []
  | _, Temporary.ONLY_EXIT, false => swept = []
  | _, _, _ => True
  end.
Proof.
  cbn zeta. split.
  - unfold Temporary.cleanup.
    assert (Hlisted : forall entries,
               readdir = Return entries ->
               Forall
                 (fun action =>
                    (action = Rm (Temporary.path self) /\
                     Temporary.ascension (Temporary.config_cleanup self) = Temporary.SELF)
                    \/
                    exists entries entry,
                      readdir = Return entries /\ entry ∈ entries /\
                      action = Rm (Temporary.entry_path cwd entry) /\
                      Temporary.call_filter (default Temporary.FILTER_INCLUDE_ALL filter)
                        (Temporary.entry_path cwd entry) entry = true /\
                      (Temporary.include (Temporary.config_cleanup self) <> Temporary.ALL ->
                       Temporary.isDirectory entry = false))
                 (map Rm (Temporary.getPathsToDelete cwd self entries filter))).
    { intros entries Hread. apply Forall_forall.
      intros action (target & -> & Hin)%list_elem_of_fmap.
      destruct (getPathsToDelete_listed _ _ _ _ _ Hin) as (entry & He & -> & Hf & Hdir).
      right. exists entries, entry. auto. }
    destruct (Temporary.status self); [constructor|].
    destruct (Temporary.ascension (Temporary.config_cleanup self)) eqn:Hasc;
      destruct (Temporary.when (Temporary.config_cleanup self)), exiting;
      try constructor;
      destruct (Temporary.include (Temporary.config_cleanup self)) eqn:Hinc;
      try destruct filter as [[|f]|]; try destruct readdir as [entries|m];
      try constructor;
      try (destruct (_ =? _)%nat);
      try (repeat constructor; now left);
      try (specialize (Hlisted entries eq_refl); rewrite ?Hinc in Hlisted; exact Hlisted).
  - unfold Temporary.cleanup.
    destruct (Temporary.status self); [reflexivity|].
    destruct (Temporary.when (Temporary.config_cleanup self)), exiting; trivial.
Qed.

(** X21. Registering and unregistering.  [unregister] undoes [register] for
    a path that was not registered before, and under the managed-files policy
    a sweep never removes an unregistered path other than the manager's own
    directory, whatever the listing holds and whatever had been registered. *)
Theorem unregistered_path_survives (cwd : string) (exiting : bool)
  (self : Temporary.FileManager) (readdir : Completion (list Temporary.Dirent))
  (filter : option Temporary.Filter) (file : string) :
  Temporary.include (Temporary.config_cleanup self) = Temporary.MANAGED_FILES ->
  file <> Temporary.path self ->
  (Rm file ∉ Temporary.cleanup cwd exiting (Temporary.unregister self file) readdir filter) /\
  (Rm file
   ∉ Temporary.cleanup cwd exiting
       (Temporary.unregister (Temporary.register self file) file) readdir filter) /\
  (file ∉ Temporary.registered self ->
   Temporary.registered (Temporary.unregister (Temporary.register self file) file)
   = Temporary.registered self).
Proof.
  intros Hinc Hne.
  assert (Hgone : forall manager,
             Temporary.include (Temporary.config_cleanup manager) = Temporary.MANAGED_FILES ->
             Temporary.path manager = Temporary.path self ->
             file ∉ Temporary.registered manager ->
             Rm file ∉ Temporary.cleanup cwd exiting manager readdir filter).
  { intros manager Hm Hpath Hnot Hin. unfold Temporary.cleanup in Hin.
    assert (Hpaths : forall entries,
               Rm file ∉ map Rm (Temporary.getPathsToDelete cwd manager entries filter)).
    { intros entries (target & [= <-] & Ht)%list_elem_of_fmap.
      destruct (getPathsToDelete_managed cwd manager entries filter file Hm Ht)
        as (entry & _ & _ & _ & Hreg & _). contradiction. }
    assert (Hself : Rm file ∉ [Rm (Temporary.path manager)]).
    { rewrite Hpath. intros [= ?]%list_elem_of_singleton. contradiction. }
    destruct (Temporary.status manager); [set_solver|].
    rewrite Hm in Hin.
    destruct (Temporary.when (Temporary.config_cleanup manager)), exiting;
      try (now apply elem_of_nil in Hin);
      destruct (Temporary.ascension (Temporary.config_cleanup manager));
      destruct readdir as [entries|m]; try (now apply elem_of_nil in Hin);
      try (destruct (_ =? _)%nat); try (exact (Hself Hin)); exact (Hpaths _ Hin). }
  split; [|split].
  - apply Hgone; [exact Hinc|reflexivity|cbn; set_solver].
  - apply Hgone; [exact Hinc|reflexivity|cbn; set_solver].
  - intros Hnot. cbn. set_solver.
Qed.

Lemma unregistered_path_survives_witness :
  let file := "/tmp/vencord/chatbubble/ffmpeg/main0" in
  let listing :=
    Return [{| Temporary.parentPath := "/tmp/vencord/chatbubble/ffmpeg";
               Temporary.name := "main0"; Temporary.isDirectory := false |}] in
  (Rm file ∉ Temporary.cleanup "/" false (Temporary.unregister Sample.fftemp file)
               listing None) /\
  (Rm file
   ∉ Temporary.cleanup "/" false
       (Temporary.unregister (Temporary.register Sample.fftemp file) file) listing None) /\
  (file ∉ Temporary.registered Sample.fftemp ->
   Temporary.registered (Temporary.unregister (Temporary.register Sample.fftemp file) file)
   = Temporary.registered Sample.fftemp).
Proof.
  apply (unregistered_path_survives "/" false Sample.fftemp); [reflexivity|discriminate].
Defined.



Lemma bridge_on_order (cwd : string) (event : SocketPipe.Event) (self : SocketPipe.t)
  (provider : Temporary.FileManager) :
  (SocketPipe.status self = SocketPipe.CLOSED -> SocketPipe.listening self = false) ->
  SocketOrder.precedes (SocketPipe.status self)
    (SocketPipe.status (SocketPipe.on event self provider).1) = true /\
  (SocketPipe.status (SocketPipe.on event self provider).1 = SocketPipe.CLOSED ->
   SocketPipe.listening (SocketPipe.on event self provider).1 = false) /\
  SocketPipe.path (SocketPipe.on event self provider).1 = SocketPipe.path self.
Proof.
  intros Hinv. destruct event; cbn [SocketPipe.on].
  - destruct (SocketPipe.listening self) eqn:Hl; cbn.
    + destruct (SocketPipe.status self); try (repeat split; congruence).
      specialize (Hinv eq_refl). congruence.
    + destruct (SocketPipe.status self); repeat split; auto.
  - cbn. destruct (SocketPipe.status self); repeat split; auto.
Qed.

Lemma precedes_trans (a b c : SocketPipe.SocketStatus) :
  SocketOrder.precedes a b = true -> SocketOrder.precedes b c = true ->
  SocketOrder.precedes a c = true.
Proof. destruct a, b, c; cbn; congruence. Qed.

Lemma bridge_run_order (cwd : string) (events : list SocketPipe.Event) :
  forall (self : SocketPipe.t) (provider : Temporary.FileManager),
    (SocketPipe.status self = SocketPipe.CLOSED -> SocketPipe.listening self = false) ->
    SocketOrder.precedes (SocketPipe.status self)
      (SocketPipe.status (SocketPipe.run events self provider).1) = true /\
    (SocketPipe.status (SocketPipe.run events self provider).1 = SocketPipe.CLOSED ->
     SocketPipe.listening (SocketPipe.run events self provider).1 = false) /\
    SocketPipe.path (SocketPipe.run events self provider).1 = SocketPipe.path self.
Proof.
  unfold SocketPipe.run.
  induction events as [|event events IH]; intros self provider Hinv.
  - cbn. split; [now destruct (SocketPipe.status self)|]. split; [exact Hinv|reflexivity].
  - cbn [fold_left].
    destruct (bridge_on_order cwd event self provider Hinv) as (Hstep & Hinv' & Hpath).
    destruct (SocketPipe.on event self provider) as [self' provider'].
    destruct (IH self' provider' Hinv') as (Hrest & Hinv'' & Hpath').
    split; [exact (precedes_trans _ _ _ Hstep Hrest)|]. split; [exact Hinv''|].
    cbn in Hpath. congruence.
Qed.

(** X22. A bridge's status only moves forward, PENDING then OPEN then
    CLOSED (OPEN is skipped when the stream finishes before a peer connects):
    for a bridge made by the constructor, the status after any events comes
    before or is the status after any further events, a closed bridge stays
    closed, and the path never changes. *)
Theorem bridge_status_only_advances (cwd : string) (provider : Temporary.FileManager)
  (events further : list SocketPipe.Event) :
  let made := SocketPipe.constructor cwd provider in
  let reached := SocketPipe.run events made.1.1 made.1.2 in
  let later := SocketPipe.run further reached.1 reached.2 in
  SocketPipe.status made.1.1 = SocketPipe.PENDING /\
  SocketOrder.precedes (SocketPipe.status reached.1) (SocketPipe.status later.1) = true /\
  SocketPipe.path later.1 = SocketPipe.path made.1.1.
Proof.
  cbn zeta. unfold SocketPipe.constructor.
  destruct (Temporary.unique cwd provider _) as [path provider'] eqn:Hunique.
  cbn [fst snd SocketPipe.status].
  set (fresh := {| SocketPipe.path := path; SocketPipe.status := SocketPipe.PENDING;
                   SocketPipe.listening := true |}).
  assert (Hfresh : SocketPipe.status fresh = SocketPipe.CLOSED ->
                   SocketPipe.listening fresh = false) by discriminate.
  destruct (bridge_run_order cwd events fresh provider' Hfresh) as (_ & Hinv & Hpath).
  destruct (SocketPipe.run events fresh provider') as [reached provider''].
  destruct (bridge_run_order cwd further reached provider'' Hinv) as (Hord & _ & Hpath').
  cbn [fst snd] in *. split; [reflexivity|]. split; [exact Hord|]. congruence.
Qed.

(* --------------------------------------------------------------------- *)
(** ** The argument list                                                 *)
(* --------------------------------------------------------------------- *)

(** X23. The shape of the argument list.  [buildArguments] throws exactly
    when the request has no crop rectangle.  Otherwise the list starts with
    the progress flags and ends with the output channel; the overlay is
    declared as raw RGBA video of its bounds' size right after the main input;
    and neither the quality asked for nor any payload byte enters the list. *)
Theorem buildArguments_shape (platform : string) (io : IO.t)
  (options : ChatbubbleFFmpegOptions) (quality' : option Z) (data' pixels' : Bytes) :
  let size :=
    Js.String_of_Z (rwidth (bounds (overlay options))) ++ "x"
    ++ Js.String_of_Z (rheight (bounds (overlay options))) in
  let options' :=
    {| file := {| mime := mime (file options); data := data' |};
       target := {| target_type := target_type (target options);
                    crop := crop (target options); quality := quality' |};
       overlay := {| transparent := transparent (overlay options);
                     bounds := bounds (overlay options); pixels := pixels' |} |} in
  FFmpegJob.buildArguments platform io options'
  = FFmpegJob.buildArguments platform io options /\
  match crop (target options), FFmpegJob.buildArguments platform io options with
  | None, Throw message => message = "TypeError"
  | Some _, Return arguments =>
      List.last arguments "" = IO.out (IO.paths io) /\
      exists flags graph,
        arguments
        = (["-progress"; "-"; "-nostats"; "-y"] ++ flags
           ++ ["-i"; IO.main (IO.paths io); "-f"; "rawvideo"; "-pix_fmt"; "rgba";
               "-s"; size; "-i"; IO.bubble (IO.paths io)]
           ++ graph ++ [IO.out (IO.paths io)])%list
  | _, _ => False
  end.
Proof.
  cbn zeta. unfold FFmpegJob.buildArguments. cbn [file target overlay mime
    target_type crop quality transparent bounds pixels].
  destruct (crop (target options)) as [rectangle|]; [|split; reflexivity].
  split; [destruct (target_type (target options)); reflexivity|].
  destruct (format_eqb (target_type (target options)) GIF);
    (split; [rewrite !app_assoc; apply last_last|]);
    match goal with
    | |- context [(?flags ++ ["-i"; _] ++ _ ++ [_; ?graph] ++ ?map ++ ?audio
                   ++ ?codec ++ ?limit ++ [_])%list] =>
        exists flags, ("-filter_complex" :: graph :: map ++ audio ++ codec ++ limit)%list
    end;
    cbn [app]; now rewrite <- !app_assoc.
Qed.

(* --------------------------------------------------------------------- *)
(** ** The editor: crop, export and shapes                               *)
(* --------------------------------------------------------------------- *)

(** One axis of the crop measured from its own offset: the lower coordinate
    lands on zero and the extent is kept, both exactly. *)
Lemma crop_axis_offset (a b lo hi : float) :
  isFinite a = true -> isFinite b = true ->
  (if (a <? b)%float then (a, b) else (b, a)) = (lo, hi) ->
  (if (a + - lo <? b + - lo)%float then (a + - lo, b + - lo) else (b + - lo, a + - lo))%float
  = (0, hi - lo)%float.
Proof.
  intros Ha Hb. rewrite !float_add_opp.
  destruct (a <? b)%float eqn:Hlt; intros [= <- <-].
  - rewrite (float_sub_diag a Ha).
    destruct (0 <? b - a)%float eqn:Hpos; [reflexivity|].
    now rewrite (float_sub_strict b a Hb Ha Hlt Hpos).
  - rewrite (float_sub_diag b Hb).
    now rewrite (float_sub_not_negative a b Hlt).
Qed.

(** X26. The space a renderer draws in, in the engine's arithmetic.  In the
    preview mode it is the canvas at offset 0.  In the final mode it has the
    size of the source and is moved against the crop's offset, so that, the
    scaled corners being finite, the crop measured in it starts exactly at the
    origin with exactly the extent it has in the source. *)
Theorem offset_canvas_space_places_crop
  (corners : ChatbubblePoints.NormalizedPointList float)
  (canvas uncroppedResolution : Dimensions float)
  (a b : float * float) (rest : list (float * float)) :
  ChatbubblePoints.mul corners uncroppedResolution = a :: b :: rest ->
  isFinite a.1 = true -> isFinite a.2 = true ->
  isFinite b.1 = true -> isFinite b.2 = true ->
  Editor.getOffsetCanvasSpace Editor.Preview canvas corners uncroppedResolution
  = Return {| rx := 0%float; ry := 0%float;
              rwidth := width canvas; rheight := height canvas |} /\
  exists cropped space placed,
    ChatbubbleConfiguration.getCroppedRectangle corners (inr uncroppedResolution)
    = Return cropped /\
    Editor.getOffsetCanvasSpace Editor.Final canvas corners uncroppedResolution
    = Return space /\
    space = {| rx := (- rx cropped)%float; ry := (- ry cropped)%float;
               rwidth := width uncroppedResolution;
               rheight := height uncroppedResolution |} /\
    ChatbubbleConfiguration.getCroppedRectangle corners (inl space) = Return placed /\
    placed = {| rx := 0%float; ry := 0%float;
                rwidth := rwidth cropped; rheight := rheight cropped |}.
Proof.
  intros Hscaled Hax Hay Hbx Hby. split; [reflexivity|].
  destruct corners as [[|[px py] [|[qx qy] rest0]]]; try discriminate.
  destruct uncroppedResolution as [W Hh].
  cbn in Hscaled. injection Hscaled as <- <- _. cbn [fst snd] in *.
  unfold Editor.getOffsetCanvasSpace, ChatbubbleConfiguration.getCroppedRectangle.
  cbn.
  remember (px * W)%float as ax eqn:Eax in *.
  remember (py * Hh)%float as ay eqn:Eay in *.
  remember (qx * W)%float as bx eqn:Ebx in *.
  remember (qy * Hh)%float as by' eqn:Eby in *.
  destruct (if (ax <? bx)%float then (ax, bx) else (bx, ax)) as [xlo xhi] eqn:Hx.
  destruct (if (ay <? by')%float then (ay, by') else (by', ay)) as [ylo yhi] eqn:Hy.
  cbn. do 3 eexists.
  split; [reflexivity|]. split; [reflexivity|]. split; [reflexivity|].
  cbn [rx ry rwidth rheight]. rewrite <- Eax, <- Eay, <- Ebx, <- Eby.
  rewrite (crop_axis_offset ax bx xlo xhi Hax Hbx Hx).
  rewrite (crop_axis_offset ay by' ylo yhi Hay Hby Hy).
  rewrite !float_sub_zero_r.
  split; reflexivity.
Qed.

(** The crop of the middle of a 640x480 source. *)
Lemma offset_canvas_space_places_crop_witness :
  let corners := ChatbubblePoints.new [(0.75, 0.25); (0.25, 0.75)]%float in
  let source := {| width := 640%float; height := 480%float |} in
  exists cropped space placed,
    ChatbubbleConfiguration.getCroppedRectangle corners (inr source) = Return cropped /\
    Editor.getOffsetCanvasSpace Editor.Final source corners source = Return space /\
    space = {| rx := (- rx cropped)%float; ry := (- ry cropped)%float;
               rwidth := 640%float; rheight := 480%float |} /\
    ChatbubbleConfiguration.getCroppedRectangle corners (inl space) = Return placed /\
    placed = {| rx := 0%float; ry := 0%float;
                rwidth := rwidth cropped; rheight := rheight cropped |}.
Proof.
  cbv zeta.
  exact (proj2 (offset_canvas_space_places_crop
                  (ChatbubblePoints.new [(0.75, 0.25); (0.25, 0.75)]%float)
                  {| width := 640%float; height := 480%float |}
                  {| width := 640%float; height := 480%float |}
                  (480, 120)%float (160, 360)%float [] eq_refl eq_refl eq_refl
                  eq_refl eq_refl)).
Defined.

(** X27. Which way [export] goes.  It refuses only without an encoder and
    hands over only with one; the canvas draws exactly the stills exported as
    PNG, and as GIF when there is no encoder: with an encoder a GIF is always
    handed over, and video input or a video format never stays on the canvas. *)
Theorem export_route_cases (hasFFmpeg : bool) (fileType : string)
  (format : ChatbubbleExportFormat) :
  (Editor.export_route hasFFmpeg fileType format = Editor.NoEncoder ->
   hasFFmpeg = false) /\
  (Editor.export_route hasFFmpeg fileType format = Editor.ByEncoder ->
   hasFFmpeg = true) /\
  (Editor.export_route hasFFmpeg fileType format = Editor.ByCanvas <->
   Js.startsWith fileType "video" = false /\
   (format = PNG \/ (format = GIF /\ hasFFmpeg = false))).
Proof.
  unfold Editor.export_route.
  destruct (Js.startsWith fileType "video"), format, hasFFmpeg; cbn;
    repeat split; try congruence; try tauto;
    intros; intuition congruence.
Qed.

(** X28. [export] and the channel selector together: a request that reaches
    the encoder is served over sockets exactly when a still other than a GIF
    becomes a GIF, or a video becomes a PNG; every other handed-over request
    goes through spool files. *)
Theorem export_streams_iff (hasFFmpeg : bool) (fileType : string) (size : Z)
  (format : ChatbubbleExportFormat) :
  Editor.export_route hasFFmpeg fileType format = Editor.ByEncoder ->
  IO.choose fileType size format = IO.Streaming <->
  (format = GIF /\ Js.startsWith fileType "video" = false /\ fileType <> "image/gif")
  \/ (format = PNG /\ Js.startsWith fileType "video" = true).
Proof.
  unfold Editor.export_route, IO.choose.
  destruct (String.eqb fileType (format_mime GIF)) eqn:Hgif.
  - apply String.eqb_eq in Hgif. subst fileType.
    destruct format, hasFFmpeg; cbn; intros; try discriminate;
      split; try discriminate; intros [(? & ? & ?)|(? & ?)]; congruence.
  - assert (Hne : fileType <> "image/gif").
    { intros ->. cbn in Hgif. discriminate. }
    destruct (Js.startsWith fileType "video"), format, hasFFmpeg; cbn;
      intros; try discriminate; split; try discriminate; try tauto;
      try (intros [(? & ? & ?)|(? & ?)]; congruence);
      intros _; first [left; repeat split; congruence | right; split; congruence].
Qed.

Lemma export_streams_iff_witness :
  IO.choose "image/png" 1024 GIF = IO.Streaming <->
  (GIF = GIF /\ Js.startsWith "image/png" "video" = false /\ "image/png" <> "image/gif")
  \/ (GIF = PNG /\ Js.startsWith "image/png" "video" = true).
Proof. apply (export_streams_iff true "image/png" 1024 GIF). reflexivity. Defined.

Section ShapesStore.
Context {num : Type} `{JsNumber num}.

(** X29. [move] replaces one shape and leaves the rest.  With a shape at the
    index it answers with a list of the same length, every other position
    holding the shape it held, the position itself a shape with as many
    points; with no shape at the index (negative or past the end) it throws. *)
Theorem move_replaces_one_shape
  (shapes : list (ChatbubblePoints.NormalizedPointList num)) (shapeIndex : Z)
  (amount : num * num) :
  match Editor.move shapes shapeIndex amount with
  | Return moved =>
      0 <= shapeIndex /\ length moved = length shapes /\
      (forall other, other <> Z.to_nat shapeIndex -> moved !! other = shapes !! other) /\
      exists shape clone,
        shapes !! Z.to_nat shapeIndex = Some shape /\
        moved !! Z.to_nat shapeIndex = Some clone /\
        length (ChatbubblePoints.normalized clone)
        = length (ChatbubblePoints.normalized shape)
  | Throw _ => shapeIndex < 0 \/ (length shapes <= Z.to_nat shapeIndex)%nat
  end.
Proof.
  unfold Editor.move. destruct (Z.ltb_spec shapeIndex 0) as [Hneg|Hpos]; [now left|].
  destruct (shapes !! Z.to_nat shapeIndex) as [shape|] eqn:Hat.
  - split; [exact Hpos|]. split; [apply length_insert|].
    split; [intros other Hother; now apply list_lookup_insert_ne|].
    eexists shape, _. split; [reflexivity|]. split.
    + apply list_lookup_insert_eq. now apply lookup_lt_Some in Hat.
    + cbn. apply length_map.
  - right. now apply lookup_ge_None.
Qed.

Lemma inverted_both (P : ChatbubblePoints.NormalizedPointList num) :
  let x_only := Some {| ChatbubblePoints.x := Some true; ChatbubblePoints.y := None |} in
  let y_only := Some {| ChatbubblePoints.x := None; ChatbubblePoints.y := Some true |} in
  let neither := Some {| ChatbubblePoints.x := None; ChatbubblePoints.y := None |} in
  ChatbubblePoints.inverted (ChatbubblePoints.inverted P x_only) y_only
  = ChatbubblePoints.inverted P None /\
  ChatbubblePoints.inverted (ChatbubblePoints.inverted P y_only) x_only
  = ChatbubblePoints.inverted P None /\
  ChatbubblePoints.inverted P neither = P.
Proof.
  destruct P as [points]. unfold ChatbubblePoints.inverted. simpl.
  repeat split; f_equal; rewrite ?map_map.
  - apply map_ext. now intros [vx vy].
  - apply map_ext. now intros [vx vy].
  - rewrite <- (map_id points) at 2. apply map_ext. now intros [vx vy].
Qed.

(** X30. [invert] reflects every shape and keeps the list's form: as many
    shapes with as many points each.  Reflections of different axes compose
    without rounding in between, in binary64 as in any arithmetic: x then y,
    and y then x, are the reflection of both at once, each coordinate being
    subtracted from one at most once; an object naming no axis changes
    nothing. *)
Theorem invert_keeps_form (shapes : list (ChatbubblePoints.NormalizedPointList num))
  (details : option ChatbubblePoints.Axes) :
  let x_only := Some {| ChatbubblePoints.x := Some true; ChatbubblePoints.y := None |} in
  let y_only := Some {| ChatbubblePoints.x := None; ChatbubblePoints.y := Some true |} in
  let neither := Some {| ChatbubblePoints.x := None; ChatbubblePoints.y := None |} in
  length (Editor.invert shapes details) = length shapes /\
  Forall2
    (fun reflected shape =>
       length (ChatbubblePoints.normalized reflected)
       = length (ChatbubblePoints.normalized shape))
    (Editor.invert shapes details) shapes /\
  Editor.invert (Editor.invert shapes x_only) y_only = Editor.invert shapes None /\
  Editor.invert (Editor.invert shapes y_only) x_only = Editor.invert shapes None /\
  Editor.invert shapes neither = shapes.
Proof.
  cbn zeta. unfold Editor.invert. split; [apply length_map|]. split.
  - induction shapes as [|shape shapes IH]; constructor; [|exact IH].
    apply inverted_length.
  - rewrite !map_map. repeat split.
    + apply map_ext. intros shape. apply inverted_both.
    + apply map_ext. intros shape. apply inverted_both.
    + rewrite <- (map_id shapes) at 2. apply map_ext. intros shape.
      apply inverted_both.
Qed.
End ShapesStore.
